(** * AI-Trader: the decision pipeline of [ClaudeCodeAgent]

    A shallow embedding of [agent/claude_code_agent/shared/claude_core.py]:
    the prompt cache, the subprocess invocation, the retry controller, the
    layered decision extraction, the decision validator and the trading
    session that ties them together.

    Python values are embedded as data ([value]), exceptions as a sum type
    ([result]), the mutable agent and the file system as explicit state, and
    the outside world (what each [subprocess.run] does) as an oracle.

    The interpreter is CPython 3.11 or later; the standard output and the
    pipes of a subprocess are UTF-8 with the error handler [strict], so
    that writing a lone surrogate is a [UnicodeEncodeError] and a text
    read from a pipe holds none.  Conversions between [int] and [str]
    refuse more than 4300 digits.  What the interpreter runs out of
    (recursion depth, memory) is outside the model. *)

From Stdlib Require Import ZArith NArith List String Ascii Bool Lia DecimalString.
From stdpp Require Import base option list gmap sorting.

Open Scope Z_scope.
Set Warnings "-register-all".

(** ** Text

    A Python [str] is a sequence of Unicode code points. *)

Module Text.

Definition str := list N.

(** The code points of a literal of this file (ASCII only). *)
Definition lit (s : string) : str :=
  map N_of_ascii (list_ascii_of_string s).

Definition str_eqb (a b : str) : bool := bool_decide (a = b).

(** [s[:n]] for a non-negative [n]. *)
Definition slice_to (n : nat) (s : str) : str := take n s.

End Text.
Export Text.

(** ** Regular expressions

    The three patterns of [_extract_decision] use literals, the classes
    [\s], [.] (under [re.DOTALL]) and [[^{}]], greedy and lazy stars over
    such a class, concatenation and one capturing group.  [re_match] is the
    backtracking matcher of Python's [re]: alternatives are tried in
    priority order and the first complete match wins. *)

Module Re.

Inductive regex :=
| Eps
| Chr (c : N)
| Cls (p : N -> bool)
| StarG (p : N -> bool)          (* X*   greedy, X a one-character class *)
| StarL (p : N -> bool)          (* X*?  lazy *)
| Seq (r1 r2 : regex)
| Grp (r : regex).               (* the capturing group 1 *)

(** What a successful match reports: the text after the match and the
    text captured by the group, when the group took part. *)
Definition found : Type := str * option str.

Fixpoint re_match (r : regex) (s : str) (g : option str)
    (k : str -> option str -> option found) : option found :=
  match r with
  | Eps => k s g
  | Chr c =>
      match s with
      | x :: s' => if N.eqb x c then k s' g else None
      | [] => None
      end
  | Cls p =>
      match s with
      | x :: s' => if p x then k s' g else None
      | [] => None
      end
  | StarG p =>
      (fix more (s : str) : option found :=
         match s with
         | x :: s' =>
             if p x then
               match more s' with
               | Some m => Some m
               | None => k s g
               end
             else k s g
         | [] => k s g
         end) s
  | StarL p =>
      (fix more (s : str) : option found :=
         match k s g with
         | Some m => Some m
         | None =>
             match s with
             | x :: s' => if p x then more s' else None
             | [] => None
             end
         end) s
  | Seq r1 r2 => re_match r1 s g (fun s' g' => re_match r2 s' g' k)
  | Grp r1 =>
      re_match r1 s g
        (fun s' _ => k s' (Some (take (length s - length s') s)))
  end.

(** A match anchored at the start of [s]. *)
Definition match_here (r : regex) (s : str) : option found :=
  re_match r s None (fun s' g => Some (s', g)).

(** [re.search(r, s)]: the match at the leftmost position that has one.
    Returns the whole match (group 0) and group 1. *)
Fixpoint search (r : regex) (s : str) : option (str * option str) :=
  match match_here r s with
  | Some (rest, g) => Some (take (length s - length rest) s, g)
  | None =>
      match s with
      | [] => None
      | _ :: s' => search r s'
      end
  end.

(** [re.findall(r, s)] for a pattern without groups: the non-overlapping
    matches, scanning from the left.  [skip] counts the characters of the
    last match that are still to be stepped over. *)
Fixpoint findall_skip (r : regex) (s : str) (skip : nat) : list str :=
  match skip with
  | S n =>
      match s with
      | [] => []
      | _ :: s' => findall_skip r s' n
      end
  | O =>
      match match_here r s with
      | Some (rest, _) =>
          let len := (length s - length rest)%nat in
          take len s ::
            match s with
            | [] => []
            | _ :: s' => findall_skip r s' (len - 1)
            end
      | None =>
          match s with
          | [] => []
          | _ :: s' => findall_skip r s' 0
          end
      end
  end.

Definition findall (r : regex) (s : str) : list str := findall_skip r s 0.

(** A literal string as a pattern. *)
Fixpoint chars (s : str) : regex :=
  match s with
  | [] => Eps
  | c :: s' => Seq (Chr c) (chars s')
  end.

(** [\s] on [str] patterns: the code points for which [str.isspace] holds. *)
Definition is_space (c : N) : bool :=
  ((9 <=? c) && (c <=? 13) || (28 <=? c) && (c <=? 32)
   || (c =? 133) || (c =? 160) || (c =? 5760)
   || (8192 <=? c) && (c <=? 8202)
   || (c =? 8232) || (c =? 8233) || (c =? 8239) || (c =? 8287)
   || (c =? 12288))%N.

(** [.] under [re.DOTALL]. *)
Definition any_char (c : N) : bool := true.

(** [[^{}]]. *)
Definition not_brace (c : N) : bool :=
  negb ((c =? 123) || (c =? 125))%N.

End Re.

(** ** Python values

    The values [json.loads] builds.  A [float] is an IEEE binary64 value:
    NaN, an infinity, or [(-1)^neg * m * 2^e] (zero is [m = 0, e = 0]);
    comparisons are exact. *)

Module Py.

Inductive pyfloat :=
| FNan
| FInf (neg : bool)
| FFin (neg : bool) (m : N) (e : Z).

Inductive value :=
| VNone
| VBool (b : bool)
| VInt (n : Z)
| VFloat (f : pyfloat)
| VStr (s : str)
| VList (l : list value)
| VDict (d : list (str * value)).

(** A [dict] with [str] keys, in insertion order. *)
Definition dict : Type := list (str * value).

(** [d.get(k)] as an option; [k in d] is [is_Some]. *)
Fixpoint dict_get (k : str) (d : dict) : option value :=
  match d with
  | [] => None
  | (k', v) :: d' => if str_eqb k' k then Some v else dict_get k d'
  end.

Definition dict_has (k : str) (d : dict) : bool :=
  match dict_get k d with Some _ => true | None => false end.

(** [d.get(k, default)]. *)
Definition dict_get_default (k : str) (default : value) (d : dict) : value :=
  match dict_get k d with Some v => v | None => default end.

(** [d[k] = v]: an existing key keeps its place. *)
Fixpoint dict_set (k : str) (v : value) (d : dict) : dict :=
  match d with
  | [] => [(k, v)]
  | (k', v') :: d' =>
      if str_eqb k' k then (k', v) :: d' else (k', v') :: dict_set k v d'
  end.

(** Truth value of an object, as [if x:] tests it. *)
Definition truthy (v : value) : bool :=
  match v with
  | VNone => false
  | VBool b => b
  | VInt n => negb (n =? 0)
  | VFloat (FFin _ m _) => negb (m =? 0)%N
  | VFloat _ => true
  | VStr s => match s with [] => false | _ => true end
  | VList l => match l with [] => false | _ => true end
  | VDict d => match d with [] => false | _ => true end
  end.

(** [isinstance(v, (int, float))]; [bool] is a subclass of [int]. *)
Definition is_int_or_float (v : value) : bool :=
  match v with
  | VBool _ | VInt _ | VFloat _ => true
  | _ => false
  end.

(** The float a number stands for in a comparison ([True] is 1). *)
Definition as_float (v : value) : option pyfloat :=
  match v with
  | VBool b => Some (FFin false (if b then 1 else 0) 0)
  | VInt n => Some (FFin (n <? 0) (Z.abs_N n) 0)
  | VFloat f => Some f
  | _ => None
  end.

Definition signed (neg : bool) (m : N) : Z :=
  if neg then - Z.of_N m else Z.of_N m.

(** Exact order of two numbers; [None] when a NaN is involved. *)
Definition float_compare (a b : pyfloat) : option comparison :=
  match a, b with
  | FNan, _ | _, FNan => None
  | FInf n1, FInf n2 =>
      Some (if n1 then if n2 then Eq else Lt else if n2 then Gt else Eq)
  | FInf n1, FFin _ _ _ => Some (if n1 then Lt else Gt)
  | FFin _ _ _, FInf n2 => Some (if n2 then Gt else Lt)
  | FFin n1 m1 e1, FFin n2 m2 e2 =>
      let e := Z.min e1 e2 in
      Some (Z.compare (signed n1 m1 * 2 ^ (e1 - e))
                      (signed n2 m2 * 2 ^ (e2 - e)))
  end.

(** [a <= b] on floats: false as soon as a NaN is involved. *)
Definition float_le (a b : pyfloat) : bool :=
  match float_compare a b with
  | Some Lt | Some Eq => true
  | _ => false
  end.

Definition zero : pyfloat := FFin false 0 0.
Definition one : pyfloat := FFin false 1 0.

(** Round-half-even quotient of [n >= 0] by [d > 0]. *)
Definition div_half_even (n d : Z) : Z :=
  let q := n / d in
  match Z.compare (2 * (n mod d)) d with
  | Lt => q
  | Gt => q + 1
  | Eq => if Z.even q then q else q + 1
  end.

(** The binary64 nearest to [n / d] ([n >= 0], [d > 0]), ties to even,
    overflowing to an infinity, as [float(str)] rounds a literal. *)
Definition float_of_ratio (neg : bool) (n d : Z) : pyfloat :=
  if n =? 0 then FFin neg 0 0 else
  let scaled (e : Z) := if 0 <=? e then (n, d * 2 ^ e) else (n * 2 ^ (- e), d) in
  let e1 := Z.log2 n - Z.log2 d - 52 in
  let e2 := let '(a, b) := scaled e1 in if a / b <? 2 ^ 52 then e1 - 1 else e1 in
  let e := Z.max (-1074) e2 in
  let '(a, b) := scaled e in
  let q := div_half_even a b in
  let '(q, e) := if q =? 2 ^ 53 then (2 ^ 52, e + 1) else (q, e) in
  if q =? 0 then FFin neg 0 0
  else if 971 <? e then FInf neg
  else FFin neg (Z.to_N q) e.

(** The float of the decimal [(-1)^neg * m * 10^e], [m >= 0].  Far outside
    the range of binary64 the result does not depend on the digits: from
    [10^310] on every non-zero decimal overflows, and a decimal below
    [10^-324] (as [m < 10^(log2 m + 1)]) rounds to zero. *)
Definition float_of_decimal (neg : bool) (m e : Z) : pyfloat :=
  if m =? 0 then FFin neg 0 0
  else if 310 <=? e then FInf neg
  else if e + Z.log2 m + 1 <=? -324 then FFin neg 0 0
  else if 0 <=? e then float_of_ratio neg (m * 10 ^ e) 1
  else float_of_ratio neg m (10 ^ (- e)).

(** [a * b] on floats: the product rounded to the nearest binary64, ties
    to even. *)
Definition float_mul (a b : pyfloat) : pyfloat :=
  match a, b with
  | FNan, _ | _, FNan => FNan
  | FInf n1, FInf n2 => FInf (xorb n1 n2)
  | FInf n1, FFin n2 m _ | FFin n1 m _, FInf n2 =>
      if (m =? 0)%N then FNan else FInf (xorb n1 n2)
  | FFin n1 m1 e1, FFin n2 m2 e2 =>
      let m := Z.of_N m1 * Z.of_N m2 in
      let e := e1 + e2 in
      if 0 <=? e then float_of_ratio (xorb n1 n2) (m * 2 ^ e) 1
      else float_of_ratio (xorb n1 n2) m (2 ^ (- e))
  end.

(** The float an [int] operand becomes next to a float operand: the
    nearest binary64.  Python raises [OverflowError] for an [int] beyond
    the range of binary64, where this gives an infinity; the only [int]
    converted here is the number of an attempt, and more than [10^308]
    attempts are not made. *)
Definition float_of_int (n : Z) : pyfloat :=
  float_of_ratio (n <? 0) (Z.abs n) 1.

(** [str(n)] for an [int]: a minus sign when negative, and the decimal
    digits. *)
Definition str_of_int (n : Z) : str :=
  lit (NilZero.string_of_int (Z.to_int n)).

(** The limit of the conversions between [int] and [str]
    ([sys.int_info.default_max_str_digits]): a number of more than 4300
    digits, that is one from [10^4300] on, is refused with a
    [ValueError]. *)
Definition max_str_digits : Z := 4300.

Definition over_max_str_digits (n : Z) : bool :=
  10 ^ max_str_digits <=? Z.abs n.
Arguments over_max_str_digits : simpl never.

(** Whether a value holds an [int] that cannot be written, itself or
    inside a list or a dict. *)
Fixpoint holds_long_int (v : value) : bool :=
  match v with
  | VInt n => over_max_str_digits n
  | VList l => existsb holds_long_int l
  | VDict d => existsb (fun kv => holds_long_int (snd kv)) d
  | _ => false
  end.

(** [s.upper()] on the letters a to z.  The one text the program puts in
    upper case is the action of a decision, which is buy, sell or hold
    when it gets there. *)
Definition upper (s : str) : str :=
  map (fun c => if ((97 <=? c) && (c <=? 122))%N then (c - 32)%N else c) s.

(** Formatting a value with a float presentation type ([.4f], [.2%]):
    numbers are converted to float first, which overflows for a large
    [int]; anything else rejects the format specification. *)
Inductive format_outcome := Formatted | BadCode | Unsupported | TooLarge.

Definition format_float_spec (v : value) : format_outcome :=
  match v with
  | VBool _ | VFloat _ => Formatted
  | VInt n =>
      if Z.abs n <? 2 ^ 1024 - 2 ^ 970 then Formatted else TooLarge
  | VStr _ => BadCode
  | VNone | VList _ | VDict _ => Unsupported
  end.

End Py.
Export Py.

(** ** [json.loads]

    The decoder of the standard library on a [str]: the whitespace is
    space, tab, line feed and carriage return; strings are strict (no raw
    control character); [NaN], [Infinity] and [-Infinity] are accepted;
    a repeated key keeps its last value.  A text that is not JSON is a
    [json.JSONDecodeError]; an integer literal of more than 4300 digits
    is refused by [int] with a plain [ValueError], as soon as the decoder
    reads it.  The decoder recurses once for each level of nesting: a
    document nested deeper than the stack of the interpreter allows is a
    [RecursionError], which depends on the state of the interpreter and
    not on the program; the statements about [loads] are about documents
    the interpreter has the stack to decode. *)

Module Json.

Inductive parsed (A : Type) :=
| Parsed (a : A) (rest : str)
| Malformed                      (* json.JSONDecodeError *)
| Refused                        (* the ValueError of a long integer literal *)
| Starved.                       (* the recursion budget ran out *)
Arguments Parsed {A} a rest.
Arguments Malformed {A}.
Arguments Refused {A}.
Arguments Starved {A}.

Definition is_ws (c : N) : bool :=
  ((c =? 32) || (c =? 9) || (c =? 10) || (c =? 13))%N.

Fixpoint skip_ws (s : str) : str :=
  match s with
  | c :: s' => if is_ws c then skip_ws s' else s
  | [] => []
  end.

Definition is_digit (c : N) : bool := ((48 <=? c) && (c <=? 57))%N.

(** The longest prefix of digits and what follows it. *)
Fixpoint digits (s : str) : str * str :=
  match s with
  | c :: s' =>
      if is_digit c then let '(ds, rest) := digits s' in (c :: ds, rest)
      else ([], s)
  | [] => ([], [])
  end.

Definition decimal (ds : str) : Z :=
  fold_left (fun acc c => 10 * acc + (Z.of_N c - 48)) ds 0.

Definition hex_digit (c : N) : option N :=
  if ((48 <=? c) && (c <=? 57))%N then Some (c - 48)%N
  else if ((97 <=? c) && (c <=? 102))%N then Some (c - 87)%N
  else if ((65 <=? c) && (c <=? 70))%N then Some (c - 55)%N
  else None.

Definition hex4 (a b c d : N) : option N :=
  match hex_digit a, hex_digit b, hex_digit c, hex_digit d with
  | Some x, Some y, Some z, Some w => Some (((x * 16 + y) * 16 + z) * 16 + w)%N
  | _, _, _, _ => None
  end.

Definition is_high_surrogate (c : N) : bool := ((55296 <=? c) && (c <=? 56319))%N.
Definition is_low_surrogate (c : N) : bool := ((56320 <=? c) && (c <=? 57343))%N.
Definition join_surrogates (hi lo : N) : N :=
  (65536 + (hi - 55296) * 1024 + (lo - 56320))%N.

Definition simple_escape (c : N) : option N :=
  if (c =? 34)%N then Some 34%N            (* quote *)
  else if (c =? 92)%N then Some 92%N       (* backslash *)
  else if (c =? 47)%N then Some 47%N       (* slash *)
  else if (c =? 98)%N then Some 8%N        (* b: backspace *)
  else if (c =? 102)%N then Some 12%N      (* f: form feed *)
  else if (c =? 110)%N then Some 10%N      (* n: line feed *)
  else if (c =? 114)%N then Some 13%N      (* r: carriage return *)
  else if (c =? 116)%N then Some 9%N       (* t: tab *)
  else None.

Definition push (c : N) (r : option (str * str)) : option (str * str) :=
  match r with
  | Some (body, rest) => Some (c :: body, rest)
  | None => None
  end.

(** The body of a string literal, from just after its opening quote. *)
Fixpoint scanstring (s : str) : option (str * str) :=
  match s with
  | [] => None
  | c :: s1 =>
      if (c =? 34)%N then Some ([], s1)
      else if (c =? 92)%N then
        match s1 with
        | [] => None
        | e :: s2 =>
            if (e =? 117)%N then
              match s2 with
              | a :: b :: c' :: d :: s6 =>
                  match hex4 a b c' d with
                  | None => None
                  | Some cp =>
                      let lone := push cp (scanstring s6) in
                      if is_high_surrogate cp then
                        match s6 with
                        | bs :: u :: a2 :: b2 :: c2 :: d2 :: s12 =>
                            if ((bs =? 92) && (u =? 117))%N then
                              match hex4 a2 b2 c2 d2 with
                              | Some lo =>
                                  if is_low_surrogate lo
                                  then push (join_surrogates cp lo) (scanstring s12)
                                  else lone
                              | None => None
                              end
                            else lone
                        | _ => lone
                        end
                      else lone
                  end
              | _ => None
              end
            else
              match simple_escape e with
              | Some x => push x (scanstring s2)
              | None => None
              end
        end
      else if (c <? 32)%N then None
      else push c (scanstring s1)
  end.

(** [prefix p s]: what follows [p] when [s] starts with it. *)
Fixpoint prefix (p s : str) : option str :=
  match p, s with
  | [], _ => Some s
  | a :: p', b :: s' => if (a =? b)%N then prefix p' s' else None
  | _ :: _, [] => None
  end.

(** A number: an optional minus sign; the digit 0 alone or a non-zero
    digit followed by digits; optionally a dot and one digit or more;
    optionally e or E, a sign and one digit or more.  Without fraction
    and exponent it is an [int], which [int] refuses when it has more
    than 4300 digits; otherwise a [float]. *)
Definition scan_number (s : str) : parsed value :=
  let '(neg, s1) :=
    match s with
    | c :: s' => if (c =? 45)%N then (true, s') else (false, s)
    | [] => (false, s)
    end in
  let int_part : option (str * str) :=
    match s1 with
    | c :: s' =>
        if (c =? 48)%N then Some ([c], s')
        else if is_digit c then Some (digits s1)
        else None
    | [] => None
    end in
  match int_part with
  | None => Malformed
  | Some (ip, s2) =>
      let '(frac, s3) :=
        match s2 with
        | dot :: d :: _ =>
            if ((dot =? 46) && is_digit d)%N
            then let '(fs, r) := digits (tl s2) in (Some fs, r)
            else (None, s2)
        | _ => (None, s2)
        end in
      let '(ex, s4) :=
        match s3 with
        | e :: s' =>
            if ((e =? 101) || (e =? 69))%N then
              let '(eneg, s'') :=
                match s' with
                | sg :: t =>
                    if (sg =? 45)%N then (true, t)
                    else if (sg =? 43)%N then (false, t)
                    else (false, s')
                | [] => (false, s')
                end in
              match digits s'' with
              | ([], _) => (None, s3)
              | (es, r) => (Some (if eneg then - decimal es else decimal es), r)
              end
            else (None, s3)
        | [] => (None, s3)
        end in
      match frac, ex with
      | None, None =>
          if max_str_digits <? Z.of_nat (length ip) then Refused
          else Parsed (VInt (if neg then - decimal ip else decimal ip)) s4
      | _, _ =>
          let fs := match frac with Some fs => fs | None => [] end in
          let e := match ex with Some e => e | None => 0 end in
          Parsed (VFloat (float_of_decimal neg (decimal (ip ++ fs))
                            (e - Z.of_nat (length fs)))) s4
      end
  end.

(** The literals [null], [true], [false], [NaN], [Infinity], [-Infinity]. *)
Definition scan_constant (s : str) : option (value * str) :=
  match prefix (lit "null") s with Some r => Some (VNone, r) | None =>
  match prefix (lit "true") s with Some r => Some (VBool true, r) | None =>
  match prefix (lit "false") s with Some r => Some (VBool false, r) | None =>
  match prefix (lit "NaN") s with Some r => Some (VFloat FNan, r) | None =>
  match prefix (lit "Infinity") s with Some r => Some (VFloat (FInf false), r) | None =>
  match prefix (lit "-Infinity") s with Some r => Some (VFloat (FInf true), r) | None =>
  None end end end end end end.

(** One value at the head of [s]; [members] and [elements] are the loops
    of the object and array decoders, entered after the opening bracket
    and the whitespace that follows it. *)
Fixpoint scan_once (fuel : nat) (s : str) {struct fuel} : parsed value :=
  match fuel with
  | O => Starved
  | S fuel' =>
      match s with
      | [] => Malformed
      | c :: s1 =>
          if (c =? 34)%N then
            match scanstring s1 with
            | Some (body, rest) => Parsed (VStr body) rest
            | None => Malformed
            end
          else if (c =? 123)%N then
            match skip_ws s1 with
            | c2 :: s3 =>
                if (c2 =? 125)%N then Parsed (VDict []) s3
                else members fuel' (c2 :: s3) []
            | [] => Malformed
            end
          else if (c =? 91)%N then
            match skip_ws s1 with
            | c2 :: s3 =>
                if (c2 =? 93)%N then Parsed (VList []) s3
                else elements fuel' (c2 :: s3) []
            | [] => Malformed
            end
          else
            match scan_constant s with
            | Some (v, rest) => Parsed v rest
            | None => scan_number s
            end
      end
  end
with members (fuel : nat) (s : str) (acc : dict) {struct fuel} : parsed value :=
  match fuel with
  | O => Starved
  | S fuel' =>
      match s with
      | q :: s1 =>
          if (q =? 34)%N then
            match scanstring s1 with
            | Some (key, s2) =>
                match skip_ws s2 with
                | colon :: s3 =>
                    if (colon =? 58)%N then
                      match scan_once fuel' (skip_ws s3) with
                      | Parsed v s4 =>
                          let acc' := dict_set key v acc in
                          match skip_ws s4 with
                          | c :: s5 =>
                              if (c =? 125)%N then Parsed (VDict acc') s5
                              else if (c =? 44)%N
                              then members fuel' (skip_ws s5) acc'
                              else Malformed
                          | [] => Malformed
                          end
                      | Malformed => Malformed
                      | Refused => Refused
                      | Starved => Starved
                      end
                    else Malformed
                | [] => Malformed
                end
            | None => Malformed
            end
          else Malformed
      | [] => Malformed
      end
  end
with elements (fuel : nat) (s : str) (acc : list value) {struct fuel} : parsed value :=
  match fuel with
  | O => Starved
  | S fuel' =>
      match scan_once fuel' s with
      | Parsed v s1 =>
          let acc' := acc ++ [v] in
          match skip_ws s1 with
          | c :: s2 =>
              if (c =? 93)%N then Parsed (VList acc') s2
              else if (c =? 44)%N
              then elements fuel' (skip_ws s2) acc'
              else Malformed
          | [] => Malformed
          end
      | Malformed => Malformed
      | Refused => Refused
      | Starved => Starved
      end
  end.

(** [json.loads(s)] with a recursion budget. *)
Definition loads_fuel (fuel : nat) (s : str) : parsed value :=
  match s with
  | 65279%N :: _ => Malformed                     (* a byte order mark *)
  | _ =>
      match scan_once fuel (skip_ws s) with
      | Parsed v rest =>
          match skip_ws rest with
          | [] => Parsed v []
          | _ :: _ => Malformed
          end
      | Malformed => Malformed
      | Refused => Refused
      | Starved => Starved
      end
  end.

(** [json.loads(s)]: the value it returns, [None] when it raises; it
    raises [json.JSONDecodeError], or the plain [ValueError] of a long
    integer literal on the texts that are [refused].  A call
    of [scan_once] on a text consumes a character before it recurses, and
    passes through [members] or [elements] on the way, so twice the length
    of the text is budget enough (see [loads_budget]). *)
Definition loads (s : str) : option value :=
  match loads_fuel (S (2 * length s)) s with
  | Parsed v _ => Some v
  | _ => None
  end.

Definition refused (s : str) : bool :=
  match loads_fuel (S (2 * length s)) s with
  | Refused => true
  | _ => false
  end.

End Json.

(** ** [str.encode()] and [hashlib.sha256]

    The cache key is the SHA-256 digest, in lowercase hexadecimal, of the
    UTF-8 encoding of a text. *)

Module Sha256.

(** UTF-8; a surrogate cannot be encoded ([UnicodeEncodeError]). *)
Definition utf8_char (c : N) : option (list Z) :=
  let z := Z.of_N c in
  if z <? 128 then Some [z]
  else if z <? 2048 then Some [192 + z / 64; 128 + z mod 64]
  else if (55296 <=? z) && (z <=? 57343) then None
  else if z <? 65536 then
    Some [224 + z / 4096; 128 + (z / 64) mod 64; 128 + z mod 64]
  else if z <? 1114112 then
    Some [240 + z / 262144; 128 + (z / 4096) mod 64;
          128 + (z / 64) mod 64; 128 + z mod 64]
  else None.

Fixpoint encode (s : str) : option (list Z) :=
  match s with
  | [] => Some []
  | c :: s' =>
      match utf8_char c, encode s' with
      | Some bs, Some rest => Some (bs ++ rest)
      | _, _ => None
      end
  end.

Definition w32 (x : Z) : Z := x mod 2 ^ 32.
Definition add32 (x y : Z) : Z := w32 (x + y).
Definition rotr (n x : Z) : Z :=
  Z.lor (Z.shiftr x n) (w32 (Z.shiftl x (32 - n))).
Definition not32 (x : Z) : Z := 2 ^ 32 - 1 - x.

Definition Ch (x y z : Z) : Z := Z.lxor (Z.land x y) (Z.land (not32 x) z).
Definition Maj (x y z : Z) : Z :=
  Z.lxor (Z.lxor (Z.land x y) (Z.land x z)) (Z.land y z).
Definition Sigma0 (x : Z) : Z := Z.lxor (Z.lxor (rotr 2 x) (rotr 13 x)) (rotr 22 x).
Definition Sigma1 (x : Z) : Z := Z.lxor (Z.lxor (rotr 6 x) (rotr 11 x)) (rotr 25 x).
Definition sigma0 (x : Z) : Z := Z.lxor (Z.lxor (rotr 7 x) (rotr 18 x)) (Z.shiftr x 3).
Definition sigma1 (x : Z) : Z := Z.lxor (Z.lxor (rotr 17 x) (rotr 19 x)) (Z.shiftr x 10).

(** The round constants and the initial hash value are defined as the
    standard defines them: the first 32 bits of the fractional parts of
    the cube roots of the first 64 primes, and of the square roots of the
    first 8 primes. *)
Definition is_prime (n : Z) : bool :=
  forallb (fun d => negb (n mod d =? 0)) (seqZ 2 (n - 2)).

Definition primes : list Z := List.filter is_prime (seqZ 2 310).

(** The integer cube root of a number below [2 ^ 108], bit by bit. *)
Definition cube_root (n : Z) : Z :=
  fold_left (fun r b => let r' := r + 2 ^ b in if r' * r' * r' <=? n then r' else r)
    (map (fun i => 35 - Z.of_nat i) (seq 0 36)) 0.

Definition K : list Z := map (fun p => w32 (cube_root (p * 2 ^ 96))) primes.

Definition H0 : list Z := map (fun p => w32 (Z.sqrt (p * 2 ^ 64))) (take 8 primes).

(** The message, a 1 bit, zeros, and the bit length on 8 bytes. *)
Definition pad (msg : list Z) : list Z :=
  let len := Z.of_nat (length msg) in
  let zeros := Z.to_nat ((55 - len) mod 64) in
  msg ++ [128] ++ repeat 0 zeros
      ++ map (fun i => (8 * len / 2 ^ (8 * (7 - Z.of_nat i))) mod 256) (seq 0 8).

Fixpoint words (bytes : list Z) : list Z :=
  match bytes with
  | a :: b :: c :: d :: rest =>
      (((a * 256 + b) * 256 + c) * 256 + d) :: words rest
  | _ => []
  end.

(** The 64-word schedule of a block of 16 words. *)
Fixpoint extend (n : nat) (w : list Z) : list Z :=
  match n with
  | O => w
  | S n' =>
      let t := length w in
      let at_ (i : nat) := nth (t - i) w 0 in
      extend n' (w ++ [add32 (add32 (sigma1 (at_ 2%nat)) (at_ 7%nat))
                             (add32 (sigma0 (at_ 15%nat)) (at_ 16%nat))])
  end.

Definition round (st : list Z) (kw : Z * Z) : list Z :=
  match st with
  | [a; b; c; d; e; f; g; h] =>
      let t1 := add32 (add32 (add32 h (Sigma1 e)) (add32 (Ch e f g) (fst kw))) (snd kw) in
      let t2 := add32 (Sigma0 a) (Maj a b c) in
      [add32 t1 t2; a; b; c; add32 d t1; e; f; g]
  | _ => st
  end.

Definition compress (h : list Z) (block : list Z) : list Z :=
  let w := extend 48 block in
  let st := fold_left round (combine K w) h in
  map (fun p => add32 (fst p) (snd p)) (combine h st).

Fixpoint blocks (n : nat) (ws : list Z) (h : list Z) : list Z :=
  match n with
  | O => h
  | S n' => blocks n' (drop 16 ws) (compress h (take 16 ws))
  end.

Definition digest (msg : list Z) : list Z :=
  let ws := words (pad msg) in
  blocks (length ws / 16) ws H0.

Definition hex_char (d : Z) : N :=
  Z.to_N (if d <? 10 then 48 + d else 87 + d).

Definition hex_word (w : Z) : str :=
  map (fun i => hex_char ((w / 16 ^ (7 - Z.of_nat i)) mod 16)) (seq 0 8).

(** [hashlib.sha256(bytes).hexdigest()]. *)
Definition hexdigest (msg : list Z) : str :=
  concat (map hex_word (digest msg)).

End Sha256.

(** ** Exceptions and the standard output *)

Module Exn.

(** A text the program formats, as its parts in order.  The characters
    the program puts there itself (a literal, a [str] value, the digits
    of an [int]) are kept as they are.  Of a part that the interpreter
    writes (the [repr] of a float, a list or a dict, the text of an
    exception it raised) one thing is kept: it holds no character that
    cannot be encoded, since [repr] escapes what cannot be printed and
    the rest is ASCII. *)
Inductive part :=
| Chars (s : str)
| Written.

Definition text : Type := list part.

(** [t[:n]].  The length of a part the interpreter wrote is not kept, so
    the slice ends with such a part; every text sliced here has it at
    its end, when it has one. *)
Fixpoint slice_text (n : nat) (t : text) : text :=
  match t with
  | [] => []
  | Chars s :: t' => Chars (slice_to n s) :: slice_text (n - length s) t'
  | Written :: _ => [Written]
  end.

(** The exception classes the pipeline can see.  An exception the
    program raises itself carries the text it was given; the text of the
    others is written by the interpreter.  [ValueErrorWith] is a
    [ValueError] raised by the program with a text; [JSONDecodeError],
    [UnicodeEncodeError] and [UnicodeDecodeError] are subclasses of
    [ValueError]; [OSError] stands for whatever [subprocess.run] raises
    when the process cannot be started, [Exception] for any other
    exception of the code outside the sources at hand. *)
Inductive exn :=
| TimeoutError
| ClaudeCodeError (message : text)
| ValueError
| ValueErrorWith (message : text)
| JSONDecodeError
| UnicodeEncodeError
| UnicodeDecodeError
| TypeError
| AttributeError
| KeyError
| OverflowError
| RuntimeError (message : text)
| OSError
| Exception (message : text).

Definition is_ValueError (e : exn) : bool :=
  match e with
  | ValueError | ValueErrorWith _ | JSONDecodeError
  | UnicodeEncodeError | UnicodeDecodeError => true
  | _ => false
  end.

(** [str(e)]. *)
Definition message (e : exn) : text :=
  match e with
  | ClaudeCodeError m | ValueErrorWith m | RuntimeError m | Exception m => m
  | _ => [Written]
  end.

Inductive result (A : Type) :=
| Ok (a : A)
| Raise (e : exn).
Arguments Ok {A} a.
Arguments Raise {A} e.

Definition bind {A B} (r : result A) (k : A -> result B) : result B :=
  match r with
  | Ok a => k a
  | Raise e => Raise e
  end.

(** [str(v)], which is also what a replacement field without a format
    specification puts in an f-string: a [str] as it is, anything else as
    its [repr], which refuses an [int] of more than 4300 digits. *)
Definition str_of (v : value) : result part :=
  match v with
  | VStr s => Ok (Chars s)
  | VNone => Ok (Chars (lit "None"))
  | VBool b => Ok (Chars (lit (if b then "True" else "False")))
  | VInt n =>
      if over_max_str_digits n then Raise ValueError
      else Ok (Chars (str_of_int n))
  | VFloat _ => Ok Written
  | VList _ | VDict _ =>
      if holds_long_int v then Raise ValueError else Ok Written
  end.

Definition encodable (p : part) : bool :=
  match p with
  | Chars s => match Sha256.encode s with Some _ => true | None => false end
  | Written => true
  end.

(** [print(t)]: the text is encoded for the standard output, and a
    character that cannot be encoded is a [UnicodeEncodeError].  A call
    of [print] whose text is made of literals, of numbers the program
    counts or is configured with, of a cache key or of a session
    identifier cannot raise and is not written down in this file. *)
Definition print (t : text) : result unit :=
  if forallb encodable t then Ok tt else Raise UnicodeEncodeError.

(** The marks that open the lines the program prints, with the code
    points the source file holds. *)
Definition mark_warning : str := [8218; 246; 8224; 212; 8719; 232]%N.
Definition mark_cross : str := [8218; 249; 229]%N.
Definition mark_money : str := [63743; 252; 237; 8734]%N.
Definition mark_stopwatch : str := [8218; 232; 177; 212; 8719; 232]%N.
Definition mark_cycle : str := [63743; 252; 238; 209]%N.
Definition mark_chart_up : str := [63743; 252; 236; 224]%N.
Definition mark_chart : str := [63743; 252; 236; 228]%N.
Definition mark_thought : str := [63743; 252; 237; 8800]%N.

End Exn.
Export Exn.

Notation "'let*' x ':=' r 'in' k" := (bind r (fun x => k))
  (at level 10, x name, r at level 100, k at level 200).

(** A literal in which the apostrophe stands for the double quote. *)
Definition quoted (s : string) : str :=
  map (fun c => if (c =? 39)%N then 34%N else c) (lit s).

(** ** The decision validator and the extraction pipeline *)

Module Decision.

(** [d[k]]. *)
Definition dict_item (k : str) (d : dict) : result value :=
  match dict_get k d with
  | Some v => Ok v
  | None => Raise KeyError
  end.

(** [v == s] for a [str] [s]. *)
Definition eq_str (v : value) (s : str) : bool :=
  match v with
  | VStr t => str_eqb t s
  | _ => false
  end.

(** [v in l] for a list [l] of [str]. *)
Definition in_strs (v : value) (l : list str) : bool := existsb (eq_str v) l.

(** [a <= b].  In this program one operand is always a numeric literal,
    so the comparison is defined between numbers and is a [TypeError]
    otherwise. *)
Definition py_le (a b : value) : result bool :=
  match as_float a, as_float b with
  | Some x, Some y => Ok (float_le x y)
  | _, _ => Raise TypeError
  end.

Definition required_fields : list str :=
  [lit "action"; lit "symbol"; lit "amount"; lit "confidence"; lit "reasoning"].

Definition actions : list str := [lit "buy"; lit "sell"; lit "hold"].

Section Universe.

(** [prompts.agent_prompt.all_nasdaq_100_symbols], a list of ticker
    symbols defined outside the sources at hand. *)
Variable all_nasdaq_100_symbols : list str.

Definition _validate_decision (decision : dict) : result bool :=
  (* Check required fields *)
  if negb (forallb (fun field => dict_has field decision) required_fields)
  then Ok false else
  (* Validate action *)
  let* action := dict_item (lit "action") decision in
  if negb (in_strs action actions) then Ok false else
  (* For hold, minimal validation *)
  if eq_str action (lit "hold") then Ok true else
  (* Validate symbol against NASDAQ 100 *)
  let* symbol := dict_item (lit "symbol") decision in
  if negb (in_strs symbol all_nasdaq_100_symbols) then
    let* shown := str_of symbol in
    let* _ := print [Chars (mark_warning ++ lit " Invalid symbol: "); shown;
                     Chars (lit " not in NASDAQ 100")] in
    Ok false
  else
  (* Validate amount *)
  let* amount := dict_item (lit "amount") decision in
  let* bad_amount :=
    (if negb (is_int_or_float amount) then Ok true
     else py_le amount (VInt 0)) in
  if bad_amount then
    let* shown := str_of amount in
    let* _ := print [Chars (mark_warning ++ lit " Invalid amount: "); shown] in
    Ok false
  else
  (* Validate confidence *)
  let confidence := dict_get_default (lit "confidence") (VInt 0) decision in
  let* above := py_le (VFloat zero) confidence in
  let* inside := (if above then py_le confidence (VFloat one) else Ok false) in
  if negb inside then
    let* shown := str_of (dict_get_default (lit "confidence") VNone decision) in
    let* _ := print [Chars (mark_warning ++ lit " Invalid confidence: "); shown] in
    Ok false
  else
  Ok true.

(** [<DECISION>\s*(\{.*?\})\s*</DECISION>] *)
Definition decision_block : Re.regex :=
  Re.Seq (Re.chars (lit "<DECISION>"))
    (Re.Seq (Re.StarG Re.is_space)
       (Re.Seq (Re.Grp (Re.Seq (Re.Chr 123)
                          (Re.Seq (Re.StarL Re.any_char) (Re.Chr 125))))
          (Re.Seq (Re.StarG Re.is_space) (Re.chars (lit "</DECISION>"))))).

(** [```json\s*(\{.*?\})\s*```] *)
Definition fenced_block : Re.regex :=
  Re.Seq (Re.chars (lit "```json"))
    (Re.Seq (Re.StarG Re.is_space)
       (Re.Seq (Re.Grp (Re.Seq (Re.Chr 123)
                          (Re.Seq (Re.StarL Re.any_char) (Re.Chr 125))))
          (Re.Seq (Re.StarG Re.is_space) (Re.chars (lit "```"))))).

(** [\{[^{}]*"action"[^{}]*\}], with the double quotes around action *)
Definition action_object : Re.regex :=
  Re.Seq (Re.Chr 123)
    (Re.Seq (Re.StarG Re.not_brace)
       (Re.Seq (Re.chars (quoted "'action'"))
          (Re.Seq (Re.StarG Re.not_brace) (Re.Chr 125)))).

(** The body of each [try]: decode the candidate and validate it; a
    [json.JSONDecodeError] is swallowed, any other exception is not.  A
    candidate starts with an opening brace, so what [json.loads] returns
    is a [dict] (see [loads_brace_dict]). *)
Definition try_candidate (text : str) : result (option dict) :=
  match Json.loads text with
  | None => if Json.refused text then Raise ValueError else Ok None
  | Some (VDict decision) =>
      let* valid := _validate_decision decision in
      Ok (if valid then Some decision else None)
  | Some _ => Raise TypeError
  end.

(** [match.group(1)] handed to the [try]; no match skips the strategy. *)
Definition try_search (r : Re.regex) (response_text : str) : result (option dict) :=
  match Re.search r response_text with
  | Some (_, Some group1) => try_candidate group1
  | Some (_, None) => Raise TypeError
  | None => Ok None
  end.

(** The loop over [json_objects]. *)
Fixpoint try_objects (json_objects : list str) : result (option dict) :=
  match json_objects with
  | [] => Ok None
  | obj_str :: rest =>
      let* found := try_candidate obj_str in
      match found with
      | Some decision => Ok (Some decision)
      | None => try_objects rest
      end
  end.

Definition default_hold : dict :=
  [(lit "action", VStr (lit "hold"));
   (lit "symbol", VStr []);
   (lit "amount", VInt 0);
   (lit "confidence", VFloat zero);
   (lit "reasoning",
    VStr (lit "Could not parse decision from Claude Code response"))].

Definition _extract_decision (response_text : str) : result dict :=
  (* Strategy 1: Parse <DECISION> XML block *)
  let* tagged := try_search decision_block response_text in
  match tagged with
  | Some decision => Ok decision
  | None =>
      (* Strategy 2: Parse markdown code block with JSON *)
      let* fenced := try_search fenced_block response_text in
      match fenced with
      | Some decision => Ok decision
      | None =>
          (* Strategy 3: Search for any JSON object with an action field *)
          let* loose := try_objects (Re.findall action_object response_text) in
          match loose with
          | Some decision => Ok decision
          | None => Ok default_hold      (* Fallback: Default to hold *)
          end
      end
  end.

End Universe.

End Decision.

(** ** The agent: cache, invocation, retry, session *)

Module Agent.

Import Decision.

(** What a call of [subprocess.run] does.  The command line is taken to
    be one the operating system accepts: the prompts of a session are
    built from a date that was printed and from ASCII text. *)
Inductive run_outcome :=
| TimedOut                                       (* subprocess.TimeoutExpired *)
| Exited (returncode : Z) (stdout stderr : str)
| Undecodable                    (* the output is not text: UnicodeDecodeError *)
| NotStarted.                                    (* an OSError *)

(** A call of [subprocess.run], as made. *)
Record call := { cmd : list str; cwd : str; timeout_s : Z }.

(** A record of the day's [log.jsonl]; timestamps are left out.
    [json.dumps] writes ASCII, with escapes for everything else, so a
    record can be written whatever characters it holds; the directory of
    the day is taken to be one that can be made and written to. *)
Inductive log_entry :=
| LogSystem (content : str)
| LogUser (content : str)
| LogAssistant (content cost_usd : value) (session : option str)
| LogDecision (decision : dict)
| LogError (content : text).

(** The fields of [self] the pipeline reads or writes.  [max_retries]
    and [cli_timeout] are the integers of a configuration, far below the
    4300 digits at which they could not be written; [base_delay] is a
    float, finite so that a pause of [base_delay * attempt] seconds
    ends; [session_id] is [None] or the text of a UUID. *)
Record agent := {
  max_retries : Z;
  base_delay : pyfloat;
  cli_timeout : Z;
  use_cache : bool;
  session_id : option str;
  claude_workspace : str;
  mcp_config_path : str
}.

Definition set_cli_timeout (t : Z) (self : agent) : agent :=
  {| max_retries := max_retries self; base_delay := base_delay self;
     cli_timeout := t; use_cache := use_cache self;
     session_id := session_id self;
     claude_workspace := claude_workspace self;
     mcp_config_path := mcp_config_path self |}.

Definition set_session_id (sid : str) (self : agent) : agent :=
  {| max_retries := max_retries self; base_delay := base_delay self;
     cli_timeout := cli_timeout self; use_cache := use_cache self;
     session_id := Some sid;
     claude_workspace := claude_workspace self;
     mcp_config_path := mcp_config_path self |}.

(** What the pipeline leaves behind: the cache directory (file stem to
    the JSON value the file holds), the subprocess calls made, the
    sleeps taken, the log records appended (with the date of their
    file) and the number of session identifiers drawn. *)
Record world := {
  cache_dir : gmap (list N) value;
  calls : list call;
  sleeps : list pyfloat;
  log_file : list (str * log_entry);
  drawn : nat
}.

Definition set_cache (c : gmap (list N) value) (w : world) : world :=
  {| cache_dir := c; calls := calls w; sleeps := sleeps w;
     log_file := log_file w; drawn := drawn w |}.

Definition add_call (c : call) (w : world) : world :=
  {| cache_dir := cache_dir w; calls := calls w ++ [c]; sleeps := sleeps w;
     log_file := log_file w; drawn := drawn w |}.

Definition add_sleep (d : pyfloat) (w : world) : world :=
  {| cache_dir := cache_dir w; calls := calls w; sleeps := sleeps w ++ [d];
     log_file := log_file w; drawn := drawn w |}.

Definition add_log (date : str) (e : log_entry) (w : world) : world :=
  {| cache_dir := cache_dir w; calls := calls w; sleeps := sleeps w;
     log_file := log_file w ++ [(date, e)]; drawn := drawn w |}.

Definition draw (w : world) : world :=
  {| cache_dir := cache_dir w; calls := calls w; sleeps := sleeps w;
     log_file := log_file w; drawn := S (drawn w) |}.

(** The trading context of a day, each part as the text
    [json.dumps(..., indent=2)] gives for it. *)
Record context := {
  today_positions : str;
  yesterday_sell_prices : str;
  today_buy_prices : str;
  yesterday_profit : str
}.

(** The outside world: what the n-th call of [subprocess.run] does, the
    n-th [uuid.uuid4()], and what the price tools of [tools.price_tools]
    give for a date (or the exception one of them raises). *)
Record outside := {
  run : nat -> run_outcome;
  uuid4 : nat -> str;
  trading_context : str -> result context
}.

Definition nl : str := [10%N].

Definition combined (prompt system_prompt : str) : str :=
  system_prompt ++ nl ++ prompt.

Definition _get_cache_key (prompt system_prompt : str) : result str :=
  match Sha256.encode (combined prompt system_prompt) with
  | Some bytes => Ok (Sha256.hexdigest bytes)
  | None => Raise UnicodeEncodeError
  end.

(** [response.get(k, default)] on what [json.loads] returned. *)
Definition get (response : value) (k : str) (default : value) : result value :=
  match response with
  | VDict d => Ok (dict_get_default k default d)
  | _ => Raise AttributeError
  end.

(** A value in a format field with a float presentation type. *)
Definition format_float (v : value) : result unit :=
  match format_float_spec v with
  | Formatted => Ok tt
  | BadCode => Raise ValueError
  | Unsupported => Raise TypeError
  | TooLarge => Raise OverflowError
  end.

Definition command (self : agent) (sid prompt system_prompt : str) : list str :=
  [lit "claude"; lit "--print";
   lit "--output-format"; lit "json";
   lit "--system-prompt"; system_prompt;
   lit "--mcp-config"; mcp_config_path self;
   lit "--strict-mcp-config";
   lit "--add-dir"; claude_workspace self;
   lit "--session-id"; sid;
   lit "--dangerously-skip-permissions";
   prompt].

Section Invocation.

Variable all_nasdaq_100_symbols : list str.
Variable o : outside.

(** The line that shows cost and performance: the cost is formatted
    with four decimals, the duration and the turns as they are. *)
Definition print_performance (response : value) : result unit :=
  let* cost := get response (lit "total_cost_usd") (VInt 0) in
  let* duration := get response (lit "duration_ms") (VInt 0) in
  let* turns := get response (lit "num_turns") (VInt 0) in
  let* _ := format_float cost in
  let* duration := str_of duration in
  let* turns := str_of turns in
  print [Chars (mark_money ++ lit " Cost: $"); Written;
         Chars (lit " | " ++ mark_stopwatch ++ lit "  Duration: "); duration;
         Chars (lit "ms | " ++ mark_cycle ++ lit " Turns: "); turns].

(** What follows a completed run inside the [try]. *)
Definition on_exit (self : agent) (w : world) (prompt system_prompt : str)
    (returncode : Z) (stdout stderr : str) : world * result value :=
  if negb (returncode =? 0) then
    (w, Raise (ClaudeCodeError
                 [Chars (lit "Claude CLI exited with code " ++ str_of_int returncode
                         ++ nl ++ lit "stderr: " ++ stderr)]))
  else
  (* Parse JSON output; a JSONDecodeError is re-raised as a ValueError *)
  match Json.loads stdout with
  | None =>
      if Json.refused stdout then (w, Raise ValueError)
      else
        (w, Raise (ValueErrorWith
                     [Chars (lit "Invalid JSON response from claude CLI: "); Written;
                      Chars (nl ++ lit "Output: " ++ slice_to 500 stdout)]))
  | Some response =>
      (* Check for error in response *)
      match get response (lit "is_error") VNone with
      | Raise e => (w, Raise e)
      | Ok is_error =>
          if truthy is_error then
            (w, let* result := get response (lit "result") (VStr (lit "Unknown error")) in
                let* reported := str_of result in
                Raise (ClaudeCodeError [Chars (lit "Claude CLI error: "); reported]))
          else
          (* Log cost and performance *)
          match print_performance response with
          | Raise e => (w, Raise e)
          | Ok _ =>
              (* Cache response if enabled *)
              if use_cache self then
                match _get_cache_key prompt system_prompt with
                | Ok cache_key =>
                    (set_cache (<[cache_key := response]> (cache_dir w)) w,
                     Ok response)
                | Raise e => (w, Raise e)
                end
              else (w, Ok response)
          end
      end
  end.

Definition _invoke_claude_cli (self : agent) (w : world)
    (prompt system_prompt : str) (timeout : option Z) : world * result value :=
  let timeout :=
    match timeout with Some t => t | None => cli_timeout self end in
  (* Check cache first *)
  match (if use_cache self then
           let* cache_key := _get_cache_key prompt system_prompt in
           Ok (cache_dir w !! cache_key)
         else Ok None) with
  | Raise e => (w, Raise e)
  | Ok (Some response) => (w, Ok response)
  | Ok None =>
      match session_id self with
      | None => (w, Raise TypeError)             (* self.session_id[:8] *)
      | Some sid =>
          let w1 :=
            add_call {| cmd := command self sid prompt system_prompt;
                        cwd := claude_workspace self;
                        timeout_s := timeout |} w in
          match run o (length (calls w)) with
          | TimedOut => (w1, Raise TimeoutError)
          | NotStarted => (w1, Raise OSError)
          | Undecodable => (w1, Raise UnicodeDecodeError)
          | Exited returncode stdout stderr =>
              on_exit self w1 prompt system_prompt returncode stdout stderr
          end
      end
  end.

Definition timeout_text : str :=
  quoted "<DECISION>{'action': 'hold', 'symbol': '', 'amount': 0, 'confidence': 0.0, 'reasoning': 'Analysis timeout after all retries'}</DECISION>".

Definition json_decode_text : str :=
  quoted "<DECISION>{'action': 'hold', 'symbol': '', 'amount': 0, 'confidence': 0.0, 'reasoning': 'Invalid response format'}</DECISION>".

Definition timeout_envelope : value :=
  VDict
    [(lit "result", VStr timeout_text);
     (lit "is_error", VBool false);
     (lit "error_type", VStr (lit "timeout"))].

Definition json_decode_envelope : value :=
  VDict
    [(lit "result", VStr json_decode_text);
     (lit "is_error", VBool true);
     (lit "error_type", VStr (lit "json_decode"))].

(** The [for attempt in range(1, self.max_retries + 1)] loop, from a
    given attempt on; falling off the loop returns [None].  An exception
    raised inside a handler (by its [print]) leaves the loop. *)
Fixpoint attempts_from (attempts : list Z) (self : agent) (w : world)
    (prompt system_prompt : str) : agent * world * result value :=
  match attempts with
  | [] => (self, w, Ok VNone)
  | attempt :: later =>
      let '(w1, r) :=
        _invoke_claude_cli self w prompt system_prompt (Some (cli_timeout self)) in
      match r with
      | Ok response => (self, w1, Ok response)
      | Raise TimeoutError =>
          if attempt =? max_retries self then
            (* Timeout after all retries - return hold decision *)
            (self, w1, Ok timeout_envelope)
          else
            let w2 := add_sleep (float_mul (base_delay self) (float_of_int attempt)) w1 in
            (* Reduce timeout for next attempt *)
            let self' := set_cli_timeout (Z.max 120 (cli_timeout self / 2)) self in
            attempts_from later self' w2 prompt system_prompt
      | Raise (ClaudeCodeError m) =>
          if attempt =? max_retries self then
            (self, w1,
             Raise (RuntimeError
                      (Chars (lit "Claude CLI failed after "
                              ++ str_of_int (max_retries self) ++ lit " retries: ") :: m)))
          else
            match print (Chars (lit "   Error: ") :: slice_text 200 m) with
            | Raise e => (self, w1, Raise e)
            | Ok _ =>
                let w2 :=
                  add_sleep (float_mul (base_delay self) (float_of_int attempt)) w1 in
                attempts_from later self w2 prompt system_prompt
            end
      | Raise e =>
          if is_ValueError e then
            (* JSON decode error - non-retriable *)
            match print (Chars (mark_cross ++ lit " Invalid JSON response: ")
                           :: message e) with
            | Raise e' => (self, w1, Raise e')
            | Ok _ => (self, w1, Ok json_decode_envelope)
            end
          else (self, w1, Raise e)
      end
  end.

Definition _ainvoke_claude_with_retry (self : agent) (w : world)
    (prompt system_prompt : str) : agent * world * result value :=
  attempts_from (seqZ 1 (max_retries self)) self w prompt system_prompt.

Definition build_system_prompt (today_date : str) (c : context) : str :=
  lit "You are a trading analysis agent for AI-Trader." ++ nl ++ nl
  ++ lit "Today's Date: " ++ today_date ++ nl ++ nl
  ++ lit "Current Positions: " ++ today_positions c ++ nl ++ nl
  ++ lit "Yesterday's Closing Prices: " ++ yesterday_sell_prices c ++ nl ++ nl
  ++ lit "Today's Opening Prices: " ++ today_buy_prices c ++ nl ++ nl
  ++ lit "Yesterday's Profit: " ++ yesterday_profit c ++ nl ++ nl
  ++ lit "Read the CLAUDE.md file in the agent/claude_code_agent/ directory for detailed instructions."
  ++ nl.

Definition build_user_prompt (today_date : str) : str :=
  lit "Analyze today's (" ++ today_date
  ++ lit ") trading opportunity and make a decision." ++ nl ++ nl
  ++ lit "Use your capabilities to:" ++ nl
  ++ lit "1. Review the codebase to understand past trading patterns" ++ nl
  ++ lit "2. Research market conditions for key holdings (if Playwright enabled)" ++ nl
  ++ lit "3. Analyze price trends in the historical data" ++ nl
  ++ lit "4. Make an informed trading decision" ++ nl ++ nl
  ++ lit "**IMPORTANT**: You must output your decision in this exact format:" ++ nl ++ nl
  ++ lit "<DECISION>" ++ nl
  ++ lit "{" ++ nl
  ++ quoted "  'action': 'buy|sell|hold'," ++ nl
  ++ quoted "  'symbol': 'AAPL'," ++ nl
  ++ quoted "  'amount': 10," ++ nl
  ++ quoted "  'confidence': 0.85," ++ nl
  ++ quoted "  'reasoning': 'Brief explanation'" ++ nl
  ++ lit "}" ++ nl
  ++ lit "</DECISION>" ++ nl ++ nl
  ++ lit "Begin your analysis now.".

(** The lines that show the decision: the action in upper case, the
    symbol and the amount unless the action is hold, the confidence as a
    percentage, the reasoning. *)
Definition print_decision (decision : dict) : result unit :=
  let* action := dict_item (lit "action") decision in
  let* shouted := match action with
                  | VStr a => Ok (upper a)
                  | _ => Raise AttributeError
                  end in
  let* _ := print [Chars (nl ++ mark_chart ++ lit " Decision: " ++ shouted)] in
  let* _ :=
    (if eq_str action (lit "hold") then Ok tt
     else
       let* symbol := str_of (dict_get_default (lit "symbol") (VStr []) decision) in
       let* amount := str_of (dict_get_default (lit "amount") (VInt 0) decision) in
       print [Chars (lit " "); symbol; Chars (lit " x"); amount]) in
  let* _ := format_float (dict_get_default (lit "confidence") (VInt 0) decision) in
  let* reasoning :=
    str_of (dict_get_default (lit "reasoning") (VStr (lit "N/A")) decision) in
  print [Chars (mark_thought ++ lit " Reasoning: "); reasoning].

(** The body of the [try] of [run_trading_session]. *)
Definition session_body (self : agent) (w : world) (today_date : str)
    (user_prompt system_prompt : str) : agent * world * result unit :=
  (* Invoke Claude CLI with retry logic *)
  let '(self1, w1, r) := _ainvoke_claude_with_retry self w user_prompt system_prompt in
  match r with
  | Raise e => (self1, w1, Raise e)
  | Ok response =>
      (* Extract response text *)
      match get response (lit "result") (VStr []) with
      | Raise e => (self1, w1, Raise e)
      | Ok response_text =>
          (* Log Claude Code's response *)
          let cost := match get response (lit "total_cost_usd") (VInt 0) with
                      | Ok c => c | Raise _ => VInt 0 end in
          let w2 := add_log today_date
                      (LogAssistant response_text cost (session_id self1)) w1 in
          (* Extract decision; re.search wants a str *)
          match (match response_text with
                 | VStr text => _extract_decision all_nasdaq_100_symbols text
                 | _ => Raise TypeError
                 end) with
          | Raise e => (self1, w2, Raise e)
          | Ok decision =>
              match print_decision decision with
              | Raise e => (self1, w2, Raise e)
              | Ok _ =>
                  (* Log decision *)
                  (self1, add_log today_date (LogDecision decision) w2, Ok tt)
              end
          end
      end
  end.

(** An exception raised by the [print] of a handler takes the place of
    the one handled, and the handler's record is not written. *)
Definition run_trading_session (self : agent) (w : world) (today_date : str)
    : agent * world * result unit :=
  match print [Chars (mark_chart_up
                      ++ lit " Starting ClaudeCodeAgent trading session: "
                      ++ today_date)] with
  | Raise e => (self, w, Raise e)
  | Ok _ =>
  (* Create new session ID for this day *)
  let self := set_session_id (uuid4 o (drawn w)) self in
  let w := draw w in
  (* Get trading context *)
  match trading_context o today_date with
  | Raise e =>
      match print (Chars (mark_cross ++ lit " Error getting trading context: ")
                     :: message e) with
      | Raise e' => (self, w, Raise e')
      | Ok _ =>
          (* Log error and skip this day *)
          (self,
           add_log today_date
             (LogError (Chars (lit "Failed to get trading context: ") :: message e)) w,
           Ok tt)
      end
  | Ok c =>
      let system_prompt := build_system_prompt today_date c in
      let user_prompt := build_user_prompt today_date in
      (* Log initial prompt *)
      let shown :=
        if (500 <? length system_prompt)%nat
        then slice_to 500 system_prompt ++ lit "..."
        else system_prompt in
      let w := add_log today_date (LogSystem shown) w in
      let w := add_log today_date (LogUser user_prompt) w in
      match session_body self w today_date user_prompt system_prompt with
      | (self', w', Raise e) =>
          match print (Chars (mark_cross ++ lit " Trading session error: ")
                         :: message e) with
          | Raise e' => (self', w', Raise e')
          | Ok _ =>
              (self',
               add_log today_date
                 (LogError (Chars (lit "Trading session error: ") :: message e)) w',
               Raise e)
          end
      | (self', w', Ok _) => (self', w', Ok tt)
      end
  end
  end.

End Invocation.

(** The [decision] records of a log. *)
Definition is_decision (e : str * log_entry) : bool :=
  match snd e with LogDecision _ => true | _ => false end.

Definition decisions (l : list (str * log_entry)) : list (str * log_entry) :=
  List.filter is_decision l.

End Agent.

Import Decision Agent.

(** ** The files the constructor sets up *)

Module Setup.

(** What a file holds: the value [json.dump] wrote, or text. *)
Inductive file :=
| JsonFile (v : value)
| TextFile (s : str).

(** [mcp_servers or ['sequential-thinking']] of the constructor. *)
Definition servers_or_default (mcp_servers : option (list str)) : list str :=
  match mcp_servers with
  | Some (server :: more) => server :: more
  | _ => [lit "sequential-thinking"]
  end.


(** [name in self.mcp_servers]. *)
Definition enabled (name : str) (mcp_servers : list str) : bool :=
  existsb (str_eqb name) mcp_servers.

(** An entry that starts a package with [npx -y]. *)
Definition npx (package : str) : value :=
  VDict [(lit "command", VStr (lit "npx"));
         (lit "args", VList [VStr (lit "-y"); VStr package])].

(** The [dict] that [_setup_mcp_config] builds. *)
Definition mcp_config (mcp_servers : list str) : value :=
  let servers : dict := [] in
  (* Sequential Thinking MCP (for deep analysis) *)
  let servers :=
    if enabled (lit "sequential-thinking") mcp_servers
    then dict_set (lit "sequential-thinking")
           (npx (lit "@modelcontextprotocol/server-sequential-thinking")) servers
    else servers in
  (* Context7 MCP (for official docs lookup) *)
  let servers :=
    if enabled (lit "context7") mcp_servers
    then dict_set (lit "context7") (npx (lit "@uptoaichat/mcp-server")) servers
    else servers in
  (* Playwright MCP (for web research) *)
  let servers :=
    if enabled (lit "playwright") mcp_servers
    then dict_set (lit "playwright")
           (npx (lit "@executeautomation/playwright-mcp-server")) servers
    else servers in
  VDict [(lit "mcpServers", VDict servers)].

(** The files are kept by path. *)
Definition _setup_mcp_config (mcp_servers : list str) (mcp_config_path : str)
    (fs : gmap (list N) file) : gmap (list N) file :=
  (* Write MCP config *)
  <[mcp_config_path := JsonFile (mcp_config mcp_servers)]> fs.



(** [BaseStrategy.get_mcp_tools], which no strategy overrides. *)
Definition get_mcp_tools : list str := [lit "sequential-thinking"].

(** [PortfolioNASDAQAgent._get_mcp_config]. *)
Definition _get_mcp_config : value :=
  VDict [(lit "mcpServers",
          VDict [(lit "sequential-thinking",
                  VDict [(lit "command", VStr (lit "npx"));
                         (lit "args",
                          VList [VStr (lit "-y");
                                 VStr (lit "@modelcontextprotocol/server-sequential-thinking")])])])].

End Setup.

(** ** The comparison tool *)

Module Tools.

(** An entry of [data/agent_data]: a directory, with or without the
    file [position/position.jsonl] under it, or something else. *)
Inductive entry :=
| AgentDir (position_file : bool)
| NotDir.


(** [a <= b] on [str]: by code point, a proper prefix first. *)
Fixpoint str_leb (a b : str) : bool :=
  match a, b with
  | [], _ => true
  | _ :: _, [] => false
  | x :: a', y :: b' =>
      if (x <? y)%N then true
      else if (x =? y)%N then str_leb a' b'
      else false
  end.

Definition str_le (a b : str) : Prop := str_leb a b = true.

#[export] Instance str_le_dec : RelDecision str_le :=
  fun a b => decide (str_leb a b = true).



End Tools.

Import Setup Tools.

(** Modelled from the spec: [prompts/agent_prompt.py], which defines
    [all_nasdaq_100_symbols], is not among the sources.  The spec's
    scenarios take AAPL as a member of the universe and ZZZZ as a
    non-member; this three-symbol stand-in is used to run the code on
    concrete inputs, never in a general statement. *)
Definition sample_symbols : list str := [lit "NVDA"; lit "MSFT"; lit "AAPL"].

(** ** Concrete runs used below *)

Definition sample_agent (retries timeout : Z) (cache : bool) : agent :=
  {| max_retries := retries; base_delay := FFin false 1 1; cli_timeout := timeout;
     use_cache := cache; session_id := Some (lit "0f8fad5b-d9cb-469f-a165-70867728950e");
     claude_workspace := lit "/srv/AI-Trader";
     mcp_config_path := lit "/srv/AI-Trader/agent/claude_code_agent/mcp_config.json" |}.

Definition empty_world : world :=
  {| cache_dir := ∅; calls := []; sleeps := []; log_file := []; drawn := 0 |}.

Definition sample_context : context :=
  {| today_positions := quoted "{'CASH': 10000.0}";
     yesterday_sell_prices := quoted "{'AAPL': 250.0}";
     today_buy_prices := quoted "{'AAPL': 251.5}";
     yesterday_profit := quoted "{'AAPL': 0.0}" |}.

(** A world in which every subprocess behaves the same way. *)
Definition always (r : run_outcome) : outside :=
  {| run := fun _ => r;
     uuid4 := fun _ => lit "0f8fad5b-d9cb-469f-a165-70867728950e";
     trading_context := fun _ => Ok sample_context |}.

(** ** Situations the statements speak about *)

(** The call finds nothing in the cache: caching is off, or no file is
    stored under the key of the prompts. *)
Definition cache_miss (self : agent) (w : world) (prompt system_prompt : str) : Prop :=
  use_cache self = false \/
  exists key, _get_cache_key prompt system_prompt = Ok key /\ cache_dir w !! key = None.

(** A run that ends in a [ClaudeCodeError]: a non-zero exit status, or an
    envelope that reports an error. *)
Definition process_error (r : run_outcome) : Prop :=
  match r with
  | Exited returncode stdout _ =>
      returncode <> 0 \/
      exists d, Json.loads stdout = Some (VDict d) /\
                truthy (dict_get_default (lit "is_error") VNone d) = true
  | _ => False
  end.

(** A text that can be encoded in UTF-8: it holds no surrogate.  A text
    decoded from the bytes of a pipe is one. *)
Definition encodes (s : str) : Prop := Sha256.encode s <> None.

(** The line that reports a process error before a retry can be printed:
    the first 200 characters of the error text can be encoded.  The text
    is that of the exit status followed by the standard error, or, after
    the 18 characters of its opening, the result of the envelope; a
    result that is not a [str] is shown in escaped form. *)
Definition error_shown (r : run_outcome) : Prop :=
  match r with
  | Exited returncode stdout stderr =>
      if returncode =? 0 then
        forall d s, Json.loads stdout = Some (VDict d) ->
                    dict_get (lit "result") d = Some (VStr s) ->
                    encodes (slice_to 182 s)
      else
        encodes (slice_to 200 (lit "Claude CLI exited with code "
                               ++ str_of_int returncode ++ nl
                               ++ lit "stderr: " ++ stderr))
  | _ => True
  end.

(** The failures after which the retry controller goes on to the next
    attempt: a timeout, or a process error it can report. *)
Definition retriable (r : run_outcome) : Prop :=
  r = TimedOut \/ (process_error r /\ error_shown r).

(** The call the agent makes for its prompts. *)
Definition call_of (self : agent) (sid prompt system_prompt : str) (t : Z) : call :=
  {| cmd := command self sid prompt system_prompt;
     cwd := claude_workspace self; timeout_s := t |}.

(** A hold decision with no symbol, amount 0 and confidence 0.0. *)
Definition hold_decision (reasoning : str) : dict :=
  [(lit "action", VStr (lit "hold"));
   (lit "symbol", VStr []);
   (lit "amount", VInt 0);
   (lit "confidence", VFloat zero);
   (lit "reasoning", VStr reasoning)].

(** Whether a run timed out. *)
Definition timed_out (r : run_outcome) : bool :=
  match r with TimedOut => true | _ => false end.

(** The timeouts of successive calls under the narrowing rule, the
    first of them being call number [i] of the world: a call uses the
    current timeout, which is then halved with a floor of 120 when that
    call timed out, and kept when it ended in another way. *)
Inductive narrowing (o : outside) : nat -> Z -> list Z -> Prop :=
| narrowing_nil i t : narrowing o i t []
| narrowing_step i t l :
    narrowing o (S i) (if timed_out (run o i) then Z.max 120 (t / 2) else t) l ->
    narrowing o i t (t :: l).

Definition non_increasing (l : list Z) : Prop :=
  forall i a b, l !! i = Some a -> l !! S i = Some b -> b <= a.

(** The calls a run of the retry controller adds to the world. *)
Definition new_calls (before after : world) : list call :=
  drop (length (calls before)) (calls after).

(** A cached response and the key it is stored under, for concrete runs. *)
Definition sample_response : value :=
  VDict [(lit "result", VStr (lit "cached analysis")); (lit "is_error", VBool false)].

Definition sample_key : str :=
  Eval vm_compute in
    match _get_cache_key (lit "user") (lit "system") with
    | Ok key => key
    | Raise _ => []
    end.

Definition cached_world : world :=
  {| cache_dir := {[ sample_key := sample_response ]};
     calls := []; sleeps := []; log_file := []; drawn := 0 |}.

(** The scenario of the spec: a tagged block that asks to buy AAPL. *)
Definition scenario_text : str :=
  quoted "I recommend buying. <DECISION>{'action':'buy','symbol':'AAPL','amount':10,'confidence':0.85,'reasoning':'ok'}</DECISION>".

Definition scenario_decision : dict :=
  Eval vm_compute in
    match Json.loads (quoted "{'action':'buy','symbol':'AAPL','amount':10,'confidence':0.85,'reasoning':'ok'}") with
    | Some (VDict d) => d
    | _ => []
    end.

(** A tagged block whose confidence is a word instead of a number. *)
Definition worded_confidence_text : str :=
  quoted "<DECISION>{'action':'buy','symbol':'AAPL','amount':1,'confidence':'high','reasoning':'strong momentum'}</DECISION>".

(** A decision whose amount is the literal NaN, which [json.loads]
    accepts. *)
Definition nan_amount_text : str :=
  quoted "{'action':'buy','symbol':'AAPL','amount':NaN,'confidence':0.5,'reasoning':'ok'}".

Definition nan_amount_decision : dict :=
  Eval vm_compute in
    match Json.loads nan_amount_text with
    | Some (VDict d) => d
    | _ => []
    end.

(** A world in which the price tools fail. *)
Definition no_prices : outside :=
  {| run := fun _ => TimedOut;
     uuid4 := fun _ => lit "0f8fad5b-d9cb-469f-a165-70867728950e";
     trading_context := fun _ => Raise KeyError |}.

(** A parser stays within its budget on a text when it does not run out
    of it and leaves no more text than it was given. *)
Definition within_budget (f : str -> Json.parsed value) (s : str) : Prop :=
  f s <> Json.Starved /\
  forall v r, f s = Json.Parsed v r -> (length r <= length s)%nat.

(** No value of a dict holds an [int] that could not be written. *)
Definition short_items (d : dict) : Prop :=
  existsb (fun kv => holds_long_int (snd kv)) d = false.

(** Whether a pattern contains the capturing group. *)
Fixpoint has_group (r : Re.regex) : bool :=
  match r with
  | Re.Grp _ => true
  | Re.Seq r1 r2 => has_group r1 || has_group r2
  | _ => false
  end.

(** A number (an [int], a [bool] or a [float]) above zero. *)
Definition positive_number (v : value) : Prop :=
  exists f, as_float v = Some f /\ float_compare zero f = Some Lt.

(** A number between 0.0 and 1.0, bounds included. *)
Definition in_unit_interval (v : value) : Prop :=
  exists f, as_float v = Some f /\
            (float_compare zero f = Some Lt \/ float_compare zero f = Some Eq) /\
            (float_compare f one = Some Lt \/ float_compare f one = Some Eq).

(** The conditions the spec puts on a decision. *)
Definition acceptable (U : list str) (d : dict) : Prop :=
  (forall f, f ∈ required_fields -> is_Some (dict_get f d)) /\
  exists a, dict_get (lit "action") d = Some (VStr a) /\ a ∈ actions /\
    (a <> lit "hold" ->
     (exists symbol, dict_get (lit "symbol") d = Some (VStr symbol) /\ symbol ∈ U) /\
     (exists amount, dict_get (lit "amount") d = Some amount /\ positive_number amount) /\
     (exists c, dict_get (lit "confidence") d = Some c /\ in_unit_interval c)).

(** ** Further situations *)

(** The exception that showing a value in a printed line raises, if
    any: the [UnicodeEncodeError] of a [str] that cannot be encoded, or
    the [ValueError] of an [int] that cannot be written, alone or inside
    a list or a dict. *)
Definition refusal (v : value) : option exn :=
  match v with
  | VStr s =>
      match Sha256.encode s with
      | Some _ => None
      | None => Some UnicodeEncodeError
      end
  | _ => if holds_long_int v then Some ValueError else None
  end.

(** The decisions on which the validator goes past the check of the
    action: the five fields are there and the action is buy or sell. *)
Definition trading (d : dict) : Prop :=
  (forall f, f ∈ required_fields -> is_Some (dict_get f d)) /\
  exists a, dict_get (lit "action") d = Some (VStr a) /\
            (a = lit "buy" \/ a = lit "sell").

(** The symbol is in the universe. *)
Definition known_symbol (U : list str) (d : dict) : Prop :=
  exists symbol, dict_get (lit "symbol") d = Some (VStr symbol) /\ symbol ∈ U.

(** The amount passes its check: it is a number that is not below or
    equal to zero (which a NaN is not). *)
Definition passing_amount (d : dict) : Prop :=
  exists amount f, dict_get (lit "amount") d = Some amount /\
                   as_float amount = Some f /\ float_le f zero = false.

(** A number that is not between 0.0 and 1.0. *)
Definition out_of_range (v : value) : Prop :=
  exists f, as_float v = Some f /\ (float_le zero f = false \/ float_le f one = false).

(** The texts the three strategies hand to [json.loads]: the group of
    the first match of the tagged pattern, the group of the first match
    of the fenced pattern, the matches of the loose pattern. *)
Definition candidate (text c : str) : Prop :=
  (exists whole, Re.search decision_block text = Some (whole, Some c)) \/
  (exists whole, Re.search fenced_block text = Some (whole, Some c)) \/
  c ∈ Re.findall action_object text.

(** A response that carries a tagged block: some text without an
    opening angle bracket, the opening tag, a flat JSON object (no
    closing brace before its last character) with white space around
    it, the closing tag, and any text after. *)
Definition tagged_response (before ws1 body ws2 after : str) : str :=
  before ++ lit "<DECISION>" ++ ws1 ++ [123%N] ++ body ++ [125%N] ++ ws2
    ++ lit "</DECISION>" ++ after.

(** A decision to buy a symbol outside the universe. *)
Definition foreign_decision : dict :=
  Eval vm_compute in
    match Json.loads (quoted "{'action':'buy','symbol':'ZZZZ','amount':10,'confidence':0.85,'reasoning':'ok'}") with
    | Some (VDict d) => d
    | _ => []
    end.

(** The output of a run that is accepted: the envelope of
    [sample_response]. *)
Definition sample_stdout : str :=
  quoted "{'result': 'cached analysis', 'is_error': false}".

(** A surrogate code point, which a Python [str] can hold and UTF-8
    cannot encode. *)
Definition surrogate (c : N) : Prop := (55296 <= c <= 57343)%N.

(** A lowercase hexadecimal digit. *)
Definition hex_digit (c : N) : Prop := (48 <= c <= 57)%N \/ (97 <= c <= 102)%N.

(** A run the invocation manager accepts: the process exits with status
    0 and prints a JSON object whose [is_error] is not true, whose cost
    can be shown with four decimals, and whose duration and number of
    turns, when they are strings, can be encoded. *)
Definition answers (r : run_outcome) (response : value) : Prop :=
  exists stdout stderr d,
    r = Exited 0 stdout stderr /\
    Json.loads stdout = Some (VDict d) /\ response = VDict d /\
    truthy (dict_get_default (lit "is_error") VNone d) = false /\
    format_float (dict_get_default (lit "total_cost_usd") (VInt 0) d) = Ok tt /\
    (forall s, dict_get (lit "duration_ms") d = Some (VStr s) -> encodes s) /\
    (forall s, dict_get (lit "num_turns") d = Some (VStr s) -> encodes s).

(** The timeout after one narrowing. *)
Definition narrowed (t : Z) : Z := Z.max 120 (t / 2).

(** The pauses before the attempts that follow attempts [k .. k+n-1]:
    the products [base_delay * attempt], as floats. *)
Definition backoff (self : agent) (k : Z) (n : nat) : list pyfloat :=
  map (fun attempt => float_mul (base_delay self) (float_of_int attempt))
      (seqZ k (Z.of_nat n)).

(** An engine that times out [n] times and then prints [stdout]. *)
Definition recovering (n : nat) (stdout : str) : outside :=
  {| run := fun i => if (i <? n)%nat then TimedOut else Exited 0 stdout [];
     uuid4 := fun _ => lit "0f8fad5b-d9cb-469f-a165-70867728950e";
     trading_context := fun _ => Ok sample_context |}.

(** A run that cannot be read, which ends in a [ValueError]: output
    that is not text; text that is not JSON; an accepted envelope whose
    cost is a string; an accepted envelope whose cost can be formatted
    and whose duration or number of turns is a string that cannot be
    encoded. *)
Definition unreadable (r : run_outcome) : Prop :=
  r = Undecodable \/
  exists stdout stderr,
    r = Exited 0 stdout stderr /\
    ((Json.loads stdout = None /\ encodes stdout) \/
     exists d,
       Json.loads stdout = Some (VDict d) /\
       truthy (dict_get_default (lit "is_error") VNone d) = false /\
       ((exists cost, dict_get (lit "total_cost_usd") d = Some (VStr cost)) \/
        (format_float (dict_get_default (lit "total_cost_usd") (VInt 0) d) = Ok tt /\
         exists s, (dict_get (lit "duration_ms") d = Some (VStr s) \/
                    dict_get (lit "num_turns") d = Some (VStr s)) /\
                   ~ encodes s))).

(** An envelope whose cost is a string. *)
Definition worded_cost_stdout : str :=
  quoted "{'result': 'analysis', 'is_error': false, 'total_cost_usd': '0.12'}".

(** The agent and the world in which the body of a session starts: the
    session identifier is drawn and the two prompts are logged, the
    system prompt cut to 500 characters and an ellipsis when it is
    longer. *)
Definition session_agent (o : outside) (self : agent) (w : world) : agent :=
  set_session_id (uuid4 o (drawn w)) self.

Definition logged_prompt (system_prompt : str) : str :=
  if (500 <? length system_prompt)%nat
  then slice_to 500 system_prompt ++ lit "..."
  else system_prompt.

Definition session_world (w : world) (date : str) (c : context) : world :=
  add_log date (LogUser (build_user_prompt date))
    (add_log date (LogSystem (logged_prompt (build_system_prompt date c))) (draw w)).

(** A decision the session can show: the symbol and the amount (unless
    the action is hold) and the reasoning can be shown, and the
    confidence can be formatted as a percentage. *)
Definition showable (d : dict) : Prop :=
  (dict_get (lit "action") d <> Some (VStr (lit "hold")) ->
   refusal (dict_get_default (lit "symbol") (VStr []) d) = None /\
   refusal (dict_get_default (lit "amount") (VInt 0) d) = None) /\
  format_float (dict_get_default (lit "confidence") (VInt 0) d) = Ok tt /\
  refusal (dict_get_default (lit "reasoning") (VStr (lit "N/A")) d) = None.

(** The decisions a session adds to the log. *)
Definition decided (U : list str) (o : outside) (self : agent) (w : world)
    (date : str) : list (str * log_entry) :=
  decisions (drop (length (log_file w))
               (log_file (run_trading_session U o self w date).1.2)).

(** A text that can be printed: each of its parts can be encoded. *)
Definition printable (t : text) : Prop := forallb encodable t = true.




(** An envelope whose answer is a hold with a worded confidence. *)
Definition worded_hold_stdout : str :=
  quoted "{'result': '<DECISION>{\'action\':\'hold\',\'symbol\':\'\',\'amount\':0,\'confidence\':\'low\',\'reasoning\':\'wait\'}</DECISION>', 'is_error': false}".

(** The servers [_setup_mcp_config] knows. *)
Definition known_servers : list str :=
  [lit "sequential-thinking"; lit "context7"; lit "playwright"].

(** The servers of a configuration, as the engine reads them. *)
Definition configured (config : value) : dict :=
  match config with
  | VDict d =>
      match dict_get (lit "mcpServers") d with
      | Some (VDict servers) => servers
      | _ => []
      end
  | _ => []
  end.

(** ** Facts about text *)

Lemma str_eqb_eq a b : str_eqb a b = true <-> a = b.
Proof. unfold str_eqb. apply bool_decide_eq_true. Qed.

Lemma str_eqb_refl a : str_eqb a a = true.
Proof. now apply str_eqb_eq. Qed.

(** ** Facts about [json.loads] *)

Section JsonFacts.

Import Json.

Lemma skip_ws_length s : (length (skip_ws s) <= length s)%nat.
Proof.
  induction s as [|c s IH]; simpl; [lia|].
  destruct (is_ws c); simpl; lia.
Qed.

Lemma push_inv c r body rest :
  push c r = Some (body, rest) -> exists body', r = Some (body', rest).
Proof.
  destruct r as [[b r']|]; simpl; [|discriminate].
  intros H. inversion H; subst. eauto.
Qed.

Lemma scanstring_length : forall n s body rest,
  (length s <= n)%nat -> scanstring s = Some (body, rest) ->
  (length rest < length s)%nat.
Proof.
  induction n as [|n IH]; intros s body rest Hn H.
  - destruct s; [discriminate | simpl in Hn; lia].
  - destruct s as [|c s1]; [discriminate|].
    cbn [scanstring] in H.
    destruct (c =? 34)%N.
    { inversion H; subst. simpl. lia. }
    destruct (c =? 92)%N.
    2:{ destruct (c <? 32)%N; [discriminate|].
        apply push_inv in H as (b & H). apply IH in H; simpl in *; lia. }
    destruct s1 as [|e s2]; [discriminate|].
    destruct (e =? 117)%N.
    2:{ destruct (simple_escape e); [|discriminate].
        apply push_inv in H as (b & H). apply IH in H; simpl in *; lia. }
    destruct s2 as [|a [|b [|c' [|d s6]]]]; try discriminate.
    destruct (hex4 a b c' d) as [cp|]; [|discriminate].
    assert (Hlone : forall body rest, push cp (scanstring s6) = Some (body, rest) ->
                      (length rest < length (c :: e :: a :: b :: c' :: d :: s6))%nat).
    { intros body0 rest0 H0. apply push_inv in H0 as (b0 & H0).
      apply IH in H0; simpl in *; lia. }
    cbv zeta in H.
    destruct (is_high_surrogate cp); [|eapply Hlone; eassumption].
    destruct s6 as [|bs [|u [|a2 [|b2 [|c2 [|d2 s12]]]]]]; try (eapply Hlone; eassumption).
    destruct ((bs =? 92) && (u =? 117))%N; [|eapply Hlone; eassumption].
    destruct (hex4 a2 b2 c2 d2) as [lo|]; [|discriminate].
    destruct (is_low_surrogate lo); [|eapply Hlone; eassumption].
    apply push_inv in H as (b0 & H). apply IH in H; simpl in *; lia.
Qed.

Lemma digits_length s ds rest :
  digits s = (ds, rest) -> (length rest <= length s)%nat.
Proof.
  revert ds rest. induction s as [|c s IH]; intros ds rest H; simpl in H.
  - inversion H; subst. simpl. lia.
  - destruct (is_digit c).
    + destruct (digits s) as [ds' r'] eqn:Hd. inversion H; subst.
      specialize (IH _ _ eq_refl). simpl. lia.
    + inversion H; subst. lia.
Qed.

Lemma prefix_length p : forall s rest,
  prefix p s = Some rest -> (length rest <= length s)%nat.
Proof.
  induction p as [|a p IH]; intros s rest H; simpl in H.
  - inversion H; subst. lia.
  - destruct s as [|b s]; [discriminate|].
    destruct (a =? b)%N; [|discriminate]. apply IH in H. simpl. lia.
Qed.

Lemma scan_constant_length s v rest :
  scan_constant s = Some (v, rest) -> (length rest <= length s)%nat.
Proof.
  unfold scan_constant. intros H.
  repeat match type of H with
         | match prefix ?p s with _ => _ end = _ =>
             let Hp := fresh "Hp" in
             destruct (prefix p s) eqn:Hp;
             [inversion H; subst; now apply prefix_length in Hp|]
         end.
  discriminate.
Qed.

Lemma scan_number_length s v rest :
  scan_number s = Parsed v rest -> (length rest <= length s)%nat.
Proof.
  unfold scan_number. intros H.
  destruct (match s with
            | [] => (false, s)
            | c :: s' => if (c =? 45)%N then (true, s') else (false, s)
            end) as [neg s1] eqn:Hsign.
  assert (H1 : (length s1 <= length s)%nat).
  { destruct s as [|c s']; [now inversion Hsign|].
    destruct (c =? 45)%N; inversion Hsign; subst; simpl; lia. }
  destruct (match s1 with
            | [] => None
            | c :: s' => _
            end) as [[ip s2]|] eqn:Hint; [|discriminate].
  assert (H2 : (length s2 <= length s1)%nat).
  { destruct s1 as [|c s']; [discriminate|].
    destruct (c =? 48)%N; [inversion Hint; subst; simpl; lia|].
    destruct (is_digit c); [|discriminate].
    remember (digits (c :: s')) as p eqn:Hd in Hint. destruct p as [ds r].
    inversion Hint; subst. symmetry in Hd. now apply digits_length in Hd. }
  destruct (match s2 with
            | dot :: d :: _ => _
            | _ => (None, s2)
            end) as [frac s3] eqn:Hfrac.
  assert (H3 : (length s3 <= length s2)%nat).
  { destruct s2 as [|dot [|d s']]; try (inversion Hfrac; subst; lia).
    destruct ((dot =? 46)%N && is_digit d); [|inversion Hfrac; subst; lia].
    destruct (digits (tl (dot :: d :: s'))) as [fs r] eqn:Hd.
    inversion Hfrac; subst. apply digits_length in Hd. simpl in *. lia. }
  destruct (match s3 with
            | [] => (None, s3)
            | e :: s' => _
            end) as [ex s4] eqn:Hex.
  assert (H4 : (length s4 <= length s3)%nat).
  { destruct s3 as [|e s']; [inversion Hex; subst; lia|].
    destruct ((e =? 101) || (e =? 69))%N; [|inversion Hex; subst; lia].
    destruct (match s' with
              | [] => (false, s')
              | sg :: t => _
              end) as [eneg s''] eqn:Hsg.
    assert (Hs : (length s'' <= length s')%nat).
    { destruct s' as [|sg t]; [inversion Hsg; subst; lia|].
      destruct (sg =? 45)%N; [inversion Hsg; subst; simpl; lia|].
      destruct (sg =? 43)%N; inversion Hsg; subst; simpl; lia. }
    destruct (digits s'') as [[|x es] r] eqn:Hd.
    - inversion Hex; subst. lia.
    - inversion Hex; subst. apply digits_length in Hd. simpl in *. lia. }
  destruct frac, ex; try (inversion H; subst; lia).
  destruct (max_str_digits <? Z.of_nat (length ip)); inversion H; subst; lia.
Qed.

Lemma scan_budget fuel :
  (forall s, (2 * length s < fuel)%nat -> within_budget (scan_once fuel) s) /\
  (forall s acc, (2 * length s + 1 < fuel)%nat ->
                 within_budget (fun s => members fuel s acc) s) /\
  (forall s acc, (2 * length s + 1 < fuel)%nat ->
                 within_budget (fun s => elements fuel s acc) s).
Proof.
  induction fuel as [|fuel (IHs & IHm & IHe)].
  { repeat split; intros; lia. }
  split; [|split].
  - (* scan_once *)
    intros s Hs. unfold within_budget. cbn [scan_once].
    destruct s as [|c s1]; [split; [discriminate | discriminate]|].
    simpl in Hs.
    destruct (c =? 34)%N.
    { destruct (scanstring s1) as [[body rest]|] eqn:Hstr;
        (split; [discriminate|]); [|discriminate].
      intros v r H. inversion H; subst.
      apply (scanstring_length _ _ _ _ (le_n _)) in Hstr. simpl. lia. }
    destruct (c =? 123)%N.
    { pose proof (skip_ws_length s1) as Hw.
      destruct (skip_ws s1) as [|c2 s3]; [split; discriminate|].
      destruct (c2 =? 125)%N.
      - split; [discriminate|]. intros v r H. inversion H; subst.
        simpl in *. lia.
      - destruct (IHm (c2 :: s3) []) as [Hne Hle]; [simpl in *; lia|].
        split; [exact Hne|]. intros v r H. apply Hle in H. simpl in *. lia. }
    destruct (c =? 91)%N.
    { pose proof (skip_ws_length s1) as Hw.
      destruct (skip_ws s1) as [|c2 s3]; [split; discriminate|].
      destruct (c2 =? 93)%N.
      - split; [discriminate|]. intros v r H. inversion H; subst.
        simpl in *. lia.
      - destruct (IHe (c2 :: s3) []) as [Hne Hle]; [simpl in *; lia|].
        split; [exact Hne|]. intros v r H. apply Hle in H. simpl in *. lia. }
    destruct (scan_constant (c :: s1)) as [[v0 r0]|] eqn:Hc.
    { split; [discriminate|]. intros v r H. inversion H; subst.
      now apply scan_constant_length in Hc. }
    destruct (scan_number (c :: s1)) as [v0 r0| | |] eqn:Hn;
      [|split; discriminate|split; discriminate|].
    { split; [discriminate|]. intros v r H. inversion H; subst.
      now apply scan_number_length in Hn. }
    exfalso. revert Hn. unfold scan_number.
    repeat match goal with
           | |- context [match ?x with _ => _ end] => destruct x
           end; discriminate.
  - (* members *)
    intros s acc Hs. unfold within_budget. cbn [members].
    destruct s as [|q s1]; [split; discriminate|]. simpl in Hs.
    destruct (q =? 34)%N; [|split; discriminate].
    destruct (scanstring s1) as [[key s2]|] eqn:Hstr; [|split; discriminate].
    apply (scanstring_length _ _ _ _ (le_n _)) in Hstr.
    pose proof (skip_ws_length s2) as Hw2.
    destruct (skip_ws s2) as [|colon s3]; [split; discriminate|].
    destruct (colon =? 58)%N; [|split; discriminate].
    pose proof (skip_ws_length s3) as Hw3.
    destruct (IHs (skip_ws s3)) as [Hne Hle]; [simpl in *; lia|].
    destruct (scan_once fuel (skip_ws s3)) as [v s4| | |];
      [|split; discriminate|split; discriminate|congruence].
    specialize (Hle _ _ eq_refl).
    pose proof (skip_ws_length s4) as Hw4.
    destruct (skip_ws s4) as [|c s5]; [split; discriminate|].
    destruct (c =? 125)%N.
    { split; [discriminate|]. intros v' r H. inversion H; subst. simpl in *. lia. }
    destruct (c =? 44)%N; [|split; discriminate].
    pose proof (skip_ws_length s5) as Hw5.
    destruct (IHm (skip_ws s5) (dict_set key v acc)) as [Hne' Hle']; [simpl in *; lia|].
    split; [exact Hne'|]. intros v' r H. apply Hle' in H. simpl in *. lia.
  - (* elements *)
    intros s acc Hs. unfold within_budget. cbn [elements].
    destruct (IHs s) as [Hne Hle]; [lia|].
    destruct (scan_once fuel s) as [v s1| | |];
      [|split; discriminate|split; discriminate|congruence].
    specialize (Hle _ _ eq_refl).
    pose proof (skip_ws_length s1) as Hw1.
    destruct (skip_ws s1) as [|c s2]; [split; discriminate|].
    destruct (c =? 93)%N.
    { split; [discriminate|]. intros v' r H. inversion H; subst. simpl in *. lia. }
    destruct (c =? 44)%N; [|split; discriminate].
    pose proof (skip_ws_length s2) as Hw2.
    destruct (IHe (skip_ws s2) (acc ++ [v])) as [Hne' Hle']; [simpl in *; lia|].
    split; [exact Hne'|]. intros v' r H. apply Hle' in H. simpl in *. lia.
Qed.

(** The budget of [Json.loads] is never exhausted. *)
Lemma loads_budget s : loads_fuel (S (2 * length s)) s <> Starved.
Proof.
  unfold loads_fuel.
  assert (H : scan_once (S (2 * length s)) (skip_ws s) <> Starved).
  { apply scan_budget. pose proof (skip_ws_length s). lia. }
  destruct s as [|c s']; [simpl; discriminate|].
  destruct (scan_once _ (skip_ws (c :: s'))) as [v rest| | |]; [| | |congruence].
  - destruct c as [|p]; [destruct (skip_ws rest); discriminate|].
    repeat (destruct p as [p|p|]; try (destruct (skip_ws rest); discriminate)).
  - destruct c as [|p]; [discriminate|].
    repeat (destruct p as [p|p|]; try discriminate).
  - destruct c as [|p]; [discriminate|].
    repeat (destruct p as [p|p|]; try discriminate).
Qed.

Lemma digits_are_digits s ds rest :
  digits s = (ds, rest) -> forallb is_digit ds = true.
Proof.
  revert ds rest. induction s as [|c s IH]; intros ds rest H; simpl in H.
  - inversion H; subst. reflexivity.
  - destruct (is_digit c) eqn:Hc.
    + destruct (digits s) as [ds' r'] eqn:Hd. inversion H; subst.
      simpl. rewrite Hc. exact (IH _ _ eq_refl).
    + inversion H; subst. reflexivity.
Qed.

Lemma decimal_bound ds :
  forallb is_digit ds = true -> 0 <= decimal ds < 10 ^ Z.of_nat (length ds).
Proof.
  unfold decimal.
  assert (H : forall acc k, 0 <= acc < 10 ^ k -> 0 <= k ->
            forallb is_digit ds = true ->
            0 <= fold_left (fun acc c => 10 * acc + (Z.of_N c - 48)) ds acc
              < 10 ^ (k + Z.of_nat (length ds))).
  { induction ds as [|c ds IH]; intros acc k Hacc Hk Hd; cbn [fold_left forallb length] in *.
    - rewrite Z.add_0_r. exact Hacc.
    - apply andb_prop in Hd as [Hc Hd].
      unfold is_digit in Hc. apply andb_prop in Hc as [H1 H2].
      apply N.leb_le in H1, H2.
      replace (k + Z.of_nat (S (length ds)))
        with ((k + 1) + Z.of_nat (length ds)) by lia.
      apply IH; [|lia|exact Hd].
      rewrite Z.pow_add_r by lia. change (10 ^ 1) with 10. lia. }
  intros Hd. apply (H 0 0); [simpl; lia|lia|exact Hd].
Qed.

Lemma short_literal_fits ds neg :
  forallb is_digit ds = true ->
  (max_str_digits <? Z.of_nat (length ds)) = false ->
  over_max_str_digits (if neg : bool then - decimal ds else decimal ds) = false.
Proof.
  intros Hd Hlen. apply Z.ltb_ge in Hlen.
  pose proof (decimal_bound ds Hd) as Hb.
  unfold over_max_str_digits. apply Z.leb_gt.
  assert (10 ^ Z.of_nat (length ds) <= 10 ^ max_str_digits)
    by (apply Z.pow_le_mono_r; lia).
  destruct neg; lia.
Qed.

Lemma scan_number_short s v rest :
  scan_number s = Parsed v rest -> holds_long_int v = false.
Proof.
  unfold scan_number. intros H.
  destruct (match s with
            | [] => (false, s)
            | c :: s' => if (c =? 45)%N then (true, s') else (false, s)
            end) as [neg s1].
  destruct (match s1 with
            | [] => None
            | c :: s' => _
            end) as [[ip s2]|] eqn:Hint; [|discriminate].
  assert (Hip : forallb is_digit ip = true).
  { destruct s1 as [|c s']; [discriminate|].
    destruct (c =? 48)%N eqn:Hc.
    - inversion Hint; subst. apply N.eqb_eq in Hc. subst. reflexivity.
    - destruct (is_digit c); [|discriminate].
      remember (digits (c :: s')) as p eqn:Hd in Hint. destruct p as [ds r].
      inversion Hint; subst. symmetry in Hd. now apply digits_are_digits in Hd. }
  destruct (match s2 with
            | dot :: d :: _ => _
            | _ => (None, s2)
            end) as [frac s3].
  destruct (match s3 with
            | [] => (None, s3)
            | e :: s' => _
            end) as [ex s4].
  destruct frac, ex; try (inversion H; subst; reflexivity).
  destruct (max_str_digits <? Z.of_nat (length ip)) eqn:Hlen; [discriminate|].
  inversion H; subst. cbn [holds_long_int].
  now apply short_literal_fits.
Qed.

Lemma scan_constant_short s v rest :
  scan_constant s = Some (v, rest) -> holds_long_int v = false.
Proof.
  unfold scan_constant. intros H.
  repeat match type of H with
         | match prefix ?p s with _ => _ end = _ =>
             destruct (prefix p s); [inversion H; subst; reflexivity|]
         end.
  discriminate.
Qed.

Lemma dict_set_short k v d :
  holds_long_int v = false -> short_items d -> short_items (dict_set k v d).
Proof.
  unfold short_items. intros Hv. induction d as [|[k' v'] d IH]; simpl.
  - now rewrite Hv.
  - intros H. apply orb_false_elim in H as [H1 H2].
    destruct (str_eqb k' k); simpl.
    + now rewrite Hv, H2.
    + now rewrite H1, IH.
Qed.

Lemma scan_short fuel :
  (forall s v r, scan_once fuel s = Parsed v r -> holds_long_int v = false) /\
  (forall s acc v r, short_items acc ->
     members fuel s acc = Parsed v r -> holds_long_int v = false) /\
  (forall s acc v r, existsb holds_long_int acc = false ->
     elements fuel s acc = Parsed v r -> holds_long_int v = false).
Proof.
  induction fuel as [|fuel (IHs & IHm & IHe)].
  { repeat split; intros; discriminate. }
  split; [|split].
  - intros s v r H. cbn [scan_once] in H.
    destruct s as [|c s1]; [discriminate|].
    destruct (c =? 34)%N.
    { destruct (scanstring s1) as [[body rest]|]; inversion H; subst. reflexivity. }
    destruct (c =? 123)%N.
    { destruct (skip_ws s1) as [|c2 s3]; [discriminate|].
      destruct (c2 =? 125)%N; [inversion H; subst; reflexivity|].
      eapply IHm; [|exact H]. reflexivity. }
    destruct (c =? 91)%N.
    { destruct (skip_ws s1) as [|c2 s3]; [discriminate|].
      destruct (c2 =? 93)%N; [inversion H; subst; reflexivity|].
      eapply IHe; [|exact H]. reflexivity. }
    destruct (scan_constant (c :: s1)) as [[v0 r0]|] eqn:Hc.
    { inversion H; subst. now apply scan_constant_short in Hc. }
    now apply scan_number_short in H.
  - intros s acc v r Hacc H. cbn [members] in H.
    destruct s as [|q s1]; [discriminate|].
    destruct (q =? 34)%N; [|discriminate].
    destruct (scanstring s1) as [[key s2]|]; [|discriminate].
    destruct (skip_ws s2) as [|colon s3]; [discriminate|].
    destruct (colon =? 58)%N; [|discriminate].
    destruct (scan_once fuel (skip_ws s3)) as [v0 s4| | |] eqn:Hv; try discriminate.
    apply IHs in Hv.
    pose proof (dict_set_short key v0 acc Hv Hacc) as Hacc'.
    destruct (skip_ws s4) as [|c s5]; [discriminate|].
    destruct (c =? 125)%N; [inversion H; subst; exact Hacc'|].
    destruct (c =? 44)%N; [|discriminate].
    eapply IHm; [exact Hacc'|exact H].
  - intros s acc v r Hacc H. cbn [elements] in H.
    destruct (scan_once fuel s) as [v0 s1| | |] eqn:Hv; try discriminate.
    apply IHs in Hv.
    assert (Hacc' : existsb holds_long_int (acc ++ [v0]) = false).
    { rewrite existsb_app, Hacc. simpl. now rewrite Hv. }
    destruct (skip_ws s1) as [|c s2]; [discriminate|].
    destruct (c =? 93)%N; [inversion H; subst; exact Hacc'|].
    destruct (c =? 44)%N; [|discriminate].
    eapply IHe; [exact Hacc'|exact H].
Qed.

(** What [json.loads] returns holds no [int] that could not be written. *)
Lemma loads_short s v : loads s = Some v -> holds_long_int v = false.
Proof.
  unfold loads, loads_fuel. intros H.
  assert (Hs : forall v r, scan_once (S (2 * length s)) (skip_ws s) = Parsed v r ->
                 holds_long_int v = false) by apply scan_short.
  destruct (scan_once (S (2 * length s)) (skip_ws s)) as [v0 rest| | |] eqn:Hv.
  - specialize (Hs _ _ eq_refl).
    assert (Hcase : match skip_ws rest with
                    | [] => Parsed v0 []
                    | _ :: _ => Malformed
                    end = Parsed v [] \/ (Malformed : parsed value) = Parsed v []).
    { destruct s as [|[|p] s']; [left|left|].
      - destruct (skip_ws rest); [|discriminate]. now inversion H.
      - destruct (skip_ws rest); [|discriminate]. now inversion H.
      - revert H.
        repeat (destruct p as [p|p|];
                try (intros H; left; destruct (skip_ws rest);
                     [now inversion H|discriminate])). }
    destruct Hcase as [Hc|Hc]; [|discriminate].
    destruct (skip_ws rest); [|discriminate]. inversion Hc; subst. exact Hs.
  - exfalso. destruct s as [|[|p] s']; try discriminate.
    revert H. repeat (destruct p as [p|p|]; try discriminate).
  - exfalso. destruct s as [|[|p] s']; try discriminate.
    revert H. repeat (destruct p as [p|p|]; try discriminate).
  - exfalso. destruct s as [|[|p] s']; try discriminate.
    revert H. repeat (destruct p as [p|p|]; try discriminate).
Qed.

End JsonFacts.

(** ** Facts about the patterns *)

Section PatternFacts.

Import Re Json.

Lemma star_greedy_inv p g k res : forall s,
  re_match (StarG p) s g k = Some res ->
  exists s', k s' g = Some res /\ (length s' <= length s)%nat.
Proof.
  induction s as [|x s IH]; intros H.
  - exists []. split; [exact H | lia].
  - cbn [re_match] in H. destruct (p x).
    + destruct ((fix more (s : str) : option found := _) s) as [m|] eqn:Hm.
      * inversion H; subst. destruct (IH Hm) as (s' & Hk & Hl).
        exists s'. split; [exact Hk | simpl; lia].
      * exists (x :: s). split; [exact H | lia].
    + exists (x :: s). split; [exact H | lia].
Qed.

Lemma star_lazy_inv p g k res : forall s,
  re_match (StarL p) s g k = Some res ->
  exists s', k s' g = Some res /\ (length s' <= length s)%nat.
Proof.
  induction s as [|x s IH]; intros H; cbn [re_match] in H.
  - destruct (k [] g) eqn:Hk; [|discriminate].
    exists []. split; [congruence | lia].
  - destruct (k (x :: s) g) eqn:Hk.
    + exists (x :: s). split; [congruence | lia].
    + destruct (p x); [|discriminate].
      destruct (IH H) as (s' & Hk' & Hl).
      exists s'. split; [exact Hk' | simpl; lia].
Qed.

(** A successful match went through its continuation, on a suffix no
    longer than the text, and with the group untouched when the pattern
    has none. *)
Lemma re_match_inv r : forall s g k res,
  re_match r s g k = Some res ->
  exists s' g', k s' g' = Some res /\ (length s' <= length s)%nat /\
                (has_group r = false -> g' = g).
Proof.
  induction r as [|c|p|p|p|r1 IH1 r2 IH2|r1 IH1]; intros s g k res H.
  - exists s, g. auto.
  - cbn [re_match] in H. destruct s as [|x s]; [discriminate|].
    destruct (x =? c)%N; [|discriminate].
    exists s, g. repeat split; auto. simpl; lia.
  - cbn [re_match] in H. destruct s as [|x s]; [discriminate|].
    destruct (p x); [|discriminate].
    exists s, g. repeat split; auto. simpl; lia.
  - apply star_greedy_inv in H as (s' & Hk & Hl). exists s', g. auto.
  - apply star_lazy_inv in H as (s' & Hk & Hl). exists s', g. auto.
  - cbn [re_match] in H.
    apply IH1 in H as (s1 & g1 & H & Hl1 & Hg1).
    apply IH2 in H as (s2 & g2 & H & Hl2 & Hg2).
    exists s2, g2. split; [exact H|]. split; [lia|].
    simpl. intros Hn. apply orb_false_elim in Hn as [Ha Hb].
    rewrite Hg2, Hg1; auto.
  - cbn [re_match] in H.
    apply IH1 in H as (s1 & g1 & H & Hl1 & _).
    eexists s1, _. split; [exact H|]. split; [lia|]. discriminate.
Qed.

Lemma re_match_seq r1 r2 s g k :
  re_match (Seq r1 r2) s g k =
  re_match r1 s g (fun s' g' => re_match r2 s' g' k).
Proof. reflexivity. Qed.

Lemma re_match_grp r s g k :
  re_match (Grp r) s g k =
  re_match r s g (fun s' _ => k s' (Some (take (length s - length s') s))).
Proof. reflexivity. Qed.

Lemma re_match_chr c s g k res :
  re_match (Chr c) s g k = Some res ->
  exists s', s = c :: s' /\ k s' g = Some res.
Proof.
  destruct s as [|x s']; [discriminate|]. cbn [re_match].
  destruct (N.eqb_spec x c) as [->|]; [eauto | discriminate].
Qed.

(** The shape shared by the tagged and the fenced patterns: the group
    opens with a brace, and nothing after it captures. *)
Lemma braced_group_inv opening inner closing s g k res :
  has_group closing = false ->
  re_match (Seq opening (Seq (StarG is_space)
              (Seq (Grp (Seq (Chr 123) inner)) closing))) s g k = Some res ->
  exists s' body, k s' (Some (123%N :: body)) = Some res.
Proof.
  intros Hclosing H. rewrite re_match_seq in H.
  apply re_match_inv in H as (s1 & g1 & H & _ & _).
  rewrite re_match_seq in H.
  apply star_greedy_inv in H as (s2 & H & _).
  rewrite re_match_seq, re_match_grp, re_match_seq in H.
  apply re_match_chr in H as (t & -> & H).
  apply re_match_inv in H as (s3 & g3 & H & Hl & _).
  apply re_match_inv in H as (s4 & g4 & H & _ & Hg).
  rewrite (Hg Hclosing) in H.
  replace (length (123%N :: t) - length s3)%nat with (S (length t - length s3)) in H
    by (simpl; lia).
  cbn [take] in H. eauto.
Qed.

Lemma search_inv r : forall s whole g,
  search r s = Some (whole, g) -> exists t rest, match_here r t = Some (rest, g).
Proof.
  induction s as [|x s IH]; intros whole g H; cbn [search] in H.
  - destruct (match_here r []) as [[rest g']|] eqn:Hm; [|discriminate].
    inversion H; subst. eauto.
  - destruct (match_here r (x :: s)) as [[rest g']|] eqn:Hm.
    + inversion H; subst. eauto.
    + eauto.
Qed.

Lemma findall_inv r : forall s skip x,
  x ∈ findall_skip r s skip ->
  exists t rest g, match_here r t = Some (rest, g) /\
                   x = take (length t - length rest) t.
Proof.
  induction s as [|c s IH]; intros skip x H.
  - destruct skip; cbn [findall_skip] in H; [|now apply elem_of_nil in H].
    destruct (match_here r []) as [[rest g]|] eqn:Hm; [|now apply elem_of_nil in H].
    apply list_elem_of_singleton in H. subst. eauto.
  - destruct skip; cbn [findall_skip] in H; [|eauto].
    destruct (match_here r (c :: s)) as [[rest g]|] eqn:Hm; [|eauto].
    apply elem_of_cons in H as [-> | H]; eauto.
Qed.

(** The candidates of the three strategies start with an opening brace. *)
Lemma tagged_candidate_braced text whole g :
  search decision_block text = Some (whole, g) ->
  exists body, g = Some (123%N :: body).
Proof.
  intros H. apply search_inv in H as (t & rest & H).
  unfold match_here in H.
  apply braced_group_inv in H as (s' & body & H); [|reflexivity].
  inversion H; subst. eauto.
Qed.

Lemma fenced_candidate_braced text whole g :
  search fenced_block text = Some (whole, g) ->
  exists body, g = Some (123%N :: body).
Proof.
  intros H. apply search_inv in H as (t & rest & H).
  unfold match_here in H.
  apply braced_group_inv in H as (s' & body & H); [|reflexivity].
  inversion H; subst. eauto.
Qed.

Lemma loose_candidate_braced text x :
  x ∈ findall action_object text -> exists body, x = 123%N :: body.
Proof.
  intros H. apply findall_inv in H as (t & rest & g & H & ->).
  unfold match_here, action_object in H. rewrite re_match_seq in H.
  apply re_match_chr in H as (t' & -> & H).
  apply re_match_inv in H as (s1 & g1 & H & Hl & _).
  inversion H; subst.
  replace (length (123%N :: t') - length rest)%nat with (S (length t' - length rest))
    by (simpl in *; lia).
  cbn [take]. eauto.
Qed.

Lemma members_dict fuel : forall s acc v r,
  members fuel s acc = Parsed v r -> exists d, v = VDict d.
Proof.
  induction fuel as [|fuel IH]; intros s acc v r H; [discriminate|].
  cbn [members] in H.
  destruct s as [|q s1]; [discriminate|].
  destruct (q =? 34)%N; [|discriminate].
  destruct (scanstring s1) as [[key s2]|]; [|discriminate].
  destruct (skip_ws s2) as [|colon s3]; [discriminate|].
  destruct (colon =? 58)%N; [|discriminate].
  destruct (scan_once fuel (skip_ws s3)) as [v0 s4| | |]; try discriminate.
  destruct (skip_ws s4) as [|c s5]; [discriminate|].
  destruct (c =? 125)%N; [inversion H; subst; eauto|].
  destruct (c =? 44)%N; [|discriminate]. eauto.
Qed.

(** What [json.loads] returns for a text that starts with an opening
    brace is a [dict]. *)
Lemma loads_brace_dict body v :
  loads (123%N :: body) = Some v -> exists d, v = VDict d.
Proof.
  unfold loads, loads_fuel. cbn [skip_ws is_ws N.eqb Pos.eqb orb].
  change (match 123%N :: body with
          | 65279%N :: _ => Malformed
          | _ => ?x end) with x.
  cbn [scan_once N.eqb Pos.eqb].
  destruct (skip_ws body) as [|c2 s3]; [discriminate|].
  destruct (c2 =? 125)%N.
  - destruct (skip_ws s3); [|discriminate]. intros H. inversion H; subst. eauto.
  - destruct (members _ _ _) as [v0 r0| | |] eqn:Hm; try discriminate.
    destruct (skip_ws r0); [|discriminate]. intros H. inversion H; subst.
    now apply members_dict in Hm.
Qed.

End PatternFacts.

(** ** Facts about the encoding *)

Section EncodingFacts.

Import Sha256.

(** UTF-8 is a prefix code: the bytes of a character can be read back
    from the front of a byte string. *)
Lemma utf8_char_prefix c1 c2 b1 b2 r1 r2 :
  utf8_char c1 = Some b1 -> utf8_char c2 = Some b2 ->
  b1 ++ r1 = b2 ++ r2 -> c1 = c2 /\ r1 = r2.
Proof.
  unfold utf8_char. intros H1 H2 H.
  assert (Hc : Z.of_N c1 = Z.of_N c2 -> c1 = c2) by lia.
  pose proof (N2Z.is_nonneg c1). pose proof (N2Z.is_nonneg c2).
  set (z1 := Z.of_N c1) in *. set (z2 := Z.of_N c2) in *.
  clearbody z1 z2.
  repeat match type of H1 with
         | (if ?b then _ else _) = _ => destruct b eqn:?
         end; inversion H1; subst; clear H1;
  repeat match type of H2 with
         | (if ?b then _ else _) = _ => destruct b eqn:?
         end; inversion H2; subst; clear H2;
  simpl in H; inversion H; subst; clear H;
  try (exfalso; Z.div_mod_to_equations; lia);
  (split; [apply Hc; Z.div_mod_to_equations; lia | reflexivity]).
Qed.

Lemma encode_injective : forall s1 s2 b,
  encode s1 = Some b -> encode s2 = Some b -> s1 = s2.
Proof.
  induction s1 as [|c1 s1 IH]; intros [|c2 s2] b H1 H2; simpl in *.
  - reflexivity.
  - inversion H1; subst.
    destruct (utf8_char c2) as [b2|] eqn:E2; [|discriminate].
    destruct (encode s2); [|discriminate]. inversion H2 as [Hnil].
    unfold utf8_char in E2.
    repeat match type of E2 with
           | (if ?c then _ else _) = _ => destruct c
           end; inversion E2; subst; discriminate.
  - inversion H2; subst.
    destruct (utf8_char c1) as [b1|] eqn:E1; [|discriminate].
    destruct (encode s1); [|discriminate]. inversion H1 as [Hnil].
    unfold utf8_char in E1.
    repeat match type of E1 with
           | (if ?c then _ else _) = _ => destruct c
           end; inversion E1; subst; discriminate.
  - destruct (utf8_char c1) as [b1|] eqn:E1; [|discriminate].
    destruct (encode s1) as [r1|] eqn:R1; [|discriminate].
    destruct (utf8_char c2) as [b2|] eqn:E2; [|discriminate].
    destruct (encode s2) as [r2|] eqn:R2; [|discriminate].
    inversion H1; subst. inversion H2 as [Heq].
    destruct (utf8_char_prefix _ _ _ _ _ _ E2 E1 Heq) as [-> ->].
    f_equal. now apply (IH s2 r1).
Qed.
End EncodingFacts.

(** ** Facts about printing *)

Section PrintFacts.

Lemma encodes_nil : encodes [].
Proof. discriminate. Qed.

Lemma encodes_cons c s :
  encodes (c :: s) <-> Sha256.utf8_char c <> None /\ encodes s.
Proof.
  unfold encodes. cbn [Sha256.encode].
  destruct (Sha256.utf8_char c), (Sha256.encode s); split;
    try (intros [H1 H2]); try congruence; auto; try (intros _; split; congruence).
Qed.

Lemma encodes_app a b : encodes (a ++ b) <-> encodes a /\ encodes b.
Proof.
  induction a as [|c a IH]; cbn [app].
  - split; [intros H; split; [apply encodes_nil | exact H] | intros [_ H]; exact H].
  - rewrite !encodes_cons, IH. tauto.
Qed.

Lemma encodes_take n s : encodes s -> encodes (take n s).
Proof.
  intros H. rewrite <- (take_drop n s) in H. now apply encodes_app in H.
Qed.

Lemma encodes_ascii s : Forall (fun c => (c < 128)%N) s -> encodes s.
Proof.
  induction 1 as [|c s Hc _ IH]; [apply encodes_nil|].
  apply encodes_cons. split; [|exact IH].
  unfold Sha256.utf8_char.
  destruct (Z.ltb_spec (Z.of_N c) 128); [discriminate | lia].
Qed.

Lemma lit_ascii s : Forall (fun c => (c < 128)%N) (lit s) -> encodes (lit s).
Proof. apply encodes_ascii. Qed.

Lemma uint_ascii u : Forall (fun c => (c < 128)%N) (lit (NilEmpty.string_of_uint u)).
Proof.
  induction u; cbn [NilEmpty.string_of_uint]; unfold lit in *;
    cbn [list_ascii_of_string map]; try constructor; try exact IHu;
    vm_compute; reflexivity.
Qed.

Lemma str_of_int_ascii n : Forall (fun c => (c < 128)%N) (str_of_int n).
Proof.
  unfold str_of_int, NilZero.string_of_int, NilZero.string_of_uint.
  assert (H0 : Forall (fun c => (c < 128)%N) (lit "0")).
  { repeat constructor. }
  destruct (Z.to_int n) as [u|u].
  - destruct u; try exact H0; apply uint_ascii.
  - unfold lit. cbn [list_ascii_of_string map].
    constructor; [vm_compute; reflexivity|].
    destruct u; try exact H0; apply uint_ascii.
Qed.

Lemma str_of_int_encodes n : encodes (str_of_int n).
Proof. apply encodes_ascii, str_of_int_ascii. Qed.

Lemma encodable_chars s : encodable (Chars s) = true <-> encodes s.
Proof.
  unfold encodes. cbn [encodable]. destruct (Sha256.encode s); split;
    congruence.
Qed.

Lemma printable_cons p t : printable (p :: t) <-> encodable p = true /\ printable t.
Proof. unfold printable. cbn [forallb]. apply andb_true_iff. Qed.

Lemma printable_nil : printable [].
Proof. reflexivity. Qed.

Lemma print_ok t : printable t -> print t = Ok tt.
Proof. unfold printable, print. now intros ->. Qed.

Lemma print_cut t : ~ printable t -> print t = Raise UnicodeEncodeError.
Proof.
  unfold printable, print. destruct (forallb encodable t); [congruence | reflexivity].
Qed.

Lemma print_cases t :
  (printable t /\ print t = Ok tt) \/
  (~ printable t /\ print t = Raise UnicodeEncodeError).
Proof.
  destruct (forallb encodable t) eqn:H.
  - left. split; [exact H | now apply print_ok].
  - right. assert (~ printable t) by (unfold printable; congruence).
    split; [assumption | now apply print_cut].
Qed.

Lemma print_raises t e : print t = Raise e -> e = UnicodeEncodeError /\ ~ printable t.
Proof.
  destruct (print_cases t) as [[_ H] | [Hn H]]; rewrite H; intros E; inversion E; auto.
Qed.

Lemma print_returns t : print t = Ok tt -> printable t.
Proof.
  destruct (print_cases t) as [[H _] | [_ H]]; [auto | rewrite H; discriminate].
Qed.

(** A value that holds no long [int] can be shown, and what is shown
    can be encoded unless the value is a [str]. *)
Lemma str_of_short v :
  holds_long_int v = false ->
  exists p, str_of v = Ok p /\
            match v with
            | VStr s => p = Chars s
            | _ => encodable p = true
            end.
Proof.
  intros H. destruct v as [|b|n|f|s|l|d]; cbn [str_of];
    try (eexists; split; [reflexivity|]; try reflexivity).
  - destruct b; vm_compute; reflexivity.
  - cbn [holds_long_int] in H. rewrite H. eexists; split; [reflexivity|].
    apply encodable_chars, str_of_int_encodes.
  - rewrite H. eexists; split; reflexivity.
  - rewrite H. eexists; split; reflexivity.
Qed.

Lemma str_of_raises v e : str_of v = Raise e -> e = ValueError.
Proof.
  destruct v as [|b|n|f|s|l|d]; cbn [str_of]; try discriminate.
  - destruct (over_max_str_digits n); [|discriminate]. now inversion 1.
  - destruct (holds_long_int (VList l)); [|discriminate]. now inversion 1.
  - destruct (holds_long_int (VDict d)); [|discriminate]. now inversion 1.
Qed.

Lemma dict_get_short k d v :
  short_items d -> dict_get k d = Some v -> holds_long_int v = false.
Proof.
  unfold short_items. induction d as [|[k' v'] d IH]; simpl; [discriminate|].
  intros H. apply orb_false_elim in H as [H1 H2].
  destruct (str_eqb k' k); [intros E; now inversion E; subst | now apply IH].
Qed.

Lemma slice_text_printable n t : printable t -> printable (slice_text n t).
Proof.
  revert n. induction t as [|[s|] t IH]; intros n H; cbn [slice_text].
  - exact H.
  - apply printable_cons in H as [H1 H2]. apply printable_cons. split.
    + apply encodable_chars. unfold slice_to. apply encodes_take.
      now apply encodable_chars.
    + now apply IH.
  - reflexivity.
Qed.

End PrintFacts.

(** ** The invocation manager *)

Section InvocationFacts.

Context (o : outside).

Lemma invoke_hit self w prompt system_prompt timeout key response :
  use_cache self = true ->
  _get_cache_key prompt system_prompt = Ok key ->
  cache_dir w !! key = Some response ->
  _invoke_claude_cli o self w prompt system_prompt timeout = (w, Ok response).
Proof.
  intros Hc Hk Hl. unfold _invoke_claude_cli.
  rewrite Hc, Hk. simpl. now rewrite Hl.
Qed.

Lemma invoke_miss self w prompt system_prompt sid t :
  cache_miss self w prompt system_prompt ->
  session_id self = Some sid ->
  _invoke_claude_cli o self w prompt system_prompt (Some t) =
    let w1 := add_call (call_of self sid prompt system_prompt t) w in
    match run o (length (calls w)) with
    | TimedOut => (w1, Raise TimeoutError)
    | NotStarted => (w1, Raise OSError)
    | Undecodable => (w1, Raise UnicodeDecodeError)
    | Exited returncode stdout stderr =>
        on_exit self w1 prompt system_prompt returncode stdout stderr
    end.
Proof.
  intros [Hc | (key & Hk & Hl)] Hs; unfold _invoke_claude_cli.
  - rewrite Hc, Hs. reflexivity.
  - rewrite Hk. simpl. rewrite Hl, Hs.
    destruct (use_cache self); reflexivity.
Qed.

(** A process error is a [ClaudeCodeError]; the line that reports it
    before a retry can be printed when [error_shown] says so. *)
Lemma on_exit_process_error self w prompt system_prompt returncode stdout stderr :
  process_error (Exited returncode stdout stderr) ->
  exists m,
    on_exit self w prompt system_prompt returncode stdout stderr =
      (w, Raise (ClaudeCodeError m)) /\
    (error_shown (Exited returncode stdout stderr) <->
     printable (Chars (lit "   Error: ") :: slice_text 200 m)).
Proof.
  intros Hpe. unfold on_exit, error_shown.
  destruct (Z.eqb_spec returncode 0) as [->|Hrc]; cbn [negb].
  - destruct Hpe as [Hrc | (d & Hd & Ht)]; [congruence|].
    rewrite Hd. cbn [get bind]. rewrite Ht.
    pose proof (loads_short _ _ Hd) as Hshort. cbn [holds_long_int] in Hshort.
    unfold dict_get_default.
    destruct (dict_get (lit "result") d) as [v|] eqn:Hres.
    + destruct (str_of_short v (dict_get_short _ _ _ Hshort Hres)) as (p & Hp & Hv).
      rewrite Hp. cbn [bind]. eexists. split; [reflexivity|].
      change (slice_text 200 [Chars (lit "Claude CLI error: "); p])
        with (Chars (lit "Claude CLI error: ") :: slice_text 182 [p]).
      rewrite printable_cons.
      split.
      * intros Hshown. split; [reflexivity|].
        apply printable_cons. split; [reflexivity|].
        destruct v as [|b|n|f|s|l|d0];
          try (apply slice_text_printable, printable_cons;
               split; [exact Hv | apply printable_nil]).
        cbn in Hv. subst p. cbn [slice_text]. apply printable_cons.
        split; [|reflexivity].
        apply encodable_chars. apply (Hshown d s eq_refl Hres).
      * intros [_ Hpr] d' s' Hd' Hres'.
        assert (d' = d) by congruence. subst d'.
        rewrite Hres in Hres'. inversion Hres'; subst v. cbn in Hv. subst p.
        apply printable_cons in Hpr as [_ Hpr]. cbn [slice_text] in Hpr.
        apply printable_cons in Hpr as [Hpr _]. now apply encodable_chars in Hpr.
    + cbn [str_of bind]. eexists. split; [reflexivity|].
      split; [intros _; vm_compute; reflexivity|].
      intros _ d' s' Hd' Hres'. congruence.
  - eexists. split; [reflexivity|].
    destruct (Z.eqb_spec returncode 0) as [|_]; [contradiction|].
    cbn [slice_text]. rewrite printable_cons.
    split.
    + intros H. split; [reflexivity|]. apply printable_cons.
      split; [now apply encodable_chars | reflexivity].
    + intros [_ H]. apply printable_cons in H as [H _].
      now apply encodable_chars in H.
Qed.

Lemma on_exit_malformed self w prompt system_prompt stdout stderr :
  Json.loads stdout = None ->
  exists e,
    on_exit self w prompt system_prompt 0 stdout stderr = (w, Raise e) /\
    is_ValueError e = true /\
    (encodes (slice_to 500 stdout) -> printable (message e)).
Proof.
  intros H. unfold on_exit. change (negb (0 =? 0)) with false. cbv iota.
  rewrite H.
  destruct (Json.refused stdout).
  - exists ValueError. repeat split; reflexivity.
  - eexists. split; [reflexivity|]. split; [reflexivity|].
    intros Henc. cbn [message]. apply printable_cons. split; [reflexivity|].
    apply printable_cons. split; [reflexivity|].
    apply printable_cons. split; [|reflexivity].
    apply encodable_chars. apply encodes_app. split; [discriminate|].
    apply encodes_app. split; [discriminate | exact Henc].
Qed.

(** A completed run changes nothing but the cache, and that only on
    success. *)
Lemma on_exit_frame self w prompt system_prompt returncode stdout stderr w' r :
  on_exit self w prompt system_prompt returncode stdout stderr = (w', r) ->
  calls w' = calls w /\ sleeps w' = sleeps w /\ log_file w' = log_file w /\
  drawn w' = drawn w /\
  (forall e, r = Raise e -> w' = w).
Proof.
  unfold on_exit. intros H.
  repeat match type of H with
         | (if ?b then _ else _) = _ => destruct b
         | match ?x with _ => _ end = _ => destruct x
         end;
    inversion H; subst; clear H; simpl; repeat split; congruence.
Qed.

(** One invocation makes at most one call, with the timeout it was
    given, and never touches the log or the sleeps. *)
Lemma invoke_frame self w prompt system_prompt t w' r :
  _invoke_claude_cli o self w prompt system_prompt (Some t) = (w', r) ->
  (calls w' = calls w \/
   exists c, calls w' = calls w ++ [c] /\ timeout_s c = t) /\
  sleeps w' = sleeps w /\ log_file w' = log_file w /\ drawn w' = drawn w.
Proof.
  unfold _invoke_claude_cli. intros H.
  destruct (if use_cache self then _ else _) as [[response|]|e].
  - inversion H; subst. auto.
  - destruct (session_id self) as [sid|]; [|inversion H; subst; auto].
    destruct (run o (length (calls w))) as [|returncode stdout stderr| |].
    + inversion H; subst; simpl. split; [right; eauto | auto].
    + apply on_exit_frame in H as (Hc & Hs & Hl & Hd & _).
      rewrite Hc, Hs, Hl, Hd. simpl. split; [right; eauto | auto].
    + inversion H; subst; simpl. split; [right; eauto | auto].
    + inversion H; subst; simpl. split; [right; eauto | auto].
  - inversion H; subst. auto.
Qed.

End InvocationFacts.

(** ** The retry controller *)

Section RetryFacts.

Context (o : outside) (prompt system_prompt : str).

Lemma set_cli_timeout_id self : set_cli_timeout (cli_timeout self) self = self.
Proof. now destruct self. Qed.

Lemma cache_miss_carries self w t w' :
  cache_miss self w prompt system_prompt ->
  cache_dir w' = cache_dir w ->
  cache_miss (set_cli_timeout t self) w' prompt system_prompt.
Proof.
  intros [H | (key & Hk & Hl)] Hc; [left | right]; simpl; auto.
  exists key. now rewrite Hc.
Qed.

(** What one turn of the loop does after its invocation: it ends the
    controller, or, after a timeout or a process error that is not the
    last attempt's, it sleeps and goes on with the attempts left. *)
Lemma attempts_unfold attempt later self w w1 r :
  _invoke_claude_cli o self w prompt system_prompt (Some (cli_timeout self)) = (w1, r) ->
  (exists x, attempts_from o (attempt :: later) self w prompt system_prompt =
             (self, w1, x)) \/
  (exists t,
     attempt <> max_retries self /\
     ((r = Raise TimeoutError /\ t = Z.max 120 (cli_timeout self / 2)) \/
      ((exists m, r = Raise (ClaudeCodeError m)) /\ t = cli_timeout self)) /\
     attempts_from o (attempt :: later) self w prompt system_prompt =
       attempts_from o later (set_cli_timeout t self)
         (add_sleep (float_mul (base_delay self) (float_of_int attempt)) w1)
         prompt system_prompt).
Proof.
  intros Hinv. cbn [attempts_from]. rewrite Hinv.
  destruct r as [response | e]; [left; eauto|].
  destruct e as [ | m | | m | | | | | | | | m | | m ];
    try (left; cbn [is_ValueError]; now eauto);
    try (left; cbn [is_ValueError]; destruct (print _); now eauto).
  - destruct (Z.eqb_spec attempt (max_retries self)) as [|Hne]; [left; eauto|].
    right. exists (Z.max 120 (cli_timeout self / 2)). auto.
  - destruct (Z.eqb_spec attempt (max_retries self)) as [|Hne]; [left; eauto|].
    destruct (print _) as [ [] | e' ]; [|left; eauto].
    right. exists (cli_timeout self). rewrite set_cli_timeout_id.
    split; [exact Hne|]. split; [right; eauto | reflexivity].
Qed.

(** One retried attempt: the call, the sleep, and the narrowing of the
    timeout when the attempt timed out. *)
Lemma retry_step attempt later self w sid :
  cache_miss self w prompt system_prompt ->
  session_id self = Some sid ->
  retriable (run o (length (calls w))) ->
  attempt <> max_retries self ->
  exists t,
    attempts_from o (attempt :: later) self w prompt system_prompt =
    attempts_from o later (set_cli_timeout t self)
      (add_sleep (float_mul (base_delay self) (float_of_int attempt))
         (add_call (call_of self sid prompt system_prompt (cli_timeout self)) w))
      prompt system_prompt
    /\ (process_error (run o (length (calls w))) -> t = cli_timeout self)
    /\ (run o (length (calls w)) = TimedOut -> t = Z.max 120 (cli_timeout self / 2)).
Proof.
  intros Hmiss Hsid Hr Hne.
  cbn [attempts_from]. rewrite (invoke_miss o _ _ _ _ sid) by assumption.
  cbv zeta.
  destruct (run o (length (calls w))) as [|returncode stdout stderr| |] eqn:Hrun.
  - exists (Z.max 120 (cli_timeout self / 2)).
    destruct (Z.eqb_spec attempt (max_retries self)); [contradiction|].
    split; [reflexivity|]. split; [intros []|reflexivity].
  - destruct Hr as [Hr | [Hr Hshown]]; [discriminate|].
    destruct (on_exit_process_error self
                (add_call (call_of self sid prompt system_prompt (cli_timeout self)) w)
                prompt system_prompt _ _ _ Hr) as (m & Hexit & Hpr).
    rewrite Hexit.
    exists (cli_timeout self).
    destruct (Z.eqb_spec attempt (max_retries self)); [contradiction|].
    rewrite (print_ok _ (proj1 Hpr Hshown)).
    rewrite set_cli_timeout_id.
    split; [reflexivity|]. split; [reflexivity|discriminate].
  - destruct Hr as [Hr | [[] _]]. discriminate.
  - destruct Hr as [Hr | [[] _]]. discriminate.
Qed.

(** A run of retried attempts, none of them the last one. *)
Lemma retriable_prefix later (n : nat) : forall (k : Z) self w sid,
  cache_miss self w prompt system_prompt ->
  session_id self = Some sid ->
  (forall i, (i < n)%nat -> retriable (run o (length (calls w) + i))) ->
  k + Z.of_nat n <= max_retries self ->
  exists t w',
    attempts_from o (seqZ k (Z.of_nat n) ++ later) self w prompt system_prompt =
    attempts_from o later (set_cli_timeout t self) w' prompt system_prompt
    /\ cache_dir w' = cache_dir w /\ log_file w' = log_file w
    /\ drawn w' = drawn w
    /\ length (calls w') = (length (calls w) + n)%nat
    /\ length (sleeps w') = (length (sleeps w) + n)%nat
    /\ ((forall i, (i < n)%nat -> process_error (run o (length (calls w) + i))) ->
        t = cli_timeout self).
Proof.
  induction n as [|n IH]; intros k self w sid Hmiss Hsid Hr Hk.
  - exists (cli_timeout self), w. rewrite set_cli_timeout_id. simpl.
    repeat split; auto; lia.
  - rewrite seqZ_cons by lia.
    replace (Z.pred (Z.of_nat (S n))) with (Z.of_nat n) by lia.
    assert (H0 : retriable (run o (length (calls w)))).
    { specialize (Hr 0%nat). rewrite Nat.add_0_r in Hr. apply Hr. lia. }
    destruct (retry_step k (seqZ (Z.succ k) (Z.of_nat n) ++ later) self w sid)
      as (t0 & Hstep & Hpe & _); auto; [lia|].
    set (w1 := add_sleep _ _) in Hstep.
    destruct (IH (Z.succ k) (set_cli_timeout t0 self) w1 sid)
      as (t & w' & Heq & Hc & Hl & Hd & Hcalls & Hsl & Ht).
    + now apply (cache_miss_carries self w).
    + exact Hsid.
    + intros i Hi. subst w1. simpl. rewrite length_app. simpl.
      replace (length (calls w) + 1 + i)%nat with (length (calls w) + S i)%nat by lia.
      apply Hr. lia.
    + simpl. lia.
    + exists t, w'. simpl in *.
      change ((k :: seqZ (Z.succ k) (Z.of_nat n)) ++ later)
        with (k :: (seqZ (Z.succ k) (Z.of_nat n) ++ later)).
      rewrite Hstep, Heq. subst w1. simpl in *.
      rewrite length_app in Hcalls, Hsl. simpl in *.
      repeat split; auto; try lia.
      intros Hall. rewrite Ht.
      * apply Hpe. specialize (Hall 0%nat). rewrite Nat.add_0_r in Hall.
        apply Hall. lia.
      * intros i Hi. rewrite length_app. simpl.
        replace (length (calls w) + 1 + i)%nat with (length (calls w) + S i)%nat by lia.
        apply Hall. lia.
Qed.

End RetryFacts.

(** ** Timeout narrowing *)

Lemma narrowing_bounds o i t l :
  120 <= t -> narrowing o i t l ->
  Forall (fun x => 120 <= x <= t) l /\ non_increasing l.
Proof.
  intros Ht H. induction H as [i t | i t l H IH].
  - split; [constructor|]. intros j a b Ha. destruct j; discriminate.
  - assert (Hle : 120 <= (if timed_out (run o i) then Z.max 120 (t / 2) else t) <= t).
    { destruct (timed_out (run o i)); [|lia].
      split; [lia|]. apply Z.max_lub; [lia|]. apply Z.div_le_upper_bound; lia. }
    destruct IH as [Hall Hni]; [lia|].
    split.
    + constructor; [lia|]. eapply Forall_impl; [exact Hall|].
      simpl. intros. lia.
    + intros [|j] a b Ha Hb; simpl in *.
      * inversion Ha; subst. destruct l as [|x l']; [discriminate|].
        inversion Hb; subst. inversion Hall; subst. lia.
      * eapply Hni; eauto.
Qed.

Section NarrowingFacts.

Context (o : outside) (prompt system_prompt : str).

Lemma get_raises response k default e :
  get response k default = Raise e -> e = AttributeError.
Proof. destruct response; simpl; intros H; inversion H; reflexivity. Qed.

Lemma format_float_raises v e :
  format_float v = Raise e -> e = ValueError \/ e = TypeError \/ e = OverflowError.
Proof.
  unfold format_float. destruct (format_float_spec v); intros H; inversion H; auto.
Qed.

(** The exceptions of the line that shows cost and performance. *)
Lemma print_performance_raises response e :
  print_performance response = Raise e ->
  e = AttributeError \/ e = ValueError \/ e = TypeError \/ e = OverflowError \/
  e = UnicodeEncodeError.
Proof.
  unfold print_performance. intros H.
  destruct (get response (lit "total_cost_usd") (VInt 0)) as [cost|e0] eqn:H0;
    [|apply get_raises in H0; inversion H; subst; auto].
  cbn [bind] in H.
  destruct (get response (lit "duration_ms") (VInt 0)) as [duration|e0] eqn:H1;
    [|apply get_raises in H1; inversion H; subst; auto].
  cbn [bind] in H.
  destruct (get response (lit "num_turns") (VInt 0)) as [turns|e0] eqn:H2;
    [|apply get_raises in H2; inversion H; subst; auto].
  cbn [bind] in H.
  destruct (format_float cost) as [ [] | e0 ] eqn:H3;
    [|apply format_float_raises in H3; inversion H; subst; tauto].
  cbn [bind] in H.
  destruct (str_of duration) as [p1|e0] eqn:H4;
    [|apply str_of_raises in H4; inversion H; subst; auto].
  cbn [bind] in H.
  destruct (str_of turns) as [p2|e0] eqn:H5;
    [|apply str_of_raises in H5; inversion H; subst; auto].
  cbn [bind] in H.
  apply print_raises in H as [-> _]. auto 6.
Qed.

(** What a completed run can raise besides a [ClaudeCodeError]. *)
Lemma on_exit_raises self w returncode stdout stderr w' e :
  on_exit self w prompt system_prompt returncode stdout stderr = (w', Raise e) ->
  (exists m, e = ClaudeCodeError m) \/ is_ValueError e = true \/
  e = AttributeError \/ e = TypeError \/ e = OverflowError.
Proof.
  unfold on_exit. intros H.
  destruct (negb (returncode =? 0)); [inversion H; subst; eauto|].
  destruct (Json.loads stdout) as [response|].
  2:{ destruct (Json.refused stdout); inversion H; subst; auto. }
  destruct (get response (lit "is_error") VNone) as [is_error|e0] eqn:H0;
    [|apply get_raises in H0; inversion H; subst; auto].
  destruct (truthy is_error).
  { destruct (get response (lit "result") (VStr (lit "Unknown error")))
      as [result|e0] eqn:H1;
      [|apply get_raises in H1; inversion H; subst; auto].
    cbn [bind] in H.
    destruct (str_of result) as [p|e0] eqn:H2;
      [|apply str_of_raises in H2; inversion H; subst; auto].
    inversion H; subst. eauto. }
  destruct (print_performance response) as [ [] | e0 ] eqn:H1.
  2:{ apply print_performance_raises in H1. inversion H; subst.
      destruct H1 as [ -> | [ -> | [ -> | [ -> | -> ] ] ] ]; auto. }
  destruct (use_cache self); [|discriminate].
  unfold _get_cache_key in H.
  destruct (Sha256.encode _); inversion H; subst; auto.
Qed.

(** An invocation that makes no call ends in a cache hit or before the
    command is built; one that makes a call raises [TimeoutError]
    exactly when the run timed out. *)
Lemma invoke_cases self w t w' r :
  _invoke_claude_cli o self w prompt system_prompt (Some t) = (w', r) ->
  (calls w' = calls w /\
   r <> Raise TimeoutError /\ forall m, r <> Raise (ClaudeCodeError m)) \/
  exists c, calls w' = calls w ++ [c] /\ timeout_s c = t /\
            (r = Raise TimeoutError <-> timed_out (run o (length (calls w))) = true).
Proof.
  unfold _invoke_claude_cli. intros H.
  destruct (if use_cache self then _ else _) as [[response|]|e] eqn:Hk.
  - inversion H; subst. left. repeat split; congruence.
  - destruct (session_id self) as [sid|].
    2:{ inversion H; subst. left. repeat split; congruence. }
    right.
    destruct (run o (length (calls w))) as [|returncode stdout stderr| |] eqn:Hrun.
    + inversion H; subst; simpl. eexists. repeat split; eauto.
    + pose proof (on_exit_frame _ _ _ _ _ _ _ _ _ H) as (Hc & _).
      rewrite Hc. simpl. eexists. repeat split; eauto; [|discriminate].
      intros ->. apply (on_exit_raises self) in H.
      destruct H as [[m H]|[H|[H|[H|H]]]]; discriminate.
    + inversion H; subst; simpl. eexists. repeat split; eauto; discriminate.
    + inversion H; subst; simpl. eexists. repeat split; eauto; discriminate.
  - inversion H; subst. left. split; [reflexivity|].
    destruct (use_cache self); [|discriminate].
    unfold _get_cache_key in Hk. destruct (Sha256.encode _); [discriminate|].
    inversion Hk; subst. split; [discriminate|]. intros m. discriminate.
Qed.

Lemma attempts_calls attempts : forall self w self' w' r,
  attempts_from o attempts self w prompt system_prompt = (self', w', r) ->
  exists new,
    calls w' = calls w ++ new /\ (length new <= length attempts)%nat /\
    narrowing o (length (calls w)) (cli_timeout self) (map timeout_s new).
Proof.
  induction attempts as [|attempt later IH]; intros self w self' w' r H.
  - inversion H; subst. exists []. rewrite app_nil_r.
    repeat split; auto. constructor.
  - cbn [attempts_from] in H.
    destruct (_invoke_claude_cli o self w prompt system_prompt
                (Some (cli_timeout self))) as [w1 r1] eqn:Hinv.
    pose proof (invoke_cases _ _ _ _ _ Hinv) as Hcalls.
    assert (Hstop : forall x, (self, w1, x) = (self', w', r) ->
      exists new, calls w' = calls w ++ new /\
                  (length new <= length (attempt :: later))%nat /\
                  narrowing o (length (calls w)) (cli_timeout self) (map timeout_s new)).
    { intros x Hx. inversion Hx; subst.
      destruct Hcalls as [(Hc & _) | (c & Hc & Ht & _)].
      - exists []. rewrite app_nil_r. repeat split; auto; [simpl; lia|constructor].
      - exists [c]. repeat split; auto; [simpl; lia|].
        simpl. rewrite Ht. constructor. constructor. }
    destruct r1 as [response | e].
    + eapply Hstop; eauto.
    + destruct e as [ | m | | m | | | | | | | | m | | m ];
        try (simpl in H; eapply Hstop; now eauto);
        try (simpl in H; destruct (print _) as [ [] | e' ]; eapply Hstop; now eauto).
      * (* a timeout: a call was made, and the timeout is halved *)
        destruct (attempt =? max_retries self); [eapply Hstop; eauto|].
        destruct Hcalls as [(_ & Hn & _) | (c & Hc & Ht & Hto)]; [congruence|].
        apply IH in H as (new & Hn & Hlen & Hnar). simpl in Hn, Hnar.
        exists (c :: new). rewrite Hn, Hc, <- app_assoc. simpl.
        repeat split; auto; [lia|]. rewrite Ht. constructor.
        rewrite (proj1 Hto eq_refl).
        rewrite Hc, length_app in Hnar. simpl in Hnar.
        now rewrite Nat.add_1_r in Hnar.
      * (* a process error: the timeout stays *)
        destruct (attempt =? max_retries self); [eapply Hstop; eauto|].
        destruct (print _) as [ [] | e' ]; [|eapply Hstop; eauto].
        destruct Hcalls as [(_ & _ & Hn) | (c & Hc & Ht & Hto)];
          [exfalso; now apply (Hn m)|].
        apply IH in H as (new & Hn & Hlen & Hnar). simpl in Hn.
        exists (c :: new). rewrite Hn, Hc, <- app_assoc. simpl.
        repeat split; auto; [lia|]. rewrite Ht. constructor.
        destruct (timed_out (run o (length (calls w)))) eqn:Hrun.
        { pose proof (proj2 Hto eq_refl). discriminate. }
        simpl in Hnar. rewrite Hc, length_app in Hnar. simpl in Hnar.
        now rewrite Nat.add_1_r in Hnar.
Qed.

End NarrowingFacts.

(** ** Statements about the retry controller and the cache *)

(** C5 (amended).  When the initial timeout is at least 120 seconds,
    whatever the subprocess does: the retry controller makes at most
    [max_retries] calls, and the timeouts of its successive calls never
    increase, never drop below 120, and follow the narrowing rule: the
    first call uses the initial timeout, and the call after a call that
    timed out uses half its timeout with a floor of 120, the call after
    any other retried call the same timeout. *)
Theorem timeouts_narrow o self w prompt system_prompt :
  120 <= cli_timeout self ->
  (length (new_calls w (_ainvoke_claude_with_retry o self w prompt system_prompt).1.2)
     <= Z.to_nat (max_retries self))%nat /\
  non_increasing
    (map timeout_s (new_calls w (_ainvoke_claude_with_retry o self w prompt system_prompt).1.2)) /\
  Forall (fun t => 120 <= t)
    (map timeout_s (new_calls w (_ainvoke_claude_with_retry o self w prompt system_prompt).1.2)) /\
  narrowing o (length (calls w)) (cli_timeout self)
    (map timeout_s (new_calls w (_ainvoke_claude_with_retry o self w prompt system_prompt).1.2)).
Proof.
  intros Ht. unfold _ainvoke_claude_with_retry.
  destruct (attempts_from o (seqZ 1 (max_retries self)) self w prompt system_prompt)
    as [[self' w'] r] eqn:H.
  apply attempts_calls in H as (new & Hn & Hlen & Hnar). simpl.
  unfold new_calls. rewrite Hn, drop_app_length.
  rewrite length_seqZ in Hlen.
  destruct (narrowing_bounds _ _ _ _ Ht Hnar) as [Hall Hni].
  repeat split; auto.
  eapply Forall_impl; [exact Hall|]. simpl. intros. lia.
Qed.

Lemma timeouts_narrow_witness :
  120 <= cli_timeout (sample_agent 3 600 false) /\
  narrowing (always TimedOut) (length (calls empty_world))
    (cli_timeout (sample_agent 3 600 false))
    (map timeout_s
       (new_calls empty_world
          (_ainvoke_claude_with_retry (always TimedOut) (sample_agent 3 600 false)
             empty_world (lit "user") (lit "system")).1.2)).
Proof.
  split; [simpl; lia|].
  apply (timeouts_narrow (always TimedOut) (sample_agent 3 600 false)
           empty_world (lit "user") (lit "system")).
  simpl; lia.
Defined.

(** C5 as stated fails for an initial timeout below the floor: from 60
    seconds the second attempt runs with 120, which is an increase, and
    the first attempt runs below 120. *)
Lemma timeout_below_floor_rises :
  map timeout_s
    (new_calls empty_world
       (_ainvoke_claude_with_retry (always TimedOut) (sample_agent 3 60 false)
          empty_world (lit "user") (lit "system")).1.2) = [60; 120; 120] /\
  ~ non_increasing [60; 120; 120] /\
  ~ Forall (fun t => 120 <= t) [60; 120; 120].
Proof.
  split; [vm_compute; reflexivity|]. split.
  - intros H. specialize (H 0%nat 60 120 eq_refl eq_refl). lia.
  - intros H. inversion H; subst. lia.
Qed.

(** C8.  With caching enabled and a response stored under the key of
    the prompts, the invocation returns the stored response and leaves
    the world as it was: no subprocess call, no sleep, no log record, no
    change of the cache.  The same holds through the retry controller,
    which returns on its first attempt and leaves the agent unchanged. *)
Theorem cache_hit_bypasses_subprocess o self w prompt system_prompt timeout key response :
  use_cache self = true ->
  _get_cache_key prompt system_prompt = Ok key ->
  cache_dir w !! key = Some response ->
  _invoke_claude_cli o self w prompt system_prompt timeout = (w, Ok response) /\
  (1 <= max_retries self ->
   _ainvoke_claude_with_retry o self w prompt system_prompt = (self, w, Ok response)).
Proof.
  intros Hc Hk Hl. split.
  - now apply (invoke_hit o self w prompt system_prompt timeout key).
  - intros Hm. unfold _ainvoke_claude_with_retry.
    rewrite seqZ_cons by lia. cbn [attempts_from].
    now rewrite (invoke_hit o self w prompt system_prompt _ key response).
Qed.

Lemma cache_hit_bypasses_subprocess_witness :
  use_cache (sample_agent 3 600 true) = true /\
  _get_cache_key (lit "user") (lit "system") = Ok sample_key /\
  cache_dir cached_world !! sample_key = Some sample_response /\
  _invoke_claude_cli (always TimedOut) (sample_agent 3 600 true) cached_world
    (lit "user") (lit "system") None = (cached_world, Ok sample_response).
Proof.
  assert (H1 : use_cache (sample_agent 3 600 true) = true) by reflexivity.
  assert (H2 : _get_cache_key (lit "user") (lit "system") = Ok sample_key)
    by (vm_compute; reflexivity).
  assert (H3 : cache_dir cached_world !! sample_key = Some sample_response)
    by (vm_compute; reflexivity).
  split; [exact H1|]. split; [exact H2|]. split; [exact H3|].
  exact (proj1 (cache_hit_bypasses_subprocess (always TimedOut)
                  (sample_agent 3 600 true) cached_world (lit "user") (lit "system")
                  None sample_key sample_response H1 H2 H3)).
Defined.

(** C9 as stated fails: the key is computed from the system prompt, a
    newline and the user prompt put together, so two different pairs that
    put together the same text get the same key, with certainty. *)
Lemma cache_key_collision :
  (lit "c", lit "a" ++ nl ++ lit "b") <> (lit "b" ++ nl ++ lit "c", lit "a") /\
  _get_cache_key (lit "c") (lit "a" ++ nl ++ lit "b") =
  _get_cache_key (lit "b" ++ nl ++ lit "c") (lit "a").
Proof. split; [discriminate | reflexivity]. Qed.

(** C9 (amended).  The cache key is a function of the text
    [system_prompt + newline + prompt] alone: pairs with the same
    concatenation have the same key; among pairs whose system prompts
    contain no newline, the concatenation determines the pair; and two
    pairs with different concatenations have the same key only if the
    UTF-8 encodings of the two texts are a collision of SHA-256. *)
Theorem cache_key_by_concatenation p1 s1 p2 s2 :
  (combined p1 s1 = combined p2 s2 ->
   _get_cache_key p1 s1 = _get_cache_key p2 s2) /\
  (combined p1 s1 = combined p2 s2 ->
   10%N ∉ s1 -> 10%N ∉ s2 -> s1 = s2 /\ p1 = p2) /\
  (forall key,
     _get_cache_key p1 s1 = Ok key -> _get_cache_key p2 s2 = Ok key ->
     combined p1 s1 = combined p2 s2 \/
     exists b1 b2,
       Sha256.encode (combined p1 s1) = Some b1 /\
       Sha256.encode (combined p2 s2) = Some b2 /\
       b1 <> b2 /\ Sha256.hexdigest b1 = Sha256.hexdigest b2).
Proof.
  split; [|split].
  - intros H. unfold _get_cache_key. now rewrite H.
  - unfold combined, nl. revert s2.
    induction s1 as [|a s1 IH]; intros [|b s2] H H1 H2; simpl in *.
    + inversion H; auto.
    + inversion H; subst. exfalso. apply H2. left.
    + inversion H; subst. exfalso. apply H1. left.
    + inversion H; subst.
      destruct (IH s2) as [-> ->]; auto.
      * intros Hin. apply H1. now right.
      * intros Hin. apply H2. now right.
  - unfold _get_cache_key. intros key H1 H2.
    destruct (Sha256.encode (combined p1 s1)) as [b1|] eqn:E1; [|discriminate].
    destruct (Sha256.encode (combined p2 s2)) as [b2|] eqn:E2; [|discriminate].
    inversion H1 as [K1]. inversion H2 as [K2].
    destruct (decide (b1 = b2)) as [->|Hne].
    + left. now apply (encode_injective _ _ b2).
    + right. exists b1, b2. repeat split; auto. congruence.
Qed.

Lemma cache_key_by_concatenation_witness :
  combined (lit "c") (lit "a" ++ nl ++ lit "b") = combined (lit "b" ++ nl ++ lit "c") (lit "a") /\
  _get_cache_key (lit "c") (lit "a" ++ nl ++ lit "b") =
  _get_cache_key (lit "b" ++ nl ++ lit "c") (lit "a").
Proof.
  split; [reflexivity|].
  exact (proj1 (cache_key_by_concatenation (lit "c") (lit "a" ++ nl ++ lit "b")
                  (lit "b" ++ nl ++ lit "c") (lit "a")) eq_refl).
Defined.

(** ** The terminal outcomes of the retry controller *)

Section TerminalFacts.

Context (o : outside) (prompt system_prompt : str).

Lemma last_attempt_timed_out later self w sid :
  cache_miss self w prompt system_prompt ->
  session_id self = Some sid ->
  run o (length (calls w)) = TimedOut ->
  attempts_from o (max_retries self :: later) self w prompt system_prompt =
    (self, add_call (call_of self sid prompt system_prompt (cli_timeout self)) w,
     Ok timeout_envelope).
Proof.
  intros Hmiss Hsid Hrun. cbn [attempts_from].
  rewrite (invoke_miss o _ _ _ _ sid) by assumption. cbv zeta.
  rewrite Hrun. now rewrite Z.eqb_refl.
Qed.

Lemma last_attempt_errored later self w sid :
  cache_miss self w prompt system_prompt ->
  session_id self = Some sid ->
  process_error (run o (length (calls w))) ->
  exists m,
    attempts_from o (max_retries self :: later) self w prompt system_prompt =
      (self, add_call (call_of self sid prompt system_prompt (cli_timeout self)) w,
       Raise (RuntimeError (Chars (lit "Claude CLI failed after "
                                   ++ str_of_int (max_retries self)
                                   ++ lit " retries: ") :: m))).
Proof.
  intros Hmiss Hsid Hrun. cbn [attempts_from].
  rewrite (invoke_miss o _ _ _ _ sid) by assumption. cbv zeta.
  destruct (run o (length (calls w))) as [|returncode stdout stderr| |]; try easy.
  destruct (on_exit_process_error self
              (add_call (call_of self sid prompt system_prompt (cli_timeout self)) w)
              prompt system_prompt _ _ _ Hrun) as (m & Hexit & _).
  rewrite Hexit. exists m. now rewrite Z.eqb_refl.
Qed.

(** A process error whose report cannot be printed ends the controller
    with the exception of the print. *)
Lemma retry_cut attempt later self w sid :
  cache_miss self w prompt system_prompt ->
  session_id self = Some sid ->
  process_error (run o (length (calls w))) ->
  ~ error_shown (run o (length (calls w))) ->
  attempt <> max_retries self ->
  attempts_from o (attempt :: later) self w prompt system_prompt =
    (self, add_call (call_of self sid prompt system_prompt (cli_timeout self)) w,
     Raise UnicodeEncodeError).
Proof.
  intros Hmiss Hsid Hrun Hcut Hne. cbn [attempts_from].
  rewrite (invoke_miss o _ _ _ _ sid) by assumption. cbv zeta.
  destruct (run o (length (calls w))) as [|returncode stdout stderr| |]; try easy.
  destruct (on_exit_process_error self
              (add_call (call_of self sid prompt system_prompt (cli_timeout self)) w)
              prompt system_prompt _ _ _ Hrun) as (m & Hexit & Hpr).
  rewrite Hexit.
  destruct (Z.eqb_spec attempt (max_retries self)); [contradiction|].
  rewrite print_cut; [reflexivity|]. rewrite <- Hpr. exact Hcut.
Qed.

Lemma attempt_malformed attempt later self w sid stdout stderr :
  cache_miss self w prompt system_prompt ->
  session_id self = Some sid ->
  run o (length (calls w)) = Exited 0 stdout stderr ->
  Json.loads stdout = None ->
  encodes (slice_to 500 stdout) ->
  attempts_from o (attempt :: later) self w prompt system_prompt =
    (self, add_call (call_of self sid prompt system_prompt (cli_timeout self)) w,
     Ok json_decode_envelope).
Proof.
  intros Hmiss Hsid Hrun Hbad Henc. cbn [attempts_from].
  rewrite (invoke_miss o _ _ _ _ sid) by assumption. cbv zeta.
  rewrite Hrun.
  destruct (on_exit_malformed self
              (add_call (call_of self sid prompt system_prompt (cli_timeout self)) w)
              prompt system_prompt stdout stderr Hbad) as (e & Hexit & He & Hpr).
  rewrite Hexit.
  assert (Hprint : print (Chars (mark_cross ++ lit " Invalid JSON response: ")
                            :: message e) = Ok tt).
  { apply print_ok, printable_cons. split; [reflexivity | auto]. }
  destruct e; try discriminate; cbn [is_ValueError]; now rewrite Hprint.
Qed.

(** Every remaining attempt ends in a process error: the controller
    raises, with a [RuntimeError] after the last attempt, or before it
    with the [UnicodeEncodeError] of a report it could not print. *)
Lemma errors_are_fatal (n : nat) : forall (k : Z) self w sid,
  cache_miss self w prompt system_prompt ->
  session_id self = Some sid ->
  k + Z.of_nat n = max_retries self ->
  (forall i, (i <= n)%nat -> process_error (run o (length (calls w) + i))) ->
  exists w' e,
    attempts_from o (seqZ k (Z.of_nat (S n))) self w prompt system_prompt =
      (self, w', Raise e)
    /\ (e = UnicodeEncodeError \/
        exists m, e = RuntimeError (Chars (lit "Claude CLI failed after "
                                           ++ str_of_int (max_retries self)
                                           ++ lit " retries: ") :: m))
    /\ (length (calls w) < length (calls w') <= length (calls w) + S n)%nat
    /\ log_file w' = log_file w
    /\ cache_dir w' = cache_dir w
    /\ ((forall i, (i < n)%nat -> error_shown (run o (length (calls w) + i))) ->
        (exists m, e = RuntimeError (Chars (lit "Claude CLI failed after "
                                            ++ str_of_int (max_retries self)
                                            ++ lit " retries: ") :: m)) /\
        length (calls w') = (length (calls w) + S n)%nat /\
        length (sleeps w') = (length (sleeps w) + n)%nat).
Proof.
  induction n as [|n IH]; intros k self w sid Hmiss Hsid Hk Hrun.
  - assert (k = max_retries self) by lia. subst k.
    change (Z.of_nat 1) with 1. rewrite seqZ_cons by lia.
    assert (H0 : process_error (run o (length (calls w)))).
    { specialize (Hrun 0%nat). rewrite Nat.add_0_r in Hrun. apply Hrun. lia. }
    destruct (last_attempt_errored (seqZ (Z.succ (max_retries self)) (Z.pred 1))
                self w sid Hmiss Hsid H0) as (m & Hlast).
    eexists _, _. split; [exact Hlast|].
    split; [right; eauto|].
    split; [simpl; rewrite length_app; simpl; lia|].
    split; [reflexivity|]. split; [reflexivity|].
    intros _. split; [eauto|]. simpl. rewrite length_app. simpl. lia.
  - rewrite seqZ_cons by lia.
    replace (Z.pred (Z.of_nat (S (S n)))) with (Z.of_nat (S n)) by lia.
    assert (H0 : process_error (run o (length (calls w)))).
    { specialize (Hrun 0%nat). rewrite Nat.add_0_r in Hrun. apply Hrun. lia. }
    assert (Hne : k <> max_retries self) by lia.
    assert (Hdec : error_shown (run o (length (calls w))) \/
                   ~ error_shown (run o (length (calls w)))).
    { destruct (run o (length (calls w))) as [|returncode stdout stderr| |] eqn:Hr;
        try (now destruct H0).
      destruct (on_exit_process_error self w prompt system_prompt _ _ _ H0)
        as (m & _ & Hpr).
      destruct (print_cases (Chars (lit "   Error: ") :: slice_text 200 m))
        as [[Hp _]|[Hp _]]; [left | right]; now rewrite Hpr. }
    destruct Hdec as [Hshown | Hcut].
    + destruct (retry_step o prompt system_prompt k (seqZ (Z.succ k) (Z.of_nat (S n)))
                  self w sid Hmiss Hsid (or_intror (conj H0 Hshown)) Hne)
        as (t0 & Hstep & Hpe & _).
      rewrite (Hpe H0), set_cli_timeout_id in Hstep.
      set (w1 := add_sleep _ _) in Hstep.
      destruct (IH (Z.succ k) self w1 sid) as (w' & e & Heq & He & Hcalls & Hl & Hc & Hall).
      * rewrite <- (set_cli_timeout_id self).
        now apply (cache_miss_carries prompt system_prompt self w).
      * exact Hsid.
      * lia.
      * intros i Hi. subst w1. simpl. rewrite length_app. simpl.
        replace (length (calls w) + 1 + i)%nat with (length (calls w) + S i)%nat by lia.
        apply Hrun. lia.
      * exists w', e. rewrite Hstep. split; [exact Heq|].
        split; [exact He|].
        subst w1. simpl in *. rewrite length_app in Hcalls, Hall. simpl in *.
        split; [lia|]. split; [exact Hl|]. split; [exact Hc|].
        intros Hs. destruct Hall as (Hm & Hlen & Hsl).
        { intros i Hi.
          replace (length (calls w) + 1 + i)%nat with (length (calls w) + S i)%nat by lia.
          apply Hs. lia. }
        split; [exact Hm|]. rewrite length_app in Hsl. simpl in Hsl. lia.
    + rewrite (retry_cut k _ self w sid Hmiss Hsid H0 Hcut Hne).
      eexists _, _. split; [reflexivity|].
      split; [left; reflexivity|].
      split; [simpl; rewrite length_app; simpl; lia|].
      split; [reflexivity|]. split; [reflexivity|].
      intros Hs. exfalso. apply Hcut.
      specialize (Hs 0%nat). rewrite Nat.add_0_r in Hs. apply Hs. lia.
Qed.

End TerminalFacts.

(** ** The texts of the two synthetic envelopes *)

Lemma extract_timeout_text U :
  _extract_decision U timeout_text =
    Ok (hold_decision (lit "Analysis timeout after all retries")).
Proof. vm_compute. reflexivity. Qed.

Lemma extract_json_decode_text U :
  _extract_decision U json_decode_text =
    Ok (hold_decision (lit "Invalid response format")).
Proof. vm_compute. reflexivity. Qed.

(** ** The session after the retry controller *)

Lemma session_body_decides U o self w date prompt system_prompt
    self' w' response text d :
  _ainvoke_claude_with_retry o self w prompt system_prompt = (self', w', Ok response) ->
  get response (lit "result") (VStr []) = Ok (VStr text) ->
  _extract_decision U text = Ok d ->
  print_decision d = Ok tt ->
  session_body U o self w date prompt system_prompt =
    (self',
     add_log date (LogDecision d)
       (add_log date
          (LogAssistant (VStr text)
             match get response (lit "total_cost_usd") (VInt 0) with
             | Ok c => c
             | Raise _ => VInt 0
             end
             (session_id self')) w'),
     Ok tt).
Proof.
  intros Hr Hg He Hp. unfold session_body.
  rewrite Hr, Hg, He. now rewrite Hp.
Qed.

Lemma session_body_raises U o self w date prompt system_prompt self' w' e :
  _ainvoke_claude_with_retry o self w prompt system_prompt = (self', w', Raise e) ->
  session_body U o self w date prompt system_prompt = (self', w', Raise e).
Proof. intros Hr. unfold session_body. now rewrite Hr. Qed.

(** ** Exhausted retries and malformed output *)

(** [range(1, m + 1)] ends with [m]. *)
Lemma range_last m : 1 <= m -> seqZ 1 m = seqZ 1 (m - 1) ++ [m].
Proof.
  intros Hm. replace m with ((m - 1) + 1) at 1 by lia.
  rewrite seqZ_app by lia. f_equal.
  rewrite seqZ_cons by lia. rewrite seqZ_nil by lia. f_equal. lia.
Qed.

(** X16.  With [max_retries] below 1 the loop makes no attempt: the controller
    falls off its end and returns [None], on which the session raises. *)
Lemma no_attempt_returns_none U o self w prompt system_prompt date :
  max_retries self <= 0 ->
  _ainvoke_claude_with_retry o self w prompt system_prompt = (self, w, Ok VNone) /\
  session_body U o self w date prompt system_prompt = (self, w, Raise AttributeError).
Proof.
  intros Hm.
  assert (H : _ainvoke_claude_with_retry o self w prompt system_prompt = (self, w, Ok VNone)).
  { unfold _ainvoke_claude_with_retry. now rewrite seqZ_nil by lia. }
  split; [exact H|]. unfold session_body. now rewrite H.
Qed.

(** Every attempt times out: the controller returns the timeout envelope
    and the session body logs its hold decision. *)
Lemma retry_all_timeouts U o self w prompt system_prompt sid date :
  1 <= max_retries self ->
  session_id self = Some sid ->
  cache_miss self w prompt system_prompt ->
  (forall i, (i < Z.to_nat (max_retries self))%nat ->
             run o (length (calls w) + i) = TimedOut) ->
  exists t w',
    _ainvoke_claude_with_retry o self w prompt system_prompt =
      (set_cli_timeout t self, w', Ok timeout_envelope)
    /\ length (calls w') = (length (calls w) + Z.to_nat (max_retries self))%nat
    /\ log_file w' = log_file w
    /\ get timeout_envelope (lit "result") (VStr []) = Ok (VStr timeout_text)
    /\ get timeout_envelope (lit "error_type") VNone = Ok (VStr (lit "timeout"))
    /\ _extract_decision U timeout_text =
         Ok (hold_decision (lit "Analysis timeout after all retries"))
    /\ session_body U o self w date prompt system_prompt =
         (set_cli_timeout t self,
          add_log date
            (LogDecision (hold_decision (lit "Analysis timeout after all retries")))
            (add_log date (LogAssistant (VStr timeout_text) (VInt 0) (Some sid)) w'),
          Ok tt).
Proof.
  intros Hmax Hsid Hmiss Hrun.
  remember (Z.to_nat (max_retries self - 1)) as n eqn:En.
  assert (Hn : max_retries self = Z.of_nat n + 1) by lia.
  assert (Hn' : Z.to_nat (max_retries self) = S n) by lia.
  clear En.
  destruct (retriable_prefix o prompt system_prompt [max_retries self] n 1 self w sid)
    as (t & w1 & Heq & Hc & Hl & Hd & Hcalls & Hsl & _); auto.
  { intros i Hi. left. apply Hrun. lia. }
  { lia. }
  assert (Hretry : _ainvoke_claude_with_retry o self w prompt system_prompt =
            (set_cli_timeout t self,
             add_call (call_of (set_cli_timeout t self) sid prompt system_prompt t) w1,
             Ok timeout_envelope)).
  { unfold _ainvoke_claude_with_retry.
    rewrite (range_last (max_retries self)) by lia.
    replace (max_retries self - 1) with (Z.of_nat n) by lia.
    rewrite Heq.
    apply (last_attempt_timed_out o prompt system_prompt [] (set_cli_timeout t self) w1 sid).
    - now apply (cache_miss_carries prompt system_prompt self w).
    - exact Hsid.
    - rewrite Hcalls. apply Hrun. lia. }
  eexists _, _. split; [exact Hretry|].
  split; [simpl; rewrite length_app, Hcalls; simpl; lia|].
  split; [exact Hl|].
  split; [reflexivity|]. split; [reflexivity|].
  split; [apply extract_timeout_text|].
  rewrite (session_body_decides U o self w date prompt system_prompt _ _ _ _ _
             Hretry eq_refl (extract_timeout_text U) eq_refl).
  simpl. now rewrite Hsid.
Qed.

(** C2.  If every attempt up to [max_retries] times out, the retry
    controller returns (it does not raise) the synthetic envelope tagged
    [timeout]; its result text carries a hold decision with amount 0 and
    confidence 0.0; and the session goes on with that text as with any
    engine output: it logs it as the assistant's response and logs the
    hold decision. *)
Theorem timeout_exhaustion_holds U o self w prompt system_prompt sid date :
  1 <= max_retries self ->
  session_id self = Some sid ->
  cache_miss self w prompt system_prompt ->
  (forall i, (i < Z.to_nat (max_retries self))%nat ->
             run o (length (calls w) + i) = TimedOut) ->
  exists t w',
    _ainvoke_claude_with_retry o self w prompt system_prompt =
      (set_cli_timeout t self, w', Ok timeout_envelope)
    /\ length (calls w') = (length (calls w) + Z.to_nat (max_retries self))%nat
    /\ log_file w' = log_file w
    /\ get timeout_envelope (lit "result") (VStr []) = Ok (VStr timeout_text)
    /\ get timeout_envelope (lit "error_type") VNone = Ok (VStr (lit "timeout"))
    /\ _extract_decision U timeout_text =
         Ok (hold_decision (lit "Analysis timeout after all retries"))
    /\ session_body U o self w date prompt system_prompt =
         (set_cli_timeout t self,
          add_log date
            (LogDecision (hold_decision (lit "Analysis timeout after all retries")))
            (add_log date (LogAssistant (VStr timeout_text) (VInt 0) (Some sid)) w'),
          Ok tt).
Proof. apply retry_all_timeouts. Qed.

Lemma timeout_exhaustion_holds_witness :
  1 <= max_retries (sample_agent 3 600 false) /\
  exists t w',
    _ainvoke_claude_with_retry (always TimedOut) (sample_agent 3 600 false)
      empty_world (lit "user") (lit "system") =
      (set_cli_timeout t (sample_agent 3 600 false), w', Ok timeout_envelope).
Proof.
  split; [simpl; lia|].
  destruct (timeout_exhaustion_holds sample_symbols (always TimedOut)
              (sample_agent 3 600 false) empty_world (lit "user") (lit "system")
              (lit "0f8fad5b-d9cb-469f-a165-70867728950e") (lit "2025-10-14"))
    as (t & w' & H & _).
  - simpl; lia.
  - reflexivity.
  - left; reflexivity.
  - intros i _. reflexivity.
  - exists t, w'. exact H.
Defined.

(** Every attempt ends in a process error: the controller raises and the
    session body lets the error through. *)
Lemma retry_all_errors U o self w prompt system_prompt sid date :
  1 <= max_retries self ->
  session_id self = Some sid ->
  cache_miss self w prompt system_prompt ->
  (forall i, (i < Z.to_nat (max_retries self))%nat ->
             process_error (run o (length (calls w) + i))) ->
  exists w' e,
    _ainvoke_claude_with_retry o self w prompt system_prompt = (self, w', Raise e)
    /\ (e = UnicodeEncodeError \/
        exists m, e = RuntimeError (Chars (lit "Claude CLI failed after "
                                           ++ str_of_int (max_retries self)
                                           ++ lit " retries: ") :: m))
    /\ (length (calls w) < length (calls w')
        <= length (calls w) + Z.to_nat (max_retries self))%nat
    /\ log_file w' = log_file w
    /\ cache_dir w' = cache_dir w
    /\ session_body U o self w date prompt system_prompt = (self, w', Raise e)
    /\ ((forall i, (S i < Z.to_nat (max_retries self))%nat ->
                   error_shown (run o (length (calls w) + i))) ->
        (exists m, e = RuntimeError (Chars (lit "Claude CLI failed after "
                                            ++ str_of_int (max_retries self)
                                            ++ lit " retries: ") :: m)) /\
        length (calls w') = (length (calls w) + Z.to_nat (max_retries self))%nat).
Proof.
  intros Hmax Hsid Hmiss Hrun.
  remember (Z.to_nat (max_retries self - 1)) as n eqn:En.
  assert (Hn : max_retries self = Z.of_nat n + 1) by lia.
  assert (Hn' : Z.to_nat (max_retries self) = S n) by lia.
  clear En.
  destruct (errors_are_fatal o prompt system_prompt n 1 self w sid Hmiss Hsid)
    as (w' & e & Heq & He & Hcalls & Hl & Hc & Hall); [lia| |].
  { intros i Hi. apply Hrun. lia. }
  assert (Hretry : _ainvoke_claude_with_retry o self w prompt system_prompt =
                     (self, w', Raise e)).
  { unfold _ainvoke_claude_with_retry.
    replace (max_retries self) with (Z.of_nat (S n)) by lia. exact Heq. }
  exists w', e. rewrite Hn'.
  split; [exact Hretry|]. split; [exact He|]. split; [exact Hcalls|].
  split; [exact Hl|]. split; [exact Hc|].
  split; [now apply session_body_raises|].
  intros Hs. destruct Hall as (Hm & Hlen & _); [|auto].
  intros i Hi. apply Hs. lia.
Qed.

(** C3.  If every attempt up to [max_retries] ends in a process error (a
    non-zero exit status or an envelope that reports an error), the retry
    controller raises: no hold envelope is substituted, the exception
    leaves the body of the session, and no record is added to the log.
    The exception is the [RuntimeError] raised after the last of
    [max_retries] calls; when the line that reports an error before a
    retry cannot be printed, it is the [UnicodeEncodeError] of that
    print, raised earlier. *)
Theorem process_error_exhaustion_raises U o self w prompt system_prompt sid date :
  1 <= max_retries self ->
  session_id self = Some sid ->
  cache_miss self w prompt system_prompt ->
  (forall i, (i < Z.to_nat (max_retries self))%nat ->
             process_error (run o (length (calls w) + i))) ->
  exists w' e,
    _ainvoke_claude_with_retry o self w prompt system_prompt = (self, w', Raise e)
    /\ (e = UnicodeEncodeError \/
        exists m, e = RuntimeError (Chars (lit "Claude CLI failed after "
                                           ++ str_of_int (max_retries self)
                                           ++ lit " retries: ") :: m))
    /\ (length (calls w) < length (calls w')
        <= length (calls w) + Z.to_nat (max_retries self))%nat
    /\ log_file w' = log_file w
    /\ cache_dir w' = cache_dir w
    /\ session_body U o self w date prompt system_prompt = (self, w', Raise e)
    /\ ((forall i, (S i < Z.to_nat (max_retries self))%nat ->
                   error_shown (run o (length (calls w) + i))) ->
        (exists m, e = RuntimeError (Chars (lit "Claude CLI failed after "
                                            ++ str_of_int (max_retries self)
                                            ++ lit " retries: ") :: m)) /\
        length (calls w') = (length (calls w) + Z.to_nat (max_retries self))%nat).
Proof. apply retry_all_errors. Qed.

Lemma process_error_exhaustion_raises_witness :
  1 <= max_retries (sample_agent 3 600 false) /\
  exists w' e,
    _ainvoke_claude_with_retry (always (Exited 1 [] (lit "crash")))
      (sample_agent 3 600 false) empty_world (lit "user") (lit "system") =
      (sample_agent 3 600 false, w', Raise e).
Proof.
  split; [simpl; lia|].
  destruct (process_error_exhaustion_raises sample_symbols
              (always (Exited 1 [] (lit "crash")))
              (sample_agent 3 600 false) empty_world (lit "user") (lit "system")
              (lit "0f8fad5b-d9cb-469f-a165-70867728950e") (lit "2025-10-14"))
    as (w' & e & H & _).
  - simpl; lia.
  - reflexivity.
  - left; reflexivity.
  - intros i _. left. simpl. lia.
  - exists w', e. exact H.
Defined.

(** When a run exits with status 0 and its standard output is not valid
    JSON, the retry controller returns at once, whatever the number of
    the attempt: it returns (it does not raise) the hold envelope with
    [is_error] true, the malformed run is its last call, and it does not
    sleep after it.  The result text of the envelope carries a hold
    decision.  The output is text decoded from a pipe, so that the line
    that shows its first 500 characters can be printed. *)
Lemma malformed_output_holds U o self w prompt system_prompt sid (n : nat) stdout stderr :
  Z.of_nat n < max_retries self ->
  session_id self = Some sid ->
  cache_miss self w prompt system_prompt ->
  (forall i, (i < n)%nat -> retriable (run o (length (calls w) + i))) ->
  run o (length (calls w) + n) = Exited 0 stdout stderr ->
  Json.loads stdout = None ->
  encodes stdout ->
  exists t w',
    _ainvoke_claude_with_retry o self w prompt system_prompt =
      (set_cli_timeout t self, w', Ok json_decode_envelope)
    /\ length (calls w') = (length (calls w) + n + 1)%nat
    /\ length (sleeps w') = (length (sleeps w) + n)%nat
    /\ get json_decode_envelope (lit "is_error") VNone = Ok (VBool true)
    /\ get json_decode_envelope (lit "result") (VStr []) = Ok (VStr json_decode_text)
    /\ _extract_decision U json_decode_text =
         Ok (hold_decision (lit "Invalid response format")).
Proof.
  intros Hn Hsid Hmiss Hpre Hrun Hbad Henc.
  assert (Hsplit : seqZ 1 (max_retries self) =
            seqZ 1 (Z.of_nat n) ++
              (1 + Z.of_nat n) :: seqZ (Z.succ (1 + Z.of_nat n))
                                       (Z.pred (max_retries self - Z.of_nat n))).
  { replace (max_retries self) with (Z.of_nat n + (max_retries self - Z.of_nat n)) at 1 by lia.
    rewrite seqZ_app by lia. f_equal. now rewrite seqZ_cons by lia. }
  destruct (retriable_prefix o prompt system_prompt
              ((1 + Z.of_nat n) :: seqZ (Z.succ (1 + Z.of_nat n))
                                        (Z.pred (max_retries self - Z.of_nat n)))
              n 1 self w sid)
    as (t & w1 & Heq & Hc & Hl & Hd & Hcalls & Hsl & _); auto; [lia|].
  exists t. eexists. split.
  - unfold _ainvoke_claude_with_retry. rewrite Hsplit, Heq.
    apply (attempt_malformed o prompt system_prompt _ _ (set_cli_timeout t self) w1 sid stdout stderr).
    + now apply (cache_miss_carries prompt system_prompt self w).
    + exact Hsid.
    + now rewrite Hcalls.
    + exact Hbad.
    + unfold slice_to. now apply encodes_take.
  - simpl. rewrite length_app, Hcalls, Hsl. simpl.
    split; [lia|]. split; [lia|]. split; [reflexivity|]. split; [reflexivity|].
    apply extract_json_decode_text.
Qed.

(** C4.  Output that can be parsed but is not an envelope is not turned
    into the hold envelope: for a process that exits with status 0 and
    prints the JSON array [[]], [json.loads] returns a list,
    [response.get] raises [AttributeError], no handler of the controller
    matches it, and it leaves the controller after the first call; the
    session logs the error, raises and records no decision. *)
Theorem non_object_output_raises :
  Json.loads (lit "[]") = Some (VList []) /\
  (exists w',
     _ainvoke_claude_with_retry (always (Exited 0 (lit "[]") []))
       (sample_agent 3 600 false) empty_world (lit "user") (lit "system") =
       (sample_agent 3 600 false, w', Raise AttributeError) /\
     length (calls w') = 1%nat) /\
  (run_trading_session sample_symbols (always (Exited 0 (lit "[]") []))
     (sample_agent 3 600 false) empty_world (lit "2025-10-14")).2 =
    Raise AttributeError /\
  decisions (log_file
    (run_trading_session sample_symbols (always (Exited 0 (lit "[]") []))
       (sample_agent 3 600 false) empty_world (lit "2025-10-14")).1.2) = [].
Proof.
  split; [vm_compute; reflexivity|].
  split; [eexists; split; vm_compute; reflexivity|].
  split; vm_compute; reflexivity.
Qed.

(** ** Validation and extraction *)

Section ExtractionFacts.

Context (U : list str).

Lemma in_strs_str v l :
  in_strs v l = true -> exists s, v = VStr s /\ s ∈ l.
Proof.
  unfold in_strs. rewrite existsb_exists. intros (s & Hin & Heq).
  destruct v; try discriminate. simpl in Heq. apply str_eqb_eq in Heq. subst.
  eexists; split; [reflexivity|]. now apply list_elem_of_In.
Qed.

(** What validation guarantees when it answers [True]. *)
Lemma validate_true_shape d :
  _validate_decision U d = Ok true ->
  (forall f, f ∈ required_fields -> is_Some (dict_get f d)) /\
  exists a, dict_get (lit "action") d = Some (VStr a) /\ a ∈ actions.
Proof.
  unfold _validate_decision. intros H.
  destruct (forallb _ required_fields) eqn:Hall; [|discriminate].
  cbn [negb] in H. split.
  - intros f Hf. rewrite forallb_forall in Hall.
    apply list_elem_of_In in Hf. specialize (Hall f Hf).
    unfold dict_has in Hall. destruct (dict_get f d); [eauto | discriminate].
  - unfold dict_item in H.
    destruct (dict_get (lit "action") d) as [action|]; [|discriminate].
    cbn [bind] in H.
    destruct (in_strs action actions) eqn:Hact; [|now cbn [negb] in H].
    apply in_strs_str in Hact as (a & -> & Ha). eauto.
Qed.

Lemma default_hold_valid : _validate_decision U default_hold = Ok true.
Proof. reflexivity. Qed.

Lemma try_candidate_valid text d :
  try_candidate U text = Ok (Some d) -> _validate_decision U d = Ok true.
Proof.
  unfold try_candidate. intros H.
  destruct (Json.loads text) as [[| | | | | |d']|]; try discriminate.
  - destruct (_validate_decision U d') as [[|]|] eqn:Hv; simpl in H; try discriminate.
    now inversion H; subst.
  - destruct (Json.refused text); discriminate.
Qed.

Lemma try_search_valid r text d :
  try_search U r text = Ok (Some d) -> _validate_decision U d = Ok true.
Proof.
  unfold try_search. intros H.
  destruct (Re.search r text) as [[whole [g|]]|]; try discriminate.
  now apply try_candidate_valid in H.
Qed.

Lemma try_objects_valid objs d :
  try_objects U objs = Ok (Some d) -> _validate_decision U d = Ok true.
Proof.
  induction objs as [|obj rest IH]; simpl; [discriminate|]. intros H.
  destruct (try_candidate U obj) as [[d'|]|] eqn:Hc; simpl in H; try discriminate.
  - inversion H; subst. now apply try_candidate_valid in Hc.
  - now apply IH.
Qed.

(** The order of the strategies and the fallback. *)
Lemma extraction_order text :
  _extract_decision U text =
    match try_search U decision_block text with
    | Raise e => Raise e
    | Ok (Some d) => Ok d
    | Ok None =>
        match try_search U fenced_block text with
        | Raise e => Raise e
        | Ok (Some d) => Ok d
        | Ok None =>
            match try_objects U (Re.findall action_object text) with
            | Raise e => Raise e
            | Ok (Some d) => Ok d
            | Ok None => Ok default_hold
            end
        end
    end.
Proof.
  unfold _extract_decision.
  destruct (try_search U decision_block text) as [[d|]|];
    [reflexivity | | reflexivity].
  cbn [bind].
  destruct (try_search U fenced_block text) as [[d|]|];
    [reflexivity | | reflexivity].
  cbn [bind].
  destruct (try_objects U _) as [[d|]|]; reflexivity.
Qed.

Lemma extract_valid text d :
  _extract_decision U text = Ok d -> _validate_decision U d = Ok true.
Proof.
  rewrite extraction_order. intros H.
  destruct (try_search U decision_block text) as [[d1|]|] eqn:H1; try discriminate.
  { inversion H; subst. now apply try_search_valid in H1. }
  destruct (try_search U fenced_block text) as [[d2|]|] eqn:H2; try discriminate.
  { inversion H; subst. now apply try_search_valid in H2. }
  destruct (try_objects U _) as [[d3|]|] eqn:H3; try discriminate.
  { inversion H; subst. now apply try_objects_valid in H3. }
  inversion H; subst. apply default_hold_valid.
Qed.

End ExtractionFacts.


(** ** What the validator accepts *)

Lemma float_compare_antisym a b :
  float_compare b a = option_map CompOpp (float_compare a b).
Proof.
  destruct a as [|n1|n1 m1 e1], b as [|n2|n2 m2 e2]; simpl; auto.
  - now destruct n1, n2.
  - now destruct n1.
  - now destruct n2.
  - rewrite (Z.min_comm e2 e1). now rewrite Z.compare_antisym.
Qed.

Lemma float_le_iff a b :
  float_le a b = true <->
  float_compare a b = Some Lt \/ float_compare a b = Some Eq.
Proof.
  unfold float_le. destruct (float_compare a b) as [[| |]|]; split; intros H;
    auto; try discriminate; destruct H; discriminate.
Qed.

(** Without NaN, not below or equal means above. *)
Lemma float_not_le a b :
  a <> FNan -> b <> FNan ->
  float_le a b = false -> float_compare b a = Some Lt.
Proof.
  intros Ha Hb. rewrite float_compare_antisym. unfold float_le.
  destruct (float_compare a b) as [[| |]|] eqn:Hc; try discriminate; auto.
  destruct a, b; try congruence; discriminate.
Qed.

Lemma as_float_number v f : as_float v = Some f -> is_int_or_float v = true.
Proof. destruct v; simpl; congruence. Qed.

Lemma number_as_float v : is_int_or_float v = true -> exists f, as_float v = Some f.
Proof. destruct v; simpl; try discriminate; eauto. Qed.

Lemma as_float_nan v : as_float v = Some FNan -> v = VFloat FNan.
Proof.
  destruct v; simpl; try discriminate. congruence.
Qed.

Lemma in_strs_iff v l : in_strs v l = true <-> exists s, v = VStr s /\ s ∈ l.
Proof.
  split; [apply in_strs_str|]. intros (s & -> & Hs).
  unfold in_strs. rewrite existsb_exists. exists s.
  split; [now apply list_elem_of_In | apply str_eqb_refl].
Qed.

Lemma eq_str_iff v s : eq_str v s = true <-> v = VStr s.
Proof.
  destruct v; simpl; try (split; [discriminate | congruence]).
  rewrite str_eqb_eq. split; congruence.
Qed.

(** What showing a value does, in terms of [refusal]. *)
Lemma str_of_refusal v :
  match refusal v with
  | Some e =>
      str_of v = Raise e \/
      exists p, str_of v = Ok p /\ encodable p = false /\ e = UnicodeEncodeError
  | None => exists p, str_of v = Ok p /\ encodable p = true
  end.
Proof.
  destruct v as [|b|n|f|s|l|d]; cbn [refusal str_of holds_long_int];
    try (eexists; split; [reflexivity|]; reflexivity).
  - eexists; split; [reflexivity|]. destruct b; vm_compute; reflexivity.
  - destruct (over_max_str_digits n); [left; reflexivity|].
    eexists; split; [reflexivity|]. apply encodable_chars, str_of_int_encodes.
  - destruct (Sha256.encode s) eqn:He.
    + eexists; split; [reflexivity|]. cbn [encodable]. now rewrite He.
    + right. eexists; split; [reflexivity|]. cbn [encodable]. now rewrite He.
  - change (existsb holds_long_int l) with (holds_long_int (VList l)).
    destruct (holds_long_int (VList l)); [left; reflexivity|].
    eexists; split; reflexivity.
  - change (existsb (fun kv => holds_long_int (snd kv)) d)
      with (holds_long_int (VDict d)).
    destruct (holds_long_int (VDict d)); [left; reflexivity|].
    eexists; split; reflexivity.
Qed.

(** A line that reports a rejected value and answers [False]. *)
Lemma report_line opening v closing :
  encodes opening -> printable closing ->
  (let* shown := str_of v in
   let* _ := print (Chars opening :: shown :: closing) in
   Ok false) =
  match refusal v with
  | Some e => Raise e
  | None => Ok false
  end.
Proof.
  intros Ho Hc. pose proof (str_of_refusal v) as H.
  destruct (refusal v) as [e|].
  - destruct H as [-> | (p & -> & Hp & ->)]; [reflexivity|].
    cbn [bind]. rewrite print_cut; [reflexivity|].
    intros Hpr. apply printable_cons in Hpr as [_ Hpr].
    apply printable_cons in Hpr as [Hpr _]. congruence.
  - destruct H as (p & -> & Hp). cbn [bind]. rewrite print_ok; [reflexivity|].
    apply printable_cons. split; [now apply encodable_chars|].
    apply printable_cons. split; [exact Hp | exact Hc].
Qed.

Lemma report_line_not_true opening v closing :
  (let* shown := str_of v in
   let* _ := print (Chars opening :: shown :: closing) in
   Ok false) <> Ok true.
Proof.
  destruct (str_of v) as [p|e]; cbn [bind]; [|discriminate].
  destruct (print _) as [u|e]; cbn [bind]; discriminate.
Qed.

(** X1.  Apart from an amount that is NaN, the validator answers [True]
    exactly on the decisions the spec accepts. *)
Lemma validate_characterised U d :
  dict_get (lit "amount") d <> Some (VFloat FNan) ->
  _validate_decision U d = Ok true <-> acceptable U d.
Proof.
  intros Hnan. unfold _validate_decision, acceptable, dict_item.
  destruct (forallb (fun field => dict_has field d) required_fields) eqn:Hall.
  2:{ split; [discriminate|]. intros [Hf _]. exfalso.
      apply not_true_iff_false in Hall. apply Hall.
      rewrite forallb_forall. intros f Hin. apply list_elem_of_In in Hin.
      unfold dict_has. now destruct (Hf f Hin) as (v & ->). }
  assert (Hfields : forall f, f ∈ required_fields -> is_Some (dict_get f d)).
  { intros f Hf. rewrite forallb_forall in Hall.
    apply list_elem_of_In in Hf. specialize (Hall f Hf).
    unfold dict_has in Hall. destruct (dict_get f d); [eauto | discriminate]. }
  cbn [negb].
  destruct (Hfields (lit "action")) as (action & Eaction); [set_solver|].
  destruct (Hfields (lit "symbol")) as (symbol & Esymbol); [set_solver|].
  destruct (Hfields (lit "amount")) as (amount & Eamount); [set_solver|].
  destruct (Hfields (lit "confidence")) as (conf & Econf); [set_solver|].
  unfold dict_get_default. rewrite Eaction, Esymbol, Eamount, Econf. cbn [bind].
  assert (Hamount : amount <> VFloat FNan) by congruence.
  destruct (in_strs action actions) eqn:Hact; cbn [negb].
  2:{ split; [discriminate|]. intros (_ & a & Ea & Ha & _).
      inversion Ea; subst. apply not_true_iff_false in Hact. exfalso. apply Hact.
      apply in_strs_iff. eauto. }
  apply in_strs_iff in Hact as (a & -> & Ha).
  destruct (eq_str (VStr a) (lit "hold")) eqn:Hhold.
  { apply eq_str_iff in Hhold. inversion Hhold; subst.
    split; [|reflexivity]. intros _. split; [exact Hfields|].
    eexists. split; [reflexivity|]. split; [exact Ha|]. congruence. }
  assert (Hne : a <> lit "hold").
  { intros ->. simpl in Hhold. now rewrite str_eqb_refl in Hhold. }
  destruct (in_strs symbol U) eqn:Hsym; cbn [negb].
  2:{ split; [intros H; now apply report_line_not_true in H|]. intros (_ & a' & Ea & _ & Hrest).
      inversion Ea; subst. destruct (Hrest Hne) as ((sy & Es & Hs) & _).
      inversion Es; subst. apply not_true_iff_false in Hsym. exfalso. apply Hsym.
      apply in_strs_iff. eauto. }
  apply in_strs_iff in Hsym as (sy & -> & Hsy).
  destruct (is_int_or_float amount) eqn:Hnum; cbn [negb bind].
  2:{ split; [intros H; now apply report_line_not_true in H|]. intros (_ & a' & Ea & _ & Hrest).
      inversion Ea; subst. destruct (Hrest Hne) as (_ & (am & Eam & f & Hf & _) & _).
      inversion Eam; subst. apply as_float_number in Hf. congruence. }
  destruct (number_as_float _ Hnum) as (fa & Hfa).
  unfold py_le at 1. rewrite Hfa. cbn [as_float bind Z.ltb Z.compare Z.abs_N].
  destruct (float_le fa (FFin false 0 0)) eqn:Hle.
  { split; [intros H; now apply report_line_not_true in H|]. intros (_ & a' & Ea & _ & Hrest).
    inversion Ea; subst. destruct (Hrest Hne) as (_ & (am & Eam & f & Hf & Hpos) & _).
    inversion Eam; subst. rewrite Hfa in Hf. inversion Hf; subst.
    apply float_le_iff in Hle. rewrite float_compare_antisym in Hle.
    unfold zero in Hpos. rewrite Hpos in Hle. simpl in Hle.
    destruct Hle; discriminate. }
  assert (Hpos : positive_number amount).
  { exists fa. split; [exact Hfa|].
    apply (float_not_le fa zero); [|discriminate|exact Hle].
    intros ->. apply as_float_nan in Hfa. contradiction. }
  unfold py_le. cbn [as_float].
  destruct (as_float conf) as [fc|] eqn:Hfc.
  2:{ cbn [bind]. split; [discriminate|]. intros (_ & a' & Ea & _ & Hrest).
      inversion Ea; subst. destruct (Hrest Hne) as (_ & _ & (c & Ec & f & Hf & _)).
      inversion Ec; subst. congruence. }
  cbn [bind].
  destruct (float_le zero fc) eqn:Hlo.
  2:{ cbn [bind negb]. split; [intros H; now apply report_line_not_true in H|]. intros (_ & a' & Ea & _ & Hrest).
      inversion Ea; subst. destruct (Hrest Hne) as (_ & _ & (c & Ec & f & Hf & Hz & _)).
      inversion Ec; subst. rewrite Hfc in Hf. inversion Hf; subst.
      apply float_le_iff in Hz. congruence. }
  cbn [bind].
  destruct (float_le fc one) eqn:Hhi; cbn [negb].
  2:{ split; [intros H; now apply report_line_not_true in H|]. intros (_ & a' & Ea & _ & Hrest).
      inversion Ea; subst. destruct (Hrest Hne) as (_ & _ & (c & Ec & f & Hf & _ & Ho)).
      inversion Ec; subst. rewrite Hfc in Hf. inversion Hf; subst.
      apply float_le_iff in Ho. congruence. }
  split; [|reflexivity]. intros _. split; [exact Hfields|].
  exists a. split; [reflexivity|]. split; [exact Ha|]. intros _.
  split; [eauto|]. split; [eauto|].
  exists conf. split; [reflexivity|]. exists fc. split; [exact Hfc|].
  split; now apply float_le_iff.
Qed.

(** X3.  A buy or sell decision whose symbol is not in the universe is
    never accepted, whatever its other fields: the validator answers
    [False], unless the line that reports the symbol cannot be printed,
    in which case the exception of that line is raised. *)
Lemma foreign_symbol_rejected U d a :
  dict_get (lit "action") d = Some (VStr a) ->
  a <> lit "hold" ->
  (forall symbol, dict_get (lit "symbol") d = Some (VStr symbol) -> symbol ∉ U) ->
  _validate_decision U d <> Ok true /\
  (_validate_decision U d = Ok false \/
   exists symbol e,
     dict_get (lit "symbol") d = Some symbol /\ refusal symbol = Some e /\
     _validate_decision U d = Raise e) /\
  ((forall symbol, dict_get (lit "symbol") d = Some symbol -> refusal symbol = None) ->
   _validate_decision U d = Ok false).
Proof.
  intros Ha Hne Hsym.
  assert (H : _validate_decision U d = Ok false \/
              exists symbol e,
                dict_get (lit "symbol") d = Some symbol /\ refusal symbol = Some e /\
                _validate_decision U d = Raise e).
  { unfold _validate_decision, dict_item.
    destruct (forallb (fun field => dict_has field d) required_fields) eqn:Hall;
      [|left; reflexivity].
    cbn [negb]. rewrite Ha. cbn [bind].
    destruct (in_strs (VStr a) actions); [|left; reflexivity]. cbn [negb].
    destruct (eq_str (VStr a) (lit "hold")) eqn:Hh.
    { apply eq_str_iff in Hh. congruence. }
    rewrite forallb_forall in Hall.
    assert (Hs : dict_has (lit "symbol") d = true) by (apply Hall; simpl; auto).
    unfold dict_has in Hs.
    destruct (dict_get (lit "symbol") d) as [symbol|] eqn:Es; [|discriminate].
    cbn [bind].
    destruct (in_strs symbol U) eqn:Hin.
    { apply in_strs_iff in Hin as (sy & -> & Hin). now apply Hsym in Hin. }
    cbn [negb].
    rewrite (report_line (mark_warning ++ lit " Invalid symbol: ") symbol
               [Chars (lit " not in NASDAQ 100")]) by (discriminate || reflexivity).
    destruct (refusal symbol) as [e|] eqn:Hr; [right; eauto | left; reflexivity]. }
  split; [|split; [exact H|]].
  - destruct H as [-> | (symbol & e & _ & _ & ->)]; discriminate.
  - intros Hshown. destruct H as [H | (symbol & e & Es & Hr & _)]; [exact H|].
    rewrite (Hshown _ Es) in Hr. discriminate.
Qed.

(** ** The exceptions of the extraction *)

Section ExceptionFacts.

Context (U : list str).

Lemma py_le_raises a b e : py_le a b = Raise e -> e = TypeError.
Proof.
  unfold py_le. destruct (as_float a), (as_float b); intros He; inversion He; auto.
Qed.

(** When the validator raises, and what. *)
Lemma validator_raises d e :
  _validate_decision U d = Raise e <->
  trading d /\
  exists symbol amount confidence,
    dict_get (lit "symbol") d = Some symbol /\
    dict_get (lit "amount") d = Some amount /\
    dict_get (lit "confidence") d = Some confidence /\
    ((~ known_symbol U d /\ refusal symbol = Some e) \/
     (known_symbol U d /\ ~ passing_amount d /\ refusal amount = Some e) \/
     (known_symbol U d /\ passing_amount d /\
      as_float confidence = None /\ e = TypeError) \/
     (known_symbol U d /\ passing_amount d /\
      out_of_range confidence /\ refusal confidence = Some e)).
Proof.
  unfold _validate_decision, trading, dict_item.
  destruct (forallb (fun field => dict_has field d) required_fields) eqn:Hall.
  2:{ split; [discriminate|]. intros ((Hf & _) & _). exfalso.
      apply not_true_iff_false in Hall. apply Hall.
      rewrite forallb_forall. intros f Hin. apply list_elem_of_In in Hin.
      unfold dict_has. now destruct (Hf f Hin) as (v & ->). }
  assert (Hfields : forall f, f ∈ required_fields -> is_Some (dict_get f d)).
  { intros f Hf. rewrite forallb_forall in Hall.
    apply list_elem_of_In in Hf. specialize (Hall f Hf).
    unfold dict_has in Hall. destruct (dict_get f d); [eauto | discriminate]. }
  cbn [negb].
  destruct (Hfields (lit "action")) as (action & Eaction); [set_solver|].
  destruct (Hfields (lit "symbol")) as (symbol & Esymbol); [set_solver|].
  destruct (Hfields (lit "amount")) as (amount & Eamount); [set_solver|].
  destruct (Hfields (lit "confidence")) as (conf & Econf); [set_solver|].
  unfold dict_get_default. rewrite Eaction, Esymbol, Eamount, Econf. cbn [bind].
  destruct (in_strs action actions) eqn:Hact; cbn [negb].
  2:{ split; [discriminate|]. intros ((_ & a & Ea & Ha) & _).
      inversion Ea; subst. apply not_true_iff_false in Hact. exfalso. apply Hact.
      apply in_strs_iff. exists a. split; [reflexivity|].
      unfold actions. destruct Ha as [-> | ->]; set_solver. }
  apply in_strs_iff in Hact as (a & -> & Ha).
  destruct (eq_str (VStr a) (lit "hold")) eqn:Hhold.
  { apply eq_str_iff in Hhold. inversion Hhold; subst.
    split; [discriminate|]. intros ((_ & a & Ea & Ha') & _).
    inversion Ea; subst. destruct Ha'; discriminate. }
  assert (Hbs : a = lit "buy" \/ a = lit "sell").
  { unfold actions in Ha. rewrite !elem_of_cons in Ha.
    destruct Ha as [?|[?|[->|Ha]]]; auto;
      [simpl in Hhold; now rewrite str_eqb_refl in Hhold | now apply elem_of_nil in Ha]. }
  assert (Htr : (forall f, f ∈ required_fields -> is_Some (dict_get f d)) /\
                exists a0, Some (VStr a) = Some (VStr a0) /\
                           (a0 = lit "buy" \/ a0 = lit "sell")) by eauto.
  assert (Hfill : forall P : value -> value -> value -> Prop,
            (exists s0 a0 c0, Some symbol = Some s0 /\ Some amount = Some a0 /\
                              Some conf = Some c0 /\ P s0 a0 c0) <->
            P symbol amount conf).
  { intros P. split.
    - intros (s0 & a0 & c0 & E1 & E2 & E3 & HP). congruence.
    - intros HP. exists symbol, amount, conf. auto. }
  rewrite Hfill.
  destruct (in_strs symbol U) eqn:Hsym; cbn [negb].
  2:{ assert (Hnk : ~ known_symbol U d).
      { intros (sy & Es & Hs). rewrite Esymbol in Es. inversion Es; subst.
        apply not_true_iff_false in Hsym. apply Hsym. apply in_strs_iff. eauto. }
      rewrite (report_line (mark_warning ++ lit " Invalid symbol: ") symbol
                 [Chars (lit " not in NASDAQ 100")]) by (discriminate || reflexivity).
      split.
      - intros H. split; [exact Htr|]. left. split; [exact Hnk|].
        destruct (refusal symbol); [congruence | discriminate].
      - intros (_ & [(_ & ->) | [(Hk & _) | [(Hk & _) | (Hk & _)]]]);
          [reflexivity | contradiction..]. }
  assert (Hk : known_symbol U d).
  { apply in_strs_iff in Hsym as (sy & -> & Hsy). exists sy. auto. }
  assert (Hbad : (if negb (is_int_or_float amount) then Ok true
                  else py_le amount (VInt 0)) =
                 Ok (match as_float amount with
                     | Some f => float_le f zero
                     | None => true
                     end)).
  { destruct (is_int_or_float amount) eqn:Hnum; cbn [negb].
    - destruct (number_as_float _ Hnum) as (fa & Hfa).
      unfold py_le. rewrite Hfa. reflexivity.
    - destruct (as_float amount) eqn:Hfa; [|reflexivity].
      apply as_float_number in Hfa. congruence. }
  rewrite Hbad. cbn [bind].
  destruct (match as_float amount with Some f => float_le f zero | None => true end)
    eqn:Hrej.
  { assert (Hnp : ~ passing_amount d).
    { intros (am & f & Eam & Hf & Hpos). rewrite Eamount in Eam.
      inversion Eam; subst. rewrite Hf in Hrej. congruence. }
    rewrite (report_line (mark_warning ++ lit " Invalid amount: ") amount [])
      by (discriminate || reflexivity).
    split.
    - intros H. split; [exact Htr|]. right. left. split; [exact Hk|].
      split; [exact Hnp|].
      destruct (refusal amount); [congruence | discriminate].
    - intros (_ & [(Hnk & _) | [(_ & _ & ->) | [(_ & Hp & _) | (_ & Hp & _)]]]);
        [contradiction | reflexivity | contradiction..]. }
  assert (Hp : passing_amount d).
  { destruct (as_float amount) as [fa|] eqn:Hfa; [|discriminate].
    exists amount, fa. auto. }
  unfold py_le. cbn [as_float].
  destruct (as_float conf) as [fc|] eqn:Hfc; cbn [bind].
  2:{ split.
      - intros H. inversion H; subst. split; [exact Htr|]. right. right. left. auto.
      - intros (_ & [(Hnk & _) | [(_ & Hnp & _) | [(_ & _ & _ & ->) | (_ & _ & Ho & _)]]]);
          [contradiction | contradiction | reflexivity |].
        destruct Ho as (f & Hf & _). congruence. }
  destruct (float_le zero fc) eqn:Hlo; cbn [bind].
  - destruct (float_le fc one) eqn:Hhi; cbn [negb].
    + split; [discriminate|].
      intros (_ & [(Hnk & _) | [(_ & Hnp & _) | [(_ & _ & Hn & _) | (_ & _ & Ho & _)]]]);
        [contradiction | contradiction | congruence |].
      destruct Ho as (f & Hf & [Ho | Ho]); congruence.
    + rewrite (report_line (mark_warning ++ lit " Invalid confidence: ") conf [])
        by (discriminate || reflexivity).
      split.
      * intros H. split; [exact Htr|]. right. right. right.
        split; [exact Hk|]. split; [exact Hp|].
        split; [exists fc; auto|].
        destruct (refusal conf); [congruence | discriminate].
      * intros (_ & [(Hnk & _) | [(_ & Hnp & _) | [(_ & _ & Hn & _) | (_ & _ & _ & ->)]]]);
          [contradiction | contradiction | congruence | reflexivity].
  - cbn [negb].
    rewrite (report_line (mark_warning ++ lit " Invalid confidence: ") conf [])
      by (discriminate || reflexivity).
    split.
    + intros H. split; [exact Htr|]. right. right. right.
      split; [exact Hk|]. split; [exact Hp|].
      split; [exists fc; auto|].
      destruct (refusal conf); [congruence | discriminate].
    + intros (_ & [(Hnk & _) | [(_ & Hnp & _) | [(_ & _ & Hn & _) | (_ & _ & _ & ->)]]]);
        [contradiction | contradiction | congruence | reflexivity].
Qed.

Lemma refusal_kinds v e : refusal v = Some e -> e = ValueError \/ e = UnicodeEncodeError.
Proof.
  destruct v; cbn [refusal]; try discriminate;
    try (destruct (holds_long_int _); [|discriminate]; inversion 1; auto).
  destruct (Sha256.encode s); [discriminate|]. inversion 1; auto.
Qed.

(** The validator raises the [TypeError] of a comparison, or what the
    line that reports a rejected value raises. *)
Lemma validate_raises d e :
  _validate_decision U d = Raise e ->
  e = TypeError \/ e = ValueError \/ e = UnicodeEncodeError.
Proof.
  intros H. apply validator_raises in H
    as (_ & symbol & amount & conf & _ & _ & _ &
        [(_ & Hr) | [(_ & _ & Hr) | [(_ & _ & _ & ->) | (_ & _ & _ & Hr)]]]);
    auto; apply refusal_kinds in Hr; tauto.
Qed.

(** On a candidate that starts with a brace, the [try] does what its
    text says and nothing else: a decoding error is swallowed, the
    [ValueError] of a long integer literal is not, and the decoded value
    is a [dict], which goes to the validator. *)
Lemma try_candidate_braced body e :
  try_candidate U (123%N :: body) = Raise e ->
  (Json.loads (123%N :: body) = None /\ Json.refused (123%N :: body) = true /\
   e = ValueError) \/
  exists d, Json.loads (123%N :: body) = Some (VDict d) /\
            _validate_decision U d = Raise e.
Proof.
  unfold try_candidate. intros H.
  destruct (Json.loads (123%N :: body)) as [v|] eqn:Hl.
  - right. destruct (loads_brace_dict _ _ Hl) as (d & ->).
    exists d. split; [reflexivity|].
    destruct (_validate_decision U d); [discriminate|]. now inversion H.
  - left. destruct (Json.refused (123%N :: body)); [|discriminate].
    inversion H. auto.
Qed.

Lemma try_candidate_raises c e :
  (exists body, c = 123%N :: body) ->
  try_candidate U c = Raise e ->
  e <> JSONDecodeError /\
  forall v, Json.loads c = Some v ->
            exists d, v = VDict d /\ _validate_decision U d = Raise e.
Proof.
  intros (body & ->) H.
  destruct (try_candidate_braced _ _ H) as [(Hl & _ & ->) | (d & Hl & Hv)].
  - split; [discriminate|]. intros v Hv. congruence.
  - split.
    + apply validate_raises in Hv. destruct Hv as [->|[->| ->]]; discriminate.
    + intros v Hv'. rewrite Hl in Hv'. inversion Hv'; subst. eauto.
Qed.

Lemma try_objects_raises objs e :
  try_objects U objs = Raise e ->
  exists c, c ∈ objs /\ try_candidate U c = Raise e.
Proof.
  induction objs as [|obj rest IH]; intros H; [discriminate|].
  cbn [try_objects] in H.
  destruct (try_candidate U obj) as [[d|]|e0] eqn:Hc; cbn [bind] in H.
  - discriminate.
  - destruct (IH H) as (c & Hin & Hr). exists c. split; [now right | exact Hr].
  - inversion H; subst. exists obj. split; [left | exact Hc].
Qed.

(** An exception out of the extraction comes out of the body of a [try]. *)
Lemma extract_raises_from text e :
  _extract_decision U text = Raise e ->
  exists c, candidate text c /\ (exists body, c = 123%N :: body) /\
            try_candidate U c = Raise e.
Proof.
  rewrite extraction_order. intros H.
  assert (Hsearch : forall r,
    (forall whole g, Re.search r text = Some (whole, g) ->
                     exists body, g = Some (123%N :: body)) ->
    try_search U r text = Raise e ->
    exists whole body, Re.search r text = Some (whole, Some (123%N :: body)) /\
                       try_candidate U (123%N :: body) = Raise e).
  { intros r Hr Hs. unfold try_search in Hs.
    destruct (Re.search r text) as [[whole g]|] eqn:Hre; [|discriminate].
    destruct (Hr _ _ eq_refl) as (body & ->). eauto. }
  destruct (try_search U decision_block text) as [[d1|]|e1] eqn:H1; try discriminate.
  2:{ inversion H; subst.
      destruct (Hsearch decision_block) as (whole & body & Hre & Ht); auto.
      { intros whole g. apply tagged_candidate_braced. }
      exists (123%N :: body). split; [left; eauto|]. split; [eauto | exact Ht]. }
  destruct (try_search U fenced_block text) as [[d2|]|e2] eqn:H2; try discriminate.
  2:{ inversion H; subst.
      destruct (Hsearch fenced_block) as (whole & body & Hre & Ht); auto.
      { intros whole g. apply fenced_candidate_braced. }
      exists (123%N :: body). split; [right; left; eauto|]. split; [eauto | exact Ht]. }
  destruct (try_objects U _) as [[d3|]|e3] eqn:H3; try discriminate.
  inversion H; subst.
  apply try_objects_raises in H3 as (c & Hin & Ht).
  exists c. split; [right; right; exact Hin|].
  split; [now apply (loose_candidate_braced text) | exact Ht].
Qed.

(** X4.  An exception leaves the extraction only from the body of the
    [try] of a candidate, and never as a [json.JSONDecodeError]; when
    [json.loads] returned for that candidate, the exception is the one
    the validator raised on what it returned. *)
Lemma extract_raises text e :
  _extract_decision U text = Raise e ->
  exists c, candidate text c /\ try_candidate U c = Raise e /\
            e <> JSONDecodeError /\
            forall v, Json.loads c = Some v ->
                      exists d, v = VDict d /\ _validate_decision U d = Raise e.
Proof.
  intros H. apply extract_raises_from in H as (c & Hc & Hb & Ht).
  exists c. split; [exact Hc|]. split; [exact Ht|].
  now apply try_candidate_raises.
Qed.

End ExceptionFacts.

(** X2.  The validator raises exactly on a buy or sell decision with the
    five fields, in four cases: the symbol is rejected and the line that
    reports it cannot be printed; the symbol passes, the amount is
    rejected and its line cannot be printed; symbol and amount pass and
    the confidence is not a number, which is the [TypeError] of the
    comparison; symbol and amount pass, the confidence is a number out
    of range and its line cannot be printed.  A line cannot be printed
    when the value it shows is a [str] that cannot be encoded
    ([UnicodeEncodeError]) or holds an [int] of more than 4300 digits
    ([ValueError]). *)
Theorem validate_raises_iff U d e :
  _validate_decision U d = Raise e <->
  trading d /\
  exists symbol amount confidence,
    dict_get (lit "symbol") d = Some symbol /\
    dict_get (lit "amount") d = Some amount /\
    dict_get (lit "confidence") d = Some confidence /\
    ((~ known_symbol U d /\ refusal symbol = Some e) \/
     (known_symbol U d /\ ~ passing_amount d /\ refusal amount = Some e) \/
     (known_symbol U d /\ passing_amount d /\
      as_float confidence = None /\ e = TypeError) \/
     (known_symbol U d /\ passing_amount d /\
      out_of_range confidence /\ refusal confidence = Some e)).
Proof. apply validator_raises. Qed.

(** C10.  A decision returned by the extraction, by a strategy or by the
    fallback, has the five fields, has buy, sell or hold as its action,
    and is accepted by the validator. *)
Theorem extraction_returns_validated U text d :
  _extract_decision U text = Ok d ->
  (forall f, f ∈ required_fields -> is_Some (dict_get f d)) /\
  (exists a, dict_get (lit "action") d = Some (VStr a) /\ a ∈ actions) /\
  _validate_decision U d = Ok true.
Proof.
  intros H. apply extract_valid in H.
  destruct (validate_true_shape U d H) as [Hf Ha]. auto.
Qed.

Lemma extraction_returns_validated_witness :
  _extract_decision sample_symbols scenario_text = Ok scenario_decision /\
  _validate_decision sample_symbols scenario_decision = Ok true.
Proof.
  assert (H : _extract_decision sample_symbols scenario_text = Ok scenario_decision)
    by (vm_compute; reflexivity).
  split; [exact H|].
  exact (proj2 (proj2 (extraction_returns_validated sample_symbols scenario_text
                         scenario_decision H))).
Defined.

(** C6: the code at a text whose only candidate has a word as its
    confidence.  No strategy yields a valid decision, yet the default hold
    is not returned: the comparison of the validator raises [TypeError],
    which the [except json.JSONDecodeError] of the strategy lets through. *)
Theorem worded_confidence_raises :
  _extract_decision sample_symbols worded_confidence_text = Raise TypeError.
Proof. vm_compute. reflexivity. Qed.

(** C7: the code at a buy decision whose amount is NaN.  NaN is an
    instance of [float] and [NaN <= 0] is false, so the amount check
    lets it through and the decision is accepted. *)
Theorem nan_amount_accepted :
  Json.loads nan_amount_text = Some (VDict nan_amount_decision) /\
  dict_get (lit "amount") nan_amount_decision = Some (VFloat FNan) /\
  _validate_decision sample_symbols nan_amount_decision = Ok true.
Proof. repeat split; vm_compute; reflexivity. Qed.

(** ** The trading session *)

Section SessionFacts.

Context (U : list str) (o : outside).

(** The retry controller writes no log record. *)
Lemma attempts_log prompt system_prompt attempts : forall self w self' w' r,
  attempts_from o attempts self w prompt system_prompt = (self', w', r) ->
  log_file w' = log_file w.
Proof.
  induction attempts as [|attempt later IH]; intros self w self' w' r H.
  - now inversion H.
  - destruct (_invoke_claude_cli o self w prompt system_prompt
                (Some (cli_timeout self))) as [w1 r1] eqn:Hinv.
    pose proof (invoke_frame _ _ _ _ _ _ _ _ Hinv) as (_ & _ & Hlog & _).
    destruct (attempts_unfold o prompt system_prompt attempt later _ _ _ _ Hinv)
      as [(x & Hx) | (t & _ & _ & Hx)]; rewrite Hx in H.
    + inversion H; subst. exact Hlog.
    + apply IH in H. simpl in H. congruence.
Qed.

Lemma decisions_app l1 l2 : decisions (l1 ++ l2) = decisions l1 ++ decisions l2.
Proof. apply List.filter_app. Qed.

(** The body of the session adds one decision record when it returns,
    and none when it raises. *)
Lemma session_body_log self w date prompt system_prompt self' w' r :
  session_body U o self w date prompt system_prompt = (self', w', r) ->
  exists new,
    log_file w' = log_file w ++ new /\
    match r with
    | Ok _ => exists d, decisions new = [(date, LogDecision d)] /\
                        _validate_decision U d = Ok true
    | Raise _ => decisions new = []
    end.
Proof.
  unfold session_body, _ainvoke_claude_with_retry. intros H.
  destruct (attempts_from o _ self w prompt system_prompt) as [[self1 w1] r1] eqn:Hr.
  apply attempts_log in Hr.
  destruct r1 as [response | e].
  2:{ inversion H; subst. exists []. now rewrite app_nil_r. }
  destruct (get response (lit "result") (VStr [])) as [response_text | e].
  2:{ inversion H; subst. exists []. now rewrite app_nil_r. }
  set (entry := LogAssistant _ _ _) in H.
  destruct (match response_text with VStr text => _ | _ => Raise TypeError end)
    as [decision | e] eqn:Hext.
  2:{ inversion H; subst. exists [(date, entry)]. simpl. now rewrite Hr. }
  assert (Hvalid : _validate_decision U decision = Ok true).
  { destruct response_text; try discriminate. now apply extract_valid in Hext. }
  destruct (print_decision decision) as [u | e].
  - inversion H; subst. exists [(date, entry); (date, LogDecision decision)].
    simpl. rewrite Hr, <- app_assoc. split; [reflexivity|]. eauto.
  - inversion H; subst. exists [(date, entry)]. simpl. now rewrite Hr.
Qed.

(** The first line of a session can be printed exactly when the date
    can be encoded. *)
Lemma announce_cases date :
  (encodes date /\
   print [Chars (mark_chart_up ++ lit " Starting ClaudeCodeAgent trading session: "
                 ++ date)] = Ok tt) \/
  (~ encodes date /\
   print [Chars (mark_chart_up ++ lit " Starting ClaudeCodeAgent trading session: "
                 ++ date)] = Raise UnicodeEncodeError).
Proof.
  assert (Hiff : printable [Chars (mark_chart_up
                   ++ lit " Starting ClaudeCodeAgent trading session: " ++ date)] <->
                 encodes date).
  { rewrite printable_cons, encodable_chars, !encodes_app. split.
    - intros [(_ & _ & H) _]. exact H.
    - intros H. split; [|reflexivity]. split; [discriminate|].
      split; [discriminate | exact H]. }
  destruct (print_cases [Chars (mark_chart_up
              ++ lit " Starting ClaudeCodeAgent trading session: " ++ date)])
    as [[Hp He] | [Hp He]]; [left | right]; (split; [|exact He]);
    now rewrite <- Hiff.
Qed.

(** The line a handler prints for the exception it caught can be printed
    exactly when the text of the exception can. *)
Lemma handler_cases opening (e : exn) :
  encodes opening ->
  (printable (message e) /\ print (Chars opening :: message e) = Ok tt) \/
  (~ printable (message e) /\
   print (Chars opening :: message e) = Raise UnicodeEncodeError).
Proof.
  intros Ho.
  assert (Hiff : printable (Chars opening :: message e) <-> printable (message e)).
  { rewrite printable_cons, encodable_chars. tauto. }
  destruct (print_cases (Chars opening :: message e)) as [[Hp He] | [Hp He]];
    [left | right]; (split; [|exact He]); now rewrite <- Hiff.
Qed.

(** A session that got its trading context: the two prompts are logged
    and the body runs; when the body raises, the handler reports and
    logs the exception. *)
Lemma session_started self w date c :
  encodes date ->
  trading_context o date = Ok c ->
  run_trading_session U o self w date =
    match session_body U o (session_agent o self w) (session_world w date c)
            date (build_user_prompt date) (build_system_prompt date c) with
    | (self', w', Raise e) =>
        match print (Chars (mark_cross ++ lit " Trading session error: ")
                       :: message e) with
        | Raise e' => (self', w', Raise e')
        | Ok _ =>
            (self',
             add_log date
               (LogError (Chars (lit "Trading session error: ") :: message e)) w',
             Raise e)
        end
    | (self', w', Ok _) => (self', w', Ok tt)
    end.
Proof.
  intros Hd Hc. unfold run_trading_session.
  destruct (announce_cases date) as [[_ ->] | [Hn _]]; [|contradiction].
  now rewrite Hc.
Qed.

(** A session adds at most one decision to the log, one the validator
    accepts. *)
Lemma session_log self w date :
  exists new,
    log_file (run_trading_session U o self w date).1.2 = log_file w ++ new /\
    (decisions new = [] \/
     exists d, decisions new = [(date, LogDecision d)] /\
               _validate_decision U d = Ok true).
Proof.
  unfold run_trading_session.
  destruct (print [Chars _]) as [ [] | e0 ].
  2:{ exists []. rewrite app_nil_r. auto. }
  destruct (trading_context o date) as [c | e].
  2:{ destruct (print _) as [ [] | e' ].
      - eexists. split; [reflexivity|]. left. reflexivity.
      - exists []. simpl. rewrite app_nil_r. auto. }
  set (e1 := LogSystem _). set (e2 := LogUser _).
  destruct (session_body U o _ _ date _ _) as [[self' w'] r] eqn:Hb.
  apply session_body_log in Hb as (new & Hlog & Hnew).
  cbn [log_file add_log draw] in Hlog.
  destruct r as [u | e]; cbn [fst snd log_file add_log].
  - exists ([(date, e1)] ++ [(date, e2)] ++ new).
    rewrite Hlog, <- !app_assoc. split; [reflexivity|].
    rewrite !decisions_app. right. exact Hnew.
  - destruct (print _) as [ [] | e' ]; cbn [fst snd log_file add_log].
    + eexists ([(date, e1)] ++ [(date, e2)] ++ new ++ [_]).
      rewrite Hlog, <- !app_assoc. split; [reflexivity|].
      rewrite !decisions_app, Hnew. left. reflexivity.
    + exists ([(date, e1)] ++ [(date, e2)] ++ new).
      rewrite Hlog, <- !app_assoc. split; [reflexivity|].
      rewrite !decisions_app, Hnew. left. reflexivity.
Qed.

End SessionFacts.

Section SessionScenarios.

Context (U : list str) (o : outside).

Lemma cache_miss_session self w sid e1 e2 date prompt system_prompt :
  cache_miss self w prompt system_prompt ->
  cache_miss (set_session_id sid self)
    (add_log date e2 (add_log date e1 (draw w))) prompt system_prompt.
Proof. intros [H | H]; [left | right]; exact H. Qed.

End SessionScenarios.

(** ** Further properties of the validator and the extraction *)

Section SuffixFacts.

Import Re.

Lemma star_greedy_suffix p g k res : forall s,
  re_match (StarG p) s g k = Some res ->
  exists s', k s' g = Some res /\ s' `suffix_of` s.
Proof.
  induction s as [|x s IH]; intros H.
  - exists []. split; [exact H | reflexivity].
  - cbn [re_match] in H. destruct (p x).
    + destruct ((fix more (s : str) : option found := _) s) as [m|] eqn:Hm.
      * inversion H; subst. destruct (IH Hm) as (s' & Hk & Hl).
        exists s'. split; [exact Hk | now apply suffix_cons_r].
      * exists (x :: s). split; [exact H | reflexivity].
    + exists (x :: s). split; [exact H | reflexivity].
Qed.

Lemma star_lazy_suffix p g k res : forall s,
  re_match (StarL p) s g k = Some res ->
  exists s', k s' g = Some res /\ s' `suffix_of` s.
Proof.
  induction s as [|x s IH]; intros H; cbn [re_match] in H.
  - destruct (k [] g) eqn:Hk; [|discriminate].
    exists []. split; [congruence | reflexivity].
  - destruct (k (x :: s) g) eqn:Hk.
    + exists (x :: s). split; [congruence | reflexivity].
    + destruct (p x); [|discriminate].
      destruct (IH H) as (s' & Hk' & Hl).
      exists s'. split; [exact Hk' | now apply suffix_cons_r].
Qed.

(** A successful match went through its continuation on what was left
    of the text. *)
Lemma re_match_suffix r : forall s g k res,
  re_match r s g k = Some res ->
  exists s' g', k s' g' = Some res /\ s' `suffix_of` s.
Proof.
  induction r as [|c|p|p|p|r1 IH1 r2 IH2|r1 IH1]; intros s g k res H.
  - exists s, g. auto.
  - cbn [re_match] in H. destruct s as [|x s]; [discriminate|].
    destruct (x =? c)%N; [|discriminate].
    exists s, g. split; [exact H | apply suffix_cons_r; reflexivity].
  - cbn [re_match] in H. destruct s as [|x s]; [discriminate|].
    destruct (p x); [|discriminate].
    exists s, g. split; [exact H | apply suffix_cons_r; reflexivity].
  - apply star_greedy_suffix in H as (s' & Hk & Hl). eauto.
  - apply star_lazy_suffix in H as (s' & Hk & Hl). eauto.
  - cbn [re_match] in H.
    apply IH1 in H as (s1 & g1 & H & Hl1).
    apply IH2 in H as (s2 & g2 & H & Hl2).
    exists s2, g2. split; [exact H | now transitivity s1].
  - cbn [re_match] in H.
    apply IH1 in H as (s1 & g1 & H & Hl1). eauto.
Qed.

Lemma search_suffix r : forall s whole g,
  search r s = Some (whole, g) ->
  exists t rest, match_here r t = Some (rest, g) /\ t `suffix_of` s.
Proof.
  induction s as [|x s IH]; intros whole g H; cbn [search] in H.
  - destruct (match_here r []) as [[rest g']|] eqn:Hm; [|discriminate].
    inversion H; subst. eauto.
  - destruct (match_here r (x :: s)) as [[rest g']|] eqn:Hm.
    + inversion H; subst. eauto.
    + apply IH in H as (t & rest & H & Hs).
      exists t, rest. split; [exact H | now apply suffix_cons_r].
Qed.

Lemma findall_suffix r : forall s skip x,
  x ∈ findall_skip r s skip ->
  exists t rest g, match_here r t = Some (rest, g) /\ t `suffix_of` s.
Proof.
  induction s as [|c s IH]; intros skip x H.
  - destruct skip; cbn [findall_skip] in H; [|now apply elem_of_nil in H].
    destruct (match_here r []) as [[rest g]|] eqn:Hm; [|now apply elem_of_nil in H].
    eauto.
  - assert (Hrec : forall skip', x ∈ findall_skip r s skip' ->
              exists t rest g, match_here r t = Some (rest, g) /\ t `suffix_of` c :: s).
    { intros skip' Hx. apply IH in Hx as (t & rest & g & Hm & Hs).
      exists t, rest, g. split; [exact Hm | now apply suffix_cons_r]. }
    destruct skip; cbn [findall_skip] in H; [|eauto].
    destruct (match_here r (c :: s)) as [[rest g]|] eqn:Hm; [|eauto].
    apply elem_of_cons in H as [-> | H]; eauto.
Qed.

(** A text in which one of the three patterns matches somewhere holds
    an opening brace. *)
Lemma braced_pattern_brace opening inner closing t res :
  match_here (Seq opening (Seq (StarG is_space)
                (Seq (Grp (Seq (Chr 123) inner)) closing))) t = Some res ->
  123%N ∈ t.
Proof.
  unfold match_here. intros H. rewrite re_match_seq in H.
  apply re_match_suffix in H as (s1 & g1 & H & Hs1).
  rewrite re_match_seq in H.
  apply star_greedy_suffix in H as (s2 & H & Hs2).
  rewrite re_match_seq, re_match_grp, re_match_seq in H.
  apply re_match_chr in H as (t' & -> & _).
  destruct Hs1 as (k1 & ->), Hs2 as (k2 & ->).
  rewrite !elem_of_app. right. right. apply list_elem_of_here.
Qed.

Lemma suffix_elem (c : N) (t s : str) : t `suffix_of` s -> c ∈ t -> c ∈ s.
Proof. intros (k & ->) H. apply elem_of_app. now right. Qed.

Lemma search_tagged_brace text :
  123%N ∉ text -> search decision_block text = None.
Proof.
  intros Hn. destruct (search decision_block text) as [[whole g]|] eqn:H; [|reflexivity].
  apply search_suffix in H as (t & rest & H & Hs).
  apply braced_pattern_brace in H. destruct Hn. eapply suffix_elem; eauto.
Qed.

Lemma search_fenced_brace text :
  123%N ∉ text -> search fenced_block text = None.
Proof.
  intros Hn. destruct (search fenced_block text) as [[whole g]|] eqn:H; [|reflexivity].
  apply search_suffix in H as (t & rest & H & Hs).
  apply braced_pattern_brace in H. destruct Hn. eapply suffix_elem; eauto.
Qed.

Lemma findall_loose_brace text :
  123%N ∉ text -> findall action_object text = [].
Proof.
  intros Hn. destruct (findall action_object text) as [|x l] eqn:H; [reflexivity|].
  assert (Hx : x ∈ findall_skip action_object text 0).
  { unfold findall in H. rewrite H. apply list_elem_of_here. }
  apply findall_suffix in Hx as (t & rest & g & Hm & Hs).
  unfold match_here, action_object in Hm. rewrite re_match_seq in Hm.
  apply re_match_chr in Hm as (t' & -> & _).
  destruct Hn. eapply suffix_elem; [exact Hs | apply list_elem_of_here].
Qed.

End SuffixFacts.

(** X5.  A response without an opening brace gives the fallback hold
    decision: none of the three strategies finds a candidate, and
    nothing is raised.  The empty response is one such text. *)
Theorem no_brace_default_hold U text :
  123%N ∉ text -> _extract_decision U text = Ok default_hold.
Proof.
  intros Hn. rewrite extraction_order. unfold try_search.
  rewrite (search_tagged_brace text Hn), (search_fenced_brace text Hn),
    (findall_loose_brace text Hn).
  reflexivity.
Qed.

Lemma no_brace_default_hold_witness :
  _extract_decision sample_symbols (lit "Markets look weak; I would wait. </DECISION>") =
    Ok default_hold.
Proof.
  apply no_brace_default_hold. vm_compute.
  intros H. repeat (apply elem_of_cons in H as [H|H]; [discriminate|]).
  now apply elem_of_nil in H.
Defined.

Section TaggedFacts.

Import Re.

Lemma chars_match lit_ : forall rest g k,
  re_match (chars lit_) (lit_ ++ rest) g k = k rest g.
Proof.
  induction lit_ as [|c l IH]; intros rest g k; [reflexivity|].
  cbn [chars app]. rewrite re_match_seq. cbn [re_match]. rewrite N.eqb_refl.
  apply IH.
Qed.

Lemma re_match_chr_here c s g k : re_match (Chr c) (c :: s) g k = k s g.
Proof. cbn [re_match]. now rewrite N.eqb_refl. Qed.

(** A greedy star takes all of a run that ends where the class does. *)
Lemma star_greedy_run p g k m : forall ws rest,
  Forall (fun c => p c = true) ws ->
  k rest g = Some m ->
  match rest with [] => True | c :: _ => p c = false end ->
  re_match (StarG p) (ws ++ rest) g k = Some m.
Proof.
  induction ws as [|c ws IH]; intros rest Hws Hk Hrest.
  - cbn [app]. destruct rest as [|c rest]; cbn [re_match]; [exact Hk|].
    rewrite Hrest. exact Hk.
  - inversion Hws as [|? ? Hc Hws']; subst. cbn [app re_match]. rewrite Hc.
    specialize (IH rest Hws' Hk Hrest). cbn [re_match] in IH. now rewrite IH.
Qed.

(** A lazy star stops at the first place where what follows matches. *)
Lemma star_lazy_skip p g k : forall body rest,
  Forall (fun c => p c = true) body ->
  (forall i, (i < length body)%nat -> k (drop i body ++ rest) g = None) ->
  re_match (StarL p) (body ++ rest) g k = re_match (StarL p) rest g k.
Proof.
  induction body as [|c body IH]; intros rest Hp Hk; [reflexivity|].
  inversion Hp as [|? ? Hc Hp']; subst. cbn [app re_match].
  pose proof (Hk 0%nat ltac:(simpl; lia)) as H0. cbn [drop app] in H0.
  rewrite H0, Hc.
  specialize (IH rest Hp'). cbn [re_match] in IH. apply IH.
  intros i Hi. apply (Hk (S i)). simpl. lia.
Qed.

Lemma star_lazy_here p g k s m :
  k s g = Some m -> re_match (StarL p) s g k = Some m.
Proof. intros H. destruct s; cbn [re_match]; now rewrite H. Qed.

Lemma search_skip r : forall before s,
  (forall i, (i < length before)%nat -> match_here r (drop i before ++ s) = None) ->
  search r (before ++ s) =
    match search r s with
    | Some (whole, g) => Some (whole, g)
    | None => None
    end.
Proof.
  induction before as [|c before IH]; intros s H.
  - cbn [app]. destruct (search r s) as [[whole g]|]; reflexivity.
  - cbn [app search].
    pose proof (H 0%nat ltac:(simpl; lia)) as H0. cbn [drop app] in H0. rewrite H0.
    apply IH. intros i Hi. apply (H (S i)). simpl. lia.
Qed.

Lemma search_here r s rest g :
  match_here r s = Some (rest, g) ->
  search r s = Some (take (length s - length rest) s, g).
Proof. intros H. destruct s; cbn [search]; now rewrite H. Qed.

(** The tagged pattern on a tagged block. *)
Lemma tagged_block_matches ws1 body ws2 after :
  Forall (fun c => is_space c = true) ws1 ->
  Forall (fun c => is_space c = true) ws2 ->
  125%N ∉ body ->
  match_here decision_block
    (lit "<DECISION>" ++ ws1 ++ [123%N] ++ body ++ [125%N] ++ ws2
       ++ lit "</DECISION>" ++ after) =
    Some (after, Some ([123%N] ++ body ++ [125%N])).
Proof.
  intros Hws1 Hws2 Hbody. unfold match_here, decision_block.
  rewrite re_match_seq, chars_match. cbv beta. rewrite re_match_seq.
  apply star_greedy_run; [exact Hws1 | | reflexivity].
  rewrite re_match_seq, re_match_grp, re_match_seq.
  cbn [app]. rewrite (re_match_chr_here 123). cbv beta. rewrite re_match_seq.
  rewrite star_lazy_skip.
  - apply star_lazy_here. cbv beta.
    rewrite (re_match_chr_here 125). cbv beta. rewrite re_match_seq.
    apply star_greedy_run; [exact Hws2 | | reflexivity].
    rewrite chars_match. cbv beta. do 3 f_equal.
    set (R := ws2 ++ lit "</DECISION>" ++ after).
    change (123%N :: body ++ 125%N :: R) with ((123%N :: body) ++ [125%N] ++ R).
    rewrite app_assoc, length_app, Nat.add_sub. apply take_app_length.
  - apply Forall_forall. reflexivity.
  - intros i Hi.
    destruct (drop i body) as [|c rest] eqn:Hd.
    { apply (f_equal length) in Hd. rewrite length_drop in Hd. simpl in Hd. lia. }
    assert (Hc : c ∈ body).
    { rewrite <- (take_drop i body), Hd. apply elem_of_app. right.
      apply list_elem_of_here. }
    cbn [app re_match]. destruct (N.eqb_spec c 125) as [->|]; [contradiction | reflexivity].
Qed.

End TaggedFacts.

(** X6.  A tagged block that holds a flat JSON object the validator
    accepts is what the extraction returns, whatever surrounds it, as
    long as no opening angle bracket comes before the block: the later
    strategies and the text after the block play no part. *)
Theorem tagged_decision_extracted U before ws1 body ws2 after d :
  60%N ∉ before ->
  Forall (fun c => Re.is_space c = true) ws1 ->
  Forall (fun c => Re.is_space c = true) ws2 ->
  125%N ∉ body ->
  Json.loads ([123%N] ++ body ++ [125%N]) = Some (VDict d) ->
  _validate_decision U d = Ok true ->
  _extract_decision U (tagged_response before ws1 body ws2 after) = Ok d.
Proof.
  intros Hbefore Hws1 Hws2 Hbody Hloads Hvalid.
  rewrite extraction_order. unfold try_search, tagged_response.
  rewrite search_skip.
  - rewrite (search_here _ _ _ _ (tagged_block_matches ws1 body ws2 after Hws1 Hws2 Hbody)).
    unfold try_candidate. rewrite Hloads, Hvalid. reflexivity.
  - intros i Hi.
    destruct (drop i before) as [|c rest] eqn:Hd.
    { apply (f_equal length) in Hd. rewrite length_drop in Hd. simpl in Hd. lia. }
    assert (Hc : c ∈ before).
    { rewrite <- (take_drop i before), Hd. apply elem_of_app. right.
      apply list_elem_of_here. }
    unfold Re.match_here, decision_block. rewrite re_match_seq.
    cbn [lit list_ascii_of_string map Re.chars app]. rewrite re_match_seq.
    cbn [Re.re_match].
    destruct (N.eqb_spec c (N_of_ascii "<")) as [->|]; [contradiction | reflexivity].
Qed.

Lemma tagged_decision_extracted_witness :
  _extract_decision sample_symbols scenario_text = Ok scenario_decision.
Proof.
  apply (tagged_decision_extracted sample_symbols (lit "I recommend buying. ") []
           (quoted "'action':'buy','symbol':'AAPL','amount':10,'confidence':0.85,'reasoning':'ok'")
           [] [] scenario_decision).
  - apply (proj1 (bool_decide_eq_false _)). vm_compute. reflexivity.
  - constructor.
  - constructor.
  - apply (proj1 (bool_decide_eq_false _)). vm_compute. reflexivity.
  - vm_compute. reflexivity.
  - vm_compute. reflexivity.
Defined.


Lemma validate_characterised_witness :
  dict_get (lit "amount") scenario_decision <> Some (VFloat FNan) /\
  acceptable sample_symbols scenario_decision.
Proof.
  assert (H : dict_get (lit "amount") scenario_decision <> Some (VFloat FNan))
    by discriminate.
  split; [exact H|].
  apply (validate_characterised sample_symbols scenario_decision H).
  vm_compute. reflexivity.
Defined.

Lemma foreign_symbol_rejected_witness :
  dict_get (lit "action") foreign_decision = Some (VStr (lit "buy")) /\
  _validate_decision sample_symbols foreign_decision = Ok false.
Proof.
  split; [reflexivity|].
  apply (foreign_symbol_rejected sample_symbols foreign_decision (lit "buy")).
  - reflexivity.
  - discriminate.
  - intros symbol Hs. inversion Hs; subst.
    apply (proj1 (bool_decide_eq_false _)). vm_compute. reflexivity.
  - intros symbol Hs. inversion Hs; subst. reflexivity.
Defined.

Lemma extract_raises_witness :
  _extract_decision sample_symbols worded_confidence_text = Raise TypeError /\
  exists c, candidate worded_confidence_text c /\
            try_candidate sample_symbols c = Raise TypeError.
Proof.
  assert (H : _extract_decision sample_symbols worded_confidence_text = Raise TypeError)
    by (vm_compute; reflexivity).
  split; [exact H|].
  destruct (extract_raises sample_symbols worded_confidence_text TypeError H)
    as (c & Hc & Ht & _).
  exists c. split; [exact Hc | exact Ht].
Defined.

Lemma no_attempt_returns_none_witness :
  max_retries (sample_agent 0 600 false) <= 0 /\
  session_body sample_symbols (always TimedOut) (sample_agent 0 600 false) empty_world
    (lit "2025-10-14") (lit "user") (lit "system") =
    (sample_agent 0 600 false, empty_world, Raise AttributeError).
Proof.
  assert (H : max_retries (sample_agent 0 600 false) <= 0) by (simpl; lia).
  split; [exact H|].
  apply (no_attempt_returns_none sample_symbols (always TimedOut) (sample_agent 0 600 false)
           empty_world (lit "user") (lit "system") (lit "2025-10-14") H).
Defined.


(** ** Further properties of the cache *)

Section DigestFacts.

Import Sha256.

Lemma round_length st kw : length st = 8%nat -> length (round st kw) = 8%nat.
Proof.
  intros H. do 9 (destruct st as [|? st]; try discriminate). reflexivity.
Qed.

Lemma rounds_length l : forall st,
  length st = 8%nat -> length (fold_left round l st) = 8%nat.
Proof.
  induction l as [|kw l IH]; intros st H; simpl; [exact H|].
  apply IH. now apply round_length.
Qed.

Lemma compress_length h block : length h = 8%nat -> length (compress h block) = 8%nat.
Proof.
  intros H. unfold compress. rewrite length_map, length_combine, rounds_length by exact H.
  rewrite H. reflexivity.
Qed.

Lemma blocks_length n : forall ws h,
  length h = 8%nat -> length (blocks n ws h) = 8%nat.
Proof.
  induction n as [|n IH]; intros ws h H; simpl; [exact H|].
  apply IH. now apply compress_length.
Qed.

Lemma digest_length msg : length (digest msg) = 8%nat.
Proof. unfold digest. apply blocks_length. vm_compute. reflexivity. Qed.

Lemma hex_char_digit d : 0 <= d < 16 -> hex_digit (hex_char d).
Proof.
  intros H. unfold hex_char, hex_digit.
  destruct (Z.ltb_spec d 10); lia.
Qed.

Lemma hex_word_shape w : length (hex_word w) = 8%nat /\ Forall hex_digit (hex_word w).
Proof.
  unfold hex_word. split; [now rewrite length_map|].
  apply Forall_map, Forall_forall. intros i _. apply hex_char_digit.
  apply Z.mod_pos_bound. lia.
Qed.

Lemma hex_words_shape ws :
  length (concat (map hex_word ws)) = (8 * length ws)%nat /\
  Forall hex_digit (concat (map hex_word ws)).
Proof.
  induction ws as [|w ws [IH1 IH2]]; cbn [map concat]; [split; [reflexivity | constructor]|].
  destruct (hex_word_shape w) as [H1 H2].
  rewrite length_app, H1, IH1. split; [simpl; lia|]. apply Forall_app. now split.
Qed.

Lemma hexdigest_shape msg :
  length (hexdigest msg) = 64%nat /\ Forall hex_digit (hexdigest msg).
Proof.
  unfold hexdigest. destruct (hex_words_shape (digest msg)) as [H1 H2].
  rewrite digest_length in H1. now split.
Qed.

Lemma encode_none s :
  encode s = None <-> exists c, c ∈ s /\ utf8_char c = None.
Proof.
  induction s as [|c s IH]; simpl.
  - split; [discriminate|]. intros (c & Hc & _). inversion Hc.
  - destruct (utf8_char c) as [bs|] eqn:Hc.
    + destruct (encode s) as [rest|].
      * split; [discriminate|]. intros (c' & Hin & Hn).
        apply elem_of_cons in Hin as [->|Hin]; [congruence|].
        assert (None = Some rest :> option (list Z)); [|discriminate].
        symmetry. apply IH. eauto.
      * split; [|reflexivity]. intros _.
        destruct (proj1 IH eq_refl) as (c' & Hin & Hn).
        exists c'. split; [now apply list_elem_of_further | exact Hn].
    + split; [|reflexivity]. intros _. exists c. split; [apply list_elem_of_here | exact Hc].
Qed.

Lemma utf8_char_none c :
  utf8_char c = None <-> (55296 <= c <= 57343)%N \/ (1114112 <= c)%N.
Proof.
  unfold utf8_char.
  repeat match goal with
         | |- context [if ?b then _ else _] =>
             let E := fresh in destruct b eqn:E
         end; split; intros Hx; try discriminate; try reflexivity; lia.
Qed.

End DigestFacts.

(** X7.  A cache key is 64 lowercase hexadecimal digits, so the name of a
    cache file never holds a separator or a dot of its own.  The key
    exists for every pair of prompts made of characters UTF-8 can
    encode, and computing it raises [UnicodeEncodeError] exactly when
    one of the prompts holds a surrogate. *)
Theorem cache_key_shape prompt system_prompt :
  Forall (fun c => (c < 1114112)%N) (prompt ++ system_prompt) ->
  match _get_cache_key prompt system_prompt with
  | Ok key => length key = 64%nat /\ Forall hex_digit key /\
              Forall (fun c => ~ surrogate c) (prompt ++ system_prompt)
  | Raise e => e = UnicodeEncodeError /\
               exists c, c ∈ prompt ++ system_prompt /\ surrogate c
  end.
Proof.
  intros Hrange. unfold _get_cache_key.
  destruct (Sha256.encode (combined prompt system_prompt)) as [bytes|] eqn:He.
  - destruct (hexdigest_shape bytes) as [H1 H2]. split; [exact H1|]. split; [exact H2|].
    apply Forall_forall. intros c Hc Hs.
    assert (Hn : Sha256.encode (combined prompt system_prompt) = None); [|congruence].
    apply encode_none. exists c. split.
    + unfold combined. rewrite !elem_of_app in *. tauto.
    + apply utf8_char_none. now left.
  - split; [reflexivity|].
    apply encode_none in He as (c & Hin & Hn).
    apply utf8_char_none in Hn. exists c.
    assert (Hc : c ∈ prompt ++ system_prompt).
    { unfold combined, nl in Hin. rewrite !elem_of_app in *.
      destruct Hin as [?|[Hin|?]]; auto.
      apply list_elem_of_singleton in Hin. subst. exfalso.
      destruct Hn as [Hn|Hn]; lia. }
    split; [exact Hc|]. destruct Hn as [Hn|Hn]; [exact Hn|].
    rewrite Forall_forall in Hrange. specialize (Hrange c Hc). lia.
Qed.

Lemma cache_key_shape_witness :
  length sample_key = 64%nat /\ Forall hex_digit sample_key.
Proof.
  pose proof (cache_key_shape (lit "user") (lit "system")) as H.
  change (_get_cache_key (lit "user") (lit "system")) with (Ok sample_key) in H.
  destruct H as (H1 & H2 & _).
  - apply Forall_forall. intros c Hc. vm_compute in Hc.
    repeat (apply elem_of_cons in Hc as [->|Hc]; [reflexivity|]).
    now apply elem_of_nil in Hc.
  - split; [exact H1 | exact H2].
Defined.


Section TraceFacts.

Context (o : outside) (prompt system_prompt : str).

(** A field of the envelope in the performance line: it can always be
    shown, and what is shown can be encoded unless the field is a
    [str] that cannot. *)
Lemma shown_field k d :
  short_items d ->
  exists p, str_of (dict_get_default k (VInt 0) d) = Ok p /\
            (encodable p = true <->
             forall s, dict_get k d = Some (VStr s) -> encodes s).
Proof.
  intros Hshort. unfold dict_get_default.
  destruct (dict_get k d) as [v|] eqn:Hv.
  - destruct (str_of_short v (dict_get_short _ _ _ Hshort Hv)) as (p & Hp & Hs).
    exists p. split; [exact Hp|].
    destruct v as [|b|n|f|s|l|d0];
      try (split; [intros _ s0 E; discriminate | intros _; exact Hs]).
    subst p. rewrite encodable_chars. split.
    + intros H s' E. now inversion E; subst.
    + intros H. now apply H.
  - destruct (str_of_short (VInt 0)) as (p & Hp & Hs); [vm_compute; reflexivity|].
    exists p. split; [exact Hp|].
    split; [intros _ s E; discriminate | intros _; exact Hs].
Qed.

(** The performance line of an envelope whose cost can be formatted is
    printed unless its duration or its number of turns is a [str] that
    cannot be encoded. *)
Lemma print_performance_shown d :
  short_items d ->
  format_float (dict_get_default (lit "total_cost_usd") (VInt 0) d) = Ok tt ->
  (print_performance (VDict d) = Ok tt <->
   (forall s, dict_get (lit "duration_ms") d = Some (VStr s) -> encodes s) /\
   (forall s, dict_get (lit "num_turns") d = Some (VStr s) -> encodes s)) /\
  (print_performance (VDict d) = Ok tt \/
   print_performance (VDict d) = Raise UnicodeEncodeError).
Proof.
  intros Hshort Hf. unfold print_performance. cbn [get bind]. rewrite Hf. cbn [bind].
  destruct (shown_field (lit "duration_ms") d Hshort) as (p1 & -> & H1).
  destruct (shown_field (lit "num_turns") d Hshort) as (p2 & -> & H2).
  cbn [bind].
  set (t := [_; _; _; _; _; _]).
  assert (Hiff : printable t <-> encodable p1 = true /\ encodable p2 = true).
  { subst t. rewrite !printable_cons. split.
    - intros (_ & _ & _ & Hp1 & _ & Hp2 & _). auto.
    - intros [Hp1 Hp2]. repeat split; auto. }
  destruct (print_cases t) as [[Hp ->] | [Hp ->]].
  - split; [|left; reflexivity]. split; [|reflexivity].
    intros _. split; [apply H1 | apply H2]; now apply Hiff.
  - split; [|right; reflexivity]. split; [discriminate|].
    intros [HA HB]. exfalso. apply Hp, Hiff. split; [now apply H1 | now apply H2].
Qed.

Lemma on_exit_answers self w returncode stdout stderr response :
  answers (Exited returncode stdout stderr) response ->
  on_exit self w prompt system_prompt returncode stdout stderr =
    if use_cache self then
      match _get_cache_key prompt system_prompt with
      | Ok cache_key => (set_cache (<[cache_key := response]> (cache_dir w)) w, Ok response)
      | Raise e => (w, Raise e)
      end
    else (w, Ok response).
Proof.
  intros (so & se & d & Hr & Hl & -> & Ht & Hf & Hd & Hn).
  injection Hr as -> -> ->. unfold on_exit. change (negb (0 =? 0)) with false. cbv iota.
  rewrite Hl. cbn [get]. rewrite Ht.
  pose proof (loads_short _ _ Hl) as Hshort. cbn [holds_long_int] in Hshort.
  destruct (print_performance_shown d Hshort Hf) as [Hp _].
  rewrite (proj2 Hp (conj Hd Hn)). reflexivity.
Qed.

(** A run that cannot be read ends in a [ValueError] whose text can be
    printed. *)
Lemma on_exit_unreadable self w returncode stdout stderr :
  unreadable (Exited returncode stdout stderr) ->
  exists e,
    on_exit self w prompt system_prompt returncode stdout stderr = (w, Raise e) /\
    is_ValueError e = true /\ printable (message e).
Proof.
  intros [H | (so & se & Hr & H)]; [discriminate|].
  injection Hr as -> -> ->.
  destruct H as [[Hbad Henc] | (d & Hl & Ht & H)].
  - destruct (on_exit_malformed self w prompt system_prompt so se Hbad)
      as (e & He & Hv & Hp).
    exists e. split; [exact He|]. split; [exact Hv|].
    apply Hp. unfold slice_to. now apply encodes_take.
  - unfold on_exit. change (negb (0 =? 0)) with false. cbv iota.
    rewrite Hl. cbn [get]. rewrite Ht.
    pose proof (loads_short _ _ Hl) as Hshort. cbn [holds_long_int] in Hshort.
    destruct H as [(cost & Hc) | (Hf & s & Hs & Hn)].
    + assert (Hp : print_performance (VDict d) = Raise ValueError).
      { unfold print_performance. cbn [get bind].
        assert (Hcost : format_float (dict_get_default (lit "total_cost_usd") (VInt 0) d)
                        = Raise ValueError).
        { unfold dict_get_default. rewrite Hc. reflexivity. }
        rewrite Hcost. reflexivity. }
      rewrite Hp. exists ValueError. repeat split; reflexivity.
    + destruct (print_performance_shown d Hshort Hf) as [Hiff [Hok | Hcut]].
      * exfalso. apply Hiff in Hok as [Hd Hn'].
        destruct Hs as [Hs | Hs]; apply Hn; [now apply Hd | now apply Hn'].
      * rewrite Hcut. exists UnicodeEncodeError. repeat split; reflexivity.
Qed.

Lemma invoke_unreadable self w sid t :
  cache_miss self w prompt system_prompt ->
  session_id self = Some sid ->
  unreadable (run o (length (calls w))) ->
  exists e,
    _invoke_claude_cli o self w prompt system_prompt (Some t) =
      (add_call (call_of self sid prompt system_prompt t) w, Raise e) /\
    is_ValueError e = true /\ printable (message e).
Proof.
  intros Hmiss Hsid Hrun. rewrite (invoke_miss o _ _ _ _ sid) by assumption. cbv zeta.
  destruct (run o (length (calls w))) as [|returncode stdout stderr| |] eqn:Hr.
  - destruct Hrun as [H | (? & ? & H & _)]; discriminate.
  - now apply on_exit_unreadable.
  - exists UnicodeDecodeError. repeat split; reflexivity.
  - destruct Hrun as [H | (? & ? & H & _)]; discriminate.
Qed.

Lemma retriable_trace later (n : nat) : forall (k : Z) self w sid,
  cache_miss self w prompt system_prompt ->
  session_id self = Some sid ->
  (forall i, (i < n)%nat -> retriable (run o (length (calls w) + i))) ->
  k + Z.of_nat n <= max_retries self ->
  exists t w',
    attempts_from o (seqZ k (Z.of_nat n) ++ later) self w prompt system_prompt =
    attempts_from o later (set_cli_timeout t self) w' prompt system_prompt
    /\ cache_dir w' = cache_dir w /\ log_file w' = log_file w
    /\ drawn w' = drawn w
    /\ length (calls w') = (length (calls w) + n)%nat
    /\ sleeps w' = sleeps w ++ backoff self k n
    /\ ((forall i, (i < n)%nat -> run o (length (calls w) + i) = TimedOut) ->
        t = Nat.iter n narrowed (cli_timeout self)).
Proof.
  induction n as [|n IH]; intros k self w sid Hmiss Hsid Hr Hk.
  - exists (cli_timeout self), w. rewrite set_cli_timeout_id. unfold backoff.
    cbn [Z.of_nat]. rewrite seqZ_nil by lia. cbn [map app Nat.iter].
    rewrite app_nil_r, Nat.add_0_r. repeat split; auto.
  - unfold backoff. rewrite seqZ_cons by lia.
    replace (Z.pred (Z.of_nat (S n))) with (Z.of_nat n) by lia.
    assert (H0 : retriable (run o (length (calls w)))).
    { specialize (Hr 0%nat). rewrite Nat.add_0_r in Hr. apply Hr. lia. }
    destruct (retry_step o prompt system_prompt k
                (seqZ (Z.succ k) (Z.of_nat n) ++ later) self w sid)
      as (t0 & Hstep & _ & Hto); auto; [lia|].
    set (w1 := add_sleep _ _) in Hstep.
    destruct (IH (Z.succ k) (set_cli_timeout t0 self) w1 sid)
      as (t & w' & Heq & Hc & Hl & Hd & Hcalls & Hsl & Ht).
    + now apply (cache_miss_carries prompt system_prompt self w).
    + exact Hsid.
    + intros i Hi. subst w1. cbn [calls add_sleep add_call]. rewrite length_app.
      cbn [length].
      replace (length (calls w) + 1 + i)%nat with (length (calls w) + S i)%nat by lia.
      apply Hr. lia.
    + cbn [max_retries set_cli_timeout]. lia.
    + exists t, w'.
      change ((k :: seqZ (Z.succ k) (Z.of_nat n)) ++ later)
        with (k :: (seqZ (Z.succ k) (Z.of_nat n) ++ later)).
      rewrite Hstep, Heq. subst w1.
      cbn [cache_dir log_file drawn calls sleeps add_sleep add_call
           set_cli_timeout cli_timeout base_delay] in *.
      rewrite length_app in Hcalls. cbn [length] in Hcalls.
      split; [reflexivity|]. split; [exact Hc|]. split; [exact Hl|].
      split; [exact Hd|]. split; [lia|]. split.
      * rewrite Hsl. unfold backoff. cbn [map base_delay set_cli_timeout].
        now rewrite <- app_assoc.
      * intros Hall. rewrite Ht.
        -- rewrite (Hto (eq_trans (f_equal _ (eq_sym (Nat.add_0_r _))) (Hall 0%nat ltac:(lia)))).
           clear. induction n; simpl; [reflexivity|]. now rewrite IHn.
        -- intros i Hi. rewrite length_app. cbn [length].
           replace (length (calls w) + 1 + i)%nat with (length (calls w) + S i)%nat by lia.
           apply Hall. lia.
Qed.

End TraceFacts.

Lemma range_split (n : nat) m :
  Z.of_nat n < m ->
  seqZ 1 m = seqZ 1 (Z.of_nat n) ++
             (1 + Z.of_nat n) :: seqZ (Z.succ (1 + Z.of_nat n)) (Z.pred (m - Z.of_nat n)).
Proof.
  intros H.
  replace m with (Z.of_nat n + (m - Z.of_nat n)) at 1 by lia.
  rewrite seqZ_app by lia. f_equal. now rewrite seqZ_cons by lia.
Qed.

Section OutcomeFacts.

Context (o : outside) (prompt system_prompt : str).

(** An attempt that neither times out nor ends in a process error is
    the last one. *)
Lemma attempt_final attempt later self w w1 r :
  _invoke_claude_cli o self w prompt system_prompt (Some (cli_timeout self)) = (w1, r) ->
  r <> Raise TimeoutError -> (forall m, r <> Raise (ClaudeCodeError m)) ->
  attempts_from o (attempt :: later) self w prompt system_prompt =
    (self, w1,
     match r with
     | Ok response => Ok response
     | Raise e =>
         if is_ValueError e then
           match print (Chars (mark_cross ++ lit " Invalid JSON response: ")
                          :: message e) with
           | Ok _ => Ok json_decode_envelope
           | Raise e' => Raise e'
           end
         else Raise e
     end).
Proof.
  intros Hi Ht Hc. cbn [attempts_from]. rewrite Hi.
  destruct r as [response|e]; [reflexivity|].
  destruct e as [ | m | | m | | | | | | | | m | | m ]; cbn [is_ValueError];
    try reflexivity; try congruence;
    try (destruct (print _) as [ [] | e' ]; reflexivity).
Qed.

(** An attempt that ends in a [ValueError] whose text can be printed
    ends the controller with the hold envelope. *)
Lemma attempt_unreadable attempt later self w w1 e :
  _invoke_claude_cli o self w prompt system_prompt (Some (cli_timeout self)) =
    (w1, Raise e) ->
  is_ValueError e = true -> printable (message e) ->
  attempts_from o (attempt :: later) self w prompt system_prompt =
    (self, w1, Ok json_decode_envelope).
Proof.
  intros Hi Hv Hp.
  rewrite (attempt_final attempt later self w w1 (Raise e) Hi).
  - rewrite Hv, print_ok; [reflexivity|].
    apply printable_cons. split; [reflexivity | exact Hp].
  - intros E. inversion E; subst. discriminate.
  - intros m E. inversion E; subst. discriminate.
Qed.

(** The attempt that follows [n] retried ones. *)
Lemma after_retries self w sid (n : nat) :
  Z.of_nat n < max_retries self ->
  session_id self = Some sid ->
  cache_miss self w prompt system_prompt ->
  (forall i, (i < n)%nat -> retriable (run o (length (calls w) + i))) ->
  exists t w1 later,
    _ainvoke_claude_with_retry o self w prompt system_prompt =
      attempts_from o ((1 + Z.of_nat n) :: later) (set_cli_timeout t self) w1
        prompt system_prompt
    /\ cache_miss (set_cli_timeout t self) w1 prompt system_prompt
    /\ cache_dir w1 = cache_dir w /\ log_file w1 = log_file w /\ drawn w1 = drawn w
    /\ length (calls w1) = (length (calls w) + n)%nat
    /\ sleeps w1 = sleeps w ++ backoff self 1 n
    /\ ((forall i, (i < n)%nat -> run o (length (calls w) + i) = TimedOut) ->
        t = Nat.iter n narrowed (cli_timeout self)).
Proof.
  intros Hn Hsid Hmiss Hpre.
  destruct (retriable_trace o prompt system_prompt
              ((1 + Z.of_nat n) :: seqZ (Z.succ (1 + Z.of_nat n))
                                        (Z.pred (max_retries self - Z.of_nat n)))
              n 1 self w sid)
    as (t & w1 & Heq & Hc & Hl & Hd & Hcalls & Hsl & Ht); auto; [lia|].
  exists t, w1, (seqZ (Z.succ (1 + Z.of_nat n)) (Z.pred (max_retries self - Z.of_nat n))).
  unfold _ainvoke_claude_with_retry. rewrite (range_split n) by exact Hn.
  rewrite Heq. repeat split; auto.
  now apply (cache_miss_carries prompt system_prompt self w).
Qed.

(** After [n] retried failures an accepted answer is returned at once. *)
Lemma retry_answered self w sid (n : nat) response :
  Z.of_nat n < max_retries self ->
  session_id self = Some sid ->
  cache_miss self w prompt system_prompt ->
  (forall i, (i < n)%nat -> retriable (run o (length (calls w) + i))) ->
  answers (run o (length (calls w) + n)) response ->
  exists t w',
    _ainvoke_claude_with_retry o self w prompt system_prompt =
      (set_cli_timeout t self, w', Ok response)
    /\ length (calls w') = (length (calls w) + n + 1)%nat
    /\ sleeps w' = sleeps w ++ backoff self 1 n
    /\ log_file w' = log_file w
    /\ (use_cache self = false -> cache_dir w' = cache_dir w)
    /\ (use_cache self = true ->
        exists key, _get_cache_key prompt system_prompt = Ok key /\
                    cache_dir w' = <[key := response]> (cache_dir w)).
Proof.
  intros Hn Hsid Hmiss Hpre Hans.
  destruct (after_retries self w sid n)
    as (t & w1 & later & Heq & Hmiss1 & Hc & Hl & Hd & Hcalls & Hsl & _); auto.
  rewrite <- Hcalls in Hans.
  destruct (run o (length (calls w1))) as [|returncode stdout stderr| |] eqn:Hrun;
    try (destruct Hans as (? & ? & ? & ? & _); discriminate).
  pose proof (invoke_miss o (set_cli_timeout t self) w1 prompt system_prompt sid
                (cli_timeout (set_cli_timeout t self)) Hmiss1 Hsid) as Hinv.
  rewrite Hrun in Hinv. cbv zeta in Hinv.
  rewrite (on_exit_answers prompt system_prompt _ _ _ _ stderr response Hans) in Hinv.
  exists t. change (use_cache (set_cli_timeout t self)) with (use_cache self) in Hinv.
  destruct (use_cache self) eqn:Hu.
  - destruct Hmiss as [Hf | (key & Hk & Hnone)]; [congruence|].
    rewrite Hk in Hinv. eexists. split.
    + rewrite Heq. apply (attempt_final _ _ _ _ _ _ Hinv);
        [discriminate | intros m; discriminate].
    + cbn [calls sleeps log_file cache_dir set_cache add_call].
      rewrite length_app, Hcalls. cbn [length].
      split; [lia|]. split; [exact Hsl|]. split; [exact Hl|].
      split; [discriminate|]. intros _. exists key. now rewrite Hc.
  - eexists. split.
    + rewrite Heq. apply (attempt_final _ _ _ _ _ _ Hinv);
        [discriminate | intros m; discriminate].
    + cbn [calls sleeps log_file cache_dir set_cache add_call].
      rewrite length_app, Hcalls. cbn [length].
      split; [lia|]. split; [exact Hsl|]. split; [exact Hl|].
      split; [intros _; exact Hc | discriminate].
Qed.

(** After [n] retried failures a run that cannot be read ends the
    controller with the hold envelope of an invalid response. *)
Lemma retry_unreadable self w sid (n : nat) :
  Z.of_nat n < max_retries self ->
  session_id self = Some sid ->
  cache_miss self w prompt system_prompt ->
  (forall i, (i < n)%nat -> retriable (run o (length (calls w) + i))) ->
  unreadable (run o (length (calls w) + n)) ->
  exists t w',
    _ainvoke_claude_with_retry o self w prompt system_prompt =
      (set_cli_timeout t self, w', Ok json_decode_envelope)
    /\ length (calls w') = (length (calls w) + n + 1)%nat
    /\ sleeps w' = sleeps w ++ backoff self 1 n
    /\ cache_dir w' = cache_dir w
    /\ log_file w' = log_file w.
Proof.
  intros Hn Hsid Hmiss Hpre Hrun.
  destruct (after_retries self w sid n)
    as (t & w1 & later & Heq & Hmiss1 & Hc & Hl & Hd & Hcalls & Hsl & _); auto.
  rewrite <- Hcalls in Hrun.
  destruct (invoke_unreadable o prompt system_prompt (set_cli_timeout t self) w1 sid
              (cli_timeout (set_cli_timeout t self)) Hmiss1 Hsid Hrun)
    as (e & Hinv & Hv & Hp).
  exists t. eexists. split.
  - rewrite Heq. apply (attempt_unreadable _ _ _ _ _ _ Hinv Hv Hp).
  - cbn [calls sleeps log_file cache_dir add_call].
    rewrite length_app, Hcalls. cbn [length]. repeat split; auto; lia.
Qed.

(** After [n] retried failures a timeout of the last attempt allowed
    ends the controller with the timeout envelope. *)
Lemma retry_timed_out self w sid (n : nat) :
  1 + Z.of_nat n = max_retries self ->
  session_id self = Some sid ->
  cache_miss self w prompt system_prompt ->
  (forall i, (i < n)%nat -> retriable (run o (length (calls w) + i))) ->
  run o (length (calls w) + n) = TimedOut ->
  exists t w',
    _ainvoke_claude_with_retry o self w prompt system_prompt =
      (set_cli_timeout t self, w', Ok timeout_envelope)
    /\ length (calls w') = (length (calls w) + n + 1)%nat
    /\ cache_dir w' = cache_dir w
    /\ log_file w' = log_file w.
Proof.
  intros Hn Hsid Hmiss Hpre Hrun.
  destruct (after_retries self w sid n)
    as (t & w1 & later & Heq & Hmiss1 & Hc & Hl & Hd & Hcalls & Hsl & _); auto; [lia|].
  rewrite <- Hcalls in Hrun.
  exists t. eexists. split.
  - rewrite Heq, Hn.
    change (max_retries self) with (max_retries (set_cli_timeout t self)).
    apply (last_attempt_timed_out o prompt system_prompt _ _ _ sid); auto.
  - cbn [calls sleeps log_file cache_dir add_call].
    rewrite length_app, Hcalls. cbn [length]. repeat split; auto; lia.
Qed.

(** After [n] retried failures a process error of the last attempt
    allowed makes the controller raise a [RuntimeError]. *)
Lemma retry_errored self w sid (n : nat) :
  1 + Z.of_nat n = max_retries self ->
  session_id self = Some sid ->
  cache_miss self w prompt system_prompt ->
  (forall i, (i < n)%nat -> retriable (run o (length (calls w) + i))) ->
  process_error (run o (length (calls w) + n)) ->
  exists t w' m,
    _ainvoke_claude_with_retry o self w prompt system_prompt =
      (set_cli_timeout t self, w',
       Raise (RuntimeError (Chars (lit "Claude CLI failed after "
                                   ++ str_of_int (max_retries self)
                                   ++ lit " retries: ") :: m)))
    /\ length (calls w') = (length (calls w) + n + 1)%nat
    /\ cache_dir w' = cache_dir w
    /\ log_file w' = log_file w.
Proof.
  intros Hn Hsid Hmiss Hpre Hrun.
  destruct (after_retries self w sid n)
    as (t & w1 & later & Heq & Hmiss1 & Hc & Hl & Hd & Hcalls & Hsl & _); auto; [lia|].
  rewrite <- Hcalls in Hrun.
  destruct (last_attempt_errored o prompt system_prompt later
              (set_cli_timeout t self) w1 sid Hmiss1 Hsid Hrun) as (m & Hlast).
  exists t. eexists. exists m. split.
  - rewrite Heq, Hn. exact Hlast.
  - cbn [calls sleeps log_file cache_dir add_call].
    rewrite length_app, Hcalls. cbn [length]. repeat split; auto; lia.
Qed.

End OutcomeFacts.

(** X10.  After [n] retried failures an accepted answer is returned at
    once: [n + 1] calls were made, the pauses were the floats
    [base_delay * 1], ..., [base_delay * n], nothing was logged, and the
    answer is stored in the cache exactly when caching is on.  A retried
    failure is a timeout or a process error whose report can be printed;
    an accepted answer is one whose performance line can be printed. *)
Theorem retry_recovers o self w prompt system_prompt sid (n : nat) response :
  Z.of_nat n < max_retries self ->
  session_id self = Some sid ->
  cache_miss self w prompt system_prompt ->
  (forall i, (i < n)%nat -> retriable (run o (length (calls w) + i))) ->
  answers (run o (length (calls w) + n)) response ->
  exists t w',
    _ainvoke_claude_with_retry o self w prompt system_prompt =
      (set_cli_timeout t self, w', Ok response)
    /\ length (calls w') = (length (calls w) + n + 1)%nat
    /\ sleeps w' = sleeps w ++ backoff self 1 n
    /\ log_file w' = log_file w
    /\ (use_cache self = false -> cache_dir w' = cache_dir w)
    /\ (use_cache self = true ->
        exists key, _get_cache_key prompt system_prompt = Ok key /\
                    cache_dir w' = <[key := response]> (cache_dir w)).
Proof. apply retry_answered. Qed.

Lemma retry_recovers_witness :
  2 < max_retries (sample_agent 3 600 true) /\
  exists t w',
    _ainvoke_claude_with_retry (recovering 2 sample_stdout) (sample_agent 3 600 true)
      empty_world (lit "user") (lit "system") =
      (set_cli_timeout t (sample_agent 3 600 true), w', Ok sample_response)
    /\ sleeps w' = [float_mul (FFin false 1 1) (float_of_int 1);
                    float_mul (FFin false 1 1) (float_of_int 2)].
Proof.
  split; [simpl; lia|].
  destruct (retry_recovers (recovering 2 sample_stdout) (sample_agent 3 600 true)
              empty_world (lit "user") (lit "system")
              (lit "0f8fad5b-d9cb-469f-a165-70867728950e") 2 sample_response)
    as (t & w' & H & _ & Hs & _).
  - simpl; lia.
  - reflexivity.
  - right. exists sample_key. split; reflexivity.
  - intros i Hi. left. simpl. destruct i as [|[|i]]; [reflexivity | reflexivity | lia].
  - exists sample_stdout, [], (match sample_response with VDict d => d | _ => [] end).
    split; [reflexivity|]. split; [vm_compute; reflexivity|].
    split; [reflexivity|]. split; [reflexivity|]. split; [reflexivity|].
    split; intros s E; discriminate.
  - exists t, w'. split; [exact H | exact Hs].
Defined.

(** X12.  When every attempt times out the agent is left with the timeout
    narrowed once per retried attempt (the last attempt does not narrow
    it), and nothing else of the agent changes. *)
Theorem timeouts_leave_agent_narrowed o self w prompt system_prompt sid :
  1 <= max_retries self ->
  session_id self = Some sid ->
  cache_miss self w prompt system_prompt ->
  (forall i, (i < Z.to_nat (max_retries self))%nat ->
             run o (length (calls w) + i) = TimedOut) ->
  (_ainvoke_claude_with_retry o self w prompt system_prompt).1.1 =
    set_cli_timeout
      (Nat.iter (Z.to_nat (max_retries self) - 1) narrowed (cli_timeout self)) self.
Proof.
  intros Hm Hsid Hmiss Hall.
  set (n := (Z.to_nat (max_retries self) - 1)%nat).
  assert (Hn : 1 + Z.of_nat n = max_retries self) by lia.
  destruct (after_retries o prompt system_prompt self w sid n)
    as (t & w1 & later & Heq & Hmiss1 & _ & _ & _ & Hcalls & _ & Ht); auto.
  - lia.
  - intros i Hi. left. apply Hall. lia.
  - rewrite Heq, Hn.
    change (max_retries self) with (max_retries (set_cli_timeout t self)).
    rewrite (last_attempt_timed_out o prompt system_prompt _ _ _ sid); auto.
    + simpl. f_equal. apply Ht. intros i Hi. apply Hall. lia.
    + rewrite Hcalls. apply Hall. lia.
Qed.

Lemma timeouts_leave_agent_narrowed_witness :
  1 <= max_retries (sample_agent 3 600 false) /\
  cli_timeout
    (_ainvoke_claude_with_retry (always TimedOut) (sample_agent 3 600 false)
       empty_world (lit "user") (lit "system")).1.1 = 150.
Proof.
  split; [simpl; lia|].
  rewrite (timeouts_leave_agent_narrowed (always TimedOut) (sample_agent 3 600 false)
             empty_world (lit "user") (lit "system")
             (lit "0f8fad5b-d9cb-469f-a165-70867728950e")).
  - reflexivity.
  - simpl; lia.
  - reflexivity.
  - left. reflexivity.
  - intros i _. reflexivity.
Defined.



(** X14.  A run that cannot be read ends in the hold envelope of an
    invalid response, whatever the number of the attempt: output that
    cannot be decoded, output that is not JSON, an envelope whose cost
    is a string, and an envelope whose duration or number of turns is a
    string that cannot be encoded.  The answer of the engine is dropped,
    is not cached, and no retry follows.  The attempts before it were
    timeouts or process errors whose report can be printed. *)
Theorem unreadable_output_holds o self w prompt system_prompt sid (n : nat) :
  Z.of_nat n < max_retries self ->
  session_id self = Some sid ->
  cache_miss self w prompt system_prompt ->
  (forall i, (i < n)%nat -> retriable (run o (length (calls w) + i))) ->
  unreadable (run o (length (calls w) + n)) ->
  exists t w',
    _ainvoke_claude_with_retry o self w prompt system_prompt =
      (set_cli_timeout t self, w', Ok json_decode_envelope)
    /\ length (calls w') = (length (calls w) + n + 1)%nat
    /\ sleeps w' = sleeps w ++ backoff self 1 n
    /\ cache_dir w' = cache_dir w
    /\ log_file w' = log_file w.
Proof. apply retry_unreadable. Qed.

Lemma unreadable_output_holds_witness :
  0 < max_retries (sample_agent 3 600 true) /\
  exists t w',
    _ainvoke_claude_with_retry (always (Exited 0 worded_cost_stdout []))
      (sample_agent 3 600 true) empty_world (lit "user") (lit "system") =
      (set_cli_timeout t (sample_agent 3 600 true), w', Ok json_decode_envelope)
    /\ cache_dir w' = ∅.
Proof.
  split; [simpl; lia|].
  destruct (unreadable_output_holds (always (Exited 0 worded_cost_stdout []))
              (sample_agent 3 600 true) empty_world (lit "user") (lit "system")
              (lit "0f8fad5b-d9cb-469f-a165-70867728950e") 0)
    as (t & w' & H & _ & _ & Hc & _).
  - simpl; lia.
  - reflexivity.
  - right. exists sample_key. split; reflexivity.
  - intros i Hi. lia.
  - right. exists worded_cost_stdout, []. split; [reflexivity|].
    right. eexists. split; [vm_compute; reflexivity|].
    split; [reflexivity|]. left. exists (lit "0.12"). reflexivity.
  - exists t, w'. split; [exact H | exact Hc].
Defined.

(** X8.  What an accepted run stores is what the next invocation for the
    same prompts returns, whatever the engine would do then and whatever
    the agent's session and timeout are by then: no further call is
    made.  An accepted run is one whose performance line can be
    printed. *)
Theorem stored_response_is_replayed o o' self self' w prompt system_prompt sid t t' response :
  use_cache self = true -> use_cache self' = true ->
  session_id self = Some sid ->
  cache_miss self w prompt system_prompt ->
  answers (run o (length (calls w))) response ->
  exists w1,
    _invoke_claude_cli o self w prompt system_prompt t = (w1, Ok response) /\
    length (calls w1) = S (length (calls w)) /\
    _invoke_claude_cli o' self' w1 prompt system_prompt t' = (w1, Ok response).
Proof.
  intros Hu Hu' Hsid Hmiss Hans.
  destruct Hmiss as [Hf | (key & Hk & Hnone)]; [congruence|].
  unfold _invoke_claude_cli at 1. rewrite Hu, Hk. cbn [bind]. rewrite Hnone, Hsid.
  destruct (run o (length (calls w))) as [|returncode stdout stderr| |] eqn:Hrun;
    try (destruct Hans as (? & ? & ? & ? & _); discriminate).
  rewrite (on_exit_answers prompt system_prompt _ _ _ _ stderr response Hans).
  rewrite Hu, Hk. eexists. split; [reflexivity|]. split.
  - simpl. rewrite length_app. simpl. lia.
  - apply (invoke_hit o' self' _ prompt system_prompt t' key); auto.
    simpl. apply lookup_insert_eq.
Qed.

Lemma stored_response_is_replayed_witness :
  exists w1,
    _invoke_claude_cli (always (Exited 0 sample_stdout [])) (sample_agent 3 600 true)
      empty_world (lit "user") (lit "system") None = (w1, Ok sample_response) /\
    _invoke_claude_cli (always TimedOut) (sample_agent 1 120 true)
      w1 (lit "user") (lit "system") (Some 5) = (w1, Ok sample_response).
Proof.
  destruct (stored_response_is_replayed (always (Exited 0 sample_stdout []))
              (always TimedOut) (sample_agent 3 600 true) (sample_agent 1 120 true)
              empty_world (lit "user") (lit "system")
              (lit "0f8fad5b-d9cb-469f-a165-70867728950e") None (Some 5) sample_response)
    as (w1 & H1 & _ & H2).
  - reflexivity.
  - reflexivity.
  - reflexivity.
  - right. exists sample_key. split; reflexivity.
  - exists sample_stdout, [], (match sample_response with VDict d => d | _ => [] end).
    split; [reflexivity|]. split; [vm_compute; reflexivity|].
    split; [reflexivity|]. split; [reflexivity|]. split; [reflexivity|].
    split; intros s E; discriminate.
  - exists w1. split; [exact H1 | exact H2].
Defined.

(** X9.  An invocation never removes or replaces a stored response, never
    writes when caching is off, and stores nothing when it fails; what
    it adds is the response it returns, under the key of its prompts. *)
Theorem cache_only_grows o self w prompt system_prompt t w' r :
  _invoke_claude_cli o self w prompt system_prompt t = (w', r) ->
  cache_dir w ⊆ cache_dir w' /\
  (use_cache self = false -> cache_dir w' = cache_dir w) /\
  (forall e, r = Raise e -> cache_dir w' = cache_dir w) /\
  (forall key v,
     cache_dir w !! key = None -> cache_dir w' !! key = Some v ->
     r = Ok v /\ _get_cache_key prompt system_prompt = Ok key).
Proof.
  unfold _invoke_claude_cli. intros H.
  assert (Hsame : forall w0 r0, (w0, r0) = (w', r) -> cache_dir w0 = cache_dir w ->
            cache_dir w ⊆ cache_dir w' /\
            (use_cache self = false -> cache_dir w' = cache_dir w) /\
            (forall e, r = Raise e -> cache_dir w' = cache_dir w) /\
            (forall key v,
               cache_dir w !! key = None -> cache_dir w' !! key = Some v ->
               r = Ok v /\ _get_cache_key prompt system_prompt = Ok key)).
  { intros w0 r0 E Hc. inversion E; subst. rewrite Hc.
    repeat split; auto; congruence. }
  destruct (use_cache self) eqn:Hu.
  - destruct (_get_cache_key prompt system_prompt) as [key|e] eqn:Hk; cbn [bind] in H;
      [|now apply (Hsame _ _ H)].
    destruct (cache_dir w !! key) as [stored|] eqn:Hl; [now apply (Hsame _ _ H)|].
    destruct (session_id self) as [sid|]; [|now apply (Hsame _ _ H)].
    destruct (run o (length (calls w))) as [|returncode stdout stderr| |];
      try (now apply (Hsame _ _ H)).
    unfold on_exit in H. rewrite Hu, Hk in H.
    repeat match type of H with
           | (if ?b then _ else _) = _ => destruct b
           | match ?x with _ => _ end = _ => destruct x
           end;
      try (now apply (Hsame _ _ H)).
    inversion H; subst; clear H. simpl.
    split; [now apply insert_subseteq|]. split; [discriminate|]. split; [discriminate|].
    intros key' v' Hn Hs. destruct (decide (key = key')) as [<-|Hne].
    + rewrite lookup_insert_eq in Hs. inversion Hs. auto.
    + rewrite lookup_insert_ne in Hs by exact Hne. congruence.
  - destruct (session_id self) as [sid|]; [|now apply (Hsame _ _ H)].
    destruct (run o (length (calls w))) as [|returncode stdout stderr| |];
      try (now apply (Hsame _ _ H)).
    unfold on_exit in H. rewrite Hu in H.
    repeat match type of H with
           | (if ?b then _ else _) = _ => destruct b
           | match ?x with _ => _ end = _ => destruct x
           end;
      now apply (Hsame _ _ H).
Qed.

(** X15.  With caching on, a prompt that holds a surrogate never reaches
    the engine: computing the cache key raises [UnicodeEncodeError], a
    [ValueError], and the controller answers with the hold envelope of
    an invalid response without making a call. *)
Theorem unencodable_prompt_holds o self w prompt system_prompt c :
  use_cache self = true ->
  1 <= max_retries self ->
  surrogate c -> c ∈ prompt \/ c ∈ system_prompt ->
  _get_cache_key prompt system_prompt = Raise UnicodeEncodeError /\
  _ainvoke_claude_with_retry o self w prompt system_prompt =
    (self, w, Ok json_decode_envelope).
Proof.
  intros Hu Hm Hc Hin.
  assert (Hk : _get_cache_key prompt system_prompt = Raise UnicodeEncodeError).
  { unfold _get_cache_key.
    assert (He : Sha256.encode (combined prompt system_prompt) = None); [|now rewrite He].
    apply encode_none. exists c. split.
    - unfold combined. rewrite !elem_of_app. tauto.
    - apply utf8_char_none. now left. }
  split; [exact Hk|].
  unfold _ainvoke_claude_with_retry. rewrite seqZ_cons by lia.
  apply (attempt_unreadable o prompt system_prompt _ _ self w w UnicodeEncodeError);
    [|reflexivity..].
  unfold _invoke_claude_cli. now rewrite Hu, Hk.
Qed.

Lemma unencodable_prompt_holds_witness :
  _ainvoke_claude_with_retry (always TimedOut) (sample_agent 3 600 true) empty_world
    (lit "buy" ++ [55357%N]) (lit "system") =
    (sample_agent 3 600 true, empty_world, Ok json_decode_envelope).
Proof.
  apply (unencodable_prompt_holds (always TimedOut) (sample_agent 3 600 true) empty_world
           (lit "buy" ++ [55357%N]) (lit "system") 55357%N).
  - reflexivity.
  - simpl; lia.
  - unfold surrogate; lia.
  - left. apply elem_of_app. right. apply list_elem_of_here.
Defined.

Lemma cache_only_grows_witness :
  cache_dir empty_world ⊆
  cache_dir (_invoke_claude_cli (always (Exited 0 sample_stdout [])) (sample_agent 3 600 true)
               empty_world (lit "user") (lit "system") None).1.
Proof.
  apply (cache_only_grows (always (Exited 0 sample_stdout [])) (sample_agent 3 600 true)
           empty_world (lit "user") (lit "system") None _ _ (surjective_pairing _)).
Defined.


Section ScheduleFacts.

Context (o : outside) (prompt system_prompt : str).

(** An invocation that ends in a failure the controller retries has
    made its call. *)
Lemma invoke_retried_called self w t w' e :
  _invoke_claude_cli o self w prompt system_prompt (Some t) = (w', Raise e) ->
  e = TimeoutError \/ (exists m, e = ClaudeCodeError m) ->
  sleeps w' = sleeps w /\ exists c, calls w' = calls w ++ [c].
Proof.
  intros H He. pose proof (invoke_frame o _ _ _ _ _ _ _ H) as (_ & Hs & _).
  split; [exact Hs|].
  destruct (invoke_cases o prompt system_prompt _ _ _ _ _ H)
    as [(_ & Ht & Hc) | (c & Hc & _)]; [|eauto].
  exfalso. destruct He as [-> | [m ->]]; [now apply Ht | now apply (Hc m)].
Qed.

(** The pauses of a run of attempts that ends with the last attempt the
    agent allows. *)
Lemma attempts_sleeps (n : nat) : forall (k : Z) self w,
  k + Z.of_nat n = max_retries self + 1 ->
  exists j : nat,
    sleeps (attempts_from o (seqZ k (Z.of_nat n)) self w prompt system_prompt).1.2 =
      sleeps w ++ backoff self k j /\
    (j < Nat.max 1 n)%nat /\
    (length (calls w) + j <=
     length (calls (attempts_from o (seqZ k (Z.of_nat n)) self w prompt system_prompt).1.2))%nat.
Proof.
  induction n as [|n IH]; intros k self w Hk.
  - exists 0%nat. unfold backoff. cbn [Z.of_nat]. rewrite seqZ_nil by lia.
    cbn [attempts_from fst snd map]. rewrite app_nil_r. repeat split; lia.
  - rewrite seqZ_cons by lia.
    replace (Z.pred (Z.of_nat (S n))) with (Z.of_nat n) by lia.
    destruct (_invoke_claude_cli o self w prompt system_prompt
                (Some (cli_timeout self))) as [w1 r1] eqn:Hinv.
    pose proof (invoke_frame o _ _ _ _ _ _ _ Hinv) as (Hcalls & Hs & _).
    assert (Hgrow : (length (calls w) <= length (calls w1))%nat).
    { destruct Hcalls as [-> | (c & -> & _)]; [lia|]. rewrite length_app. lia. }
    destruct (attempts_unfold o prompt system_prompt k (seqZ (Z.succ k) (Z.of_nat n))
                _ _ _ _ Hinv) as [(x & ->) | (t & Hne & Hr & ->)].
    + exists 0%nat. unfold backoff. cbn [Z.of_nat]. rewrite seqZ_nil by lia.
      cbn [fst snd map]. rewrite app_nil_r. repeat split; [exact Hs|lia|lia].
    + assert (Hc : exists c, calls w1 = calls w ++ [c]).
      { destruct Hr as [[-> _] | [[m ->] _]];
          eapply invoke_retried_called; eauto. }
      destruct Hc as (c & Hc).
      destruct (IH (Z.succ k) (set_cli_timeout t self)
                  (add_sleep (float_mul (base_delay self) (float_of_int k)) w1))
        as (j & Hsl & Hj & Hcj); [cbn [max_retries set_cli_timeout]; lia|].
      exists (S j). split; [|split].
      * rewrite Hsl. cbn [sleeps add_sleep]. rewrite Hs, <- app_assoc. f_equal.
        unfold backoff. rewrite (seqZ_cons k) by lia.
        replace (Z.pred (Z.of_nat (S j))) with (Z.of_nat j) by lia. reflexivity.
      * assert (n <> 0)%nat by lia. lia.
      * cbn [calls add_sleep] in Hcj. rewrite Hc, length_app in Hcj.
        cbn [length] in Hcj. lia.
Qed.

End ScheduleFacts.

(** X11.  Whatever the engine does, the pauses of one run of the retry
    controller are the floats [base_delay * 1], [base_delay * 2], ... in
    this order, each the product rounded as a float multiplication
    rounds it: a linear schedule.  There are fewer of them than attempts
    allowed, and each follows a call that was made. *)
Theorem backoff_schedule o self w prompt system_prompt :
  exists j : nat,
    sleeps (_ainvoke_claude_with_retry o self w prompt system_prompt).1.2 =
      sleeps w ++ backoff self 1 j /\
    Z.of_nat j < Z.max 1 (max_retries self) /\
    (length (calls w) + j <=
     length (calls (_ainvoke_claude_with_retry o self w prompt system_prompt).1.2))%nat.
Proof.
  unfold _ainvoke_claude_with_retry.
  destruct (Z.le_gt_cases (max_retries self) 0) as [Hm | Hm].
  - exists 0%nat. rewrite seqZ_nil by lia. unfold backoff. cbn [Z.of_nat].
    rewrite seqZ_nil by lia. cbn [attempts_from fst snd map]. rewrite app_nil_r.
    repeat split; lia.
  - destruct (attempts_sleeps o prompt system_prompt (Z.to_nat (max_retries self)) 1 self w)
      as (j & Hs & Hj & Hc); [lia|].
    rewrite Z2Nat.id in Hs, Hc by lia.
    exists j. split; [exact Hs|]. split; [lia | exact Hc].
Qed.

(** The pauses are rounded products: with a base delay of 0.1 the third
    pause is 0.30000000000000004 (5404319552844596 / 2^54) and not
    0.3. *)
Lemma backoff_rounds self :
  base_delay self = float_of_ratio false 1 10 ->
  backoff self 3 1 = [FFin false 5404319552844596 (-54)].
Proof. unfold backoff. intros ->. vm_compute. reflexivity. Qed.


(** ** Further properties of the session *)

Section AgentFacts.

Context (o : outside) (prompt system_prompt : str).

(** The retry controller changes nothing of the agent but its timeout. *)
Lemma attempts_agent attempts : forall self w self' w' r,
  attempts_from o attempts self w prompt system_prompt = (self', w', r) ->
  exists t, self' = set_cli_timeout t self.
Proof.
  induction attempts as [|attempt later IH]; intros self w self' w' r H.
  - inversion H; subst. exists (cli_timeout self'). now rewrite set_cli_timeout_id.
  - destruct (_invoke_claude_cli o self w prompt system_prompt
                (Some (cli_timeout self))) as [w1 r1] eqn:Hinv.
    destruct (attempts_unfold o prompt system_prompt attempt later _ _ _ _ Hinv)
      as [(x & Hx) | (t & _ & _ & Hx)]; rewrite Hx in H.
    + inversion H; subst. exists (cli_timeout self'). now rewrite set_cli_timeout_id.
    + apply IH in H as (t' & ->). now exists t'.
Qed.

(** The call of an invocation, when it makes one. *)
Lemma invoke_call self w t w' r :
  _invoke_claude_cli o self w prompt system_prompt (Some t) = (w', r) ->
  calls w' = calls w \/
  exists sid, session_id self = Some sid /\
              calls w' = calls w ++ [call_of self sid prompt system_prompt t].
Proof.
  unfold _invoke_claude_cli. intros H.
  destruct (if use_cache self then _ else _) as [[response|]|e].
  - inversion H; subst. auto.
  - destruct (session_id self) as [sid|]; [|inversion H; subst; auto].
    right. exists sid. split; [reflexivity|].
    destruct (run o (length (calls w))) as [|returncode stdout stderr| |].
    + inversion H; subst; reflexivity.
    + apply on_exit_frame in H as (Hc & _). rewrite Hc. reflexivity.
    + inversion H; subst; reflexivity.
    + inversion H; subst; reflexivity.
  - inversion H; subst. auto.
Qed.

(** Every call of a run of the controller carries the same command
    line and working directory. *)
Lemma attempts_commands sid attempts : forall self w self' w' r,
  session_id self = Some sid ->
  attempts_from o attempts self w prompt system_prompt = (self', w', r) ->
  exists new,
    calls w' = calls w ++ new /\ (length new <= length attempts)%nat /\
    Forall (fun c => cmd c = command self sid prompt system_prompt /\
                     cwd c = claude_workspace self) new.
Proof.
  induction attempts as [|attempt later IH]; intros self w self' w' r Hsid H.
  - inversion H; subst. exists []. rewrite app_nil_r. repeat split; auto.
  - destruct (_invoke_claude_cli o self w prompt system_prompt
                (Some (cli_timeout self))) as [w1 r1] eqn:Hinv.
    pose proof (invoke_call _ _ _ _ _ Hinv) as Hcall.
    assert (Hone : exists new,
              calls w1 = calls w ++ new /\ (length new <= 1)%nat /\
              Forall (fun c => cmd c = command self sid prompt system_prompt /\
                               cwd c = claude_workspace self) new).
    { destruct Hcall as [Hc | (sid' & Hs & Hc)].
      - exists []. rewrite app_nil_r. repeat split; auto.
      - exists [call_of self sid' prompt system_prompt (cli_timeout self)].
        split; [exact Hc|]. split; [simpl; lia|].
        constructor; [|constructor]. assert (sid' = sid) as -> by congruence.
        split; reflexivity. }
    destruct Hone as (new1 & Hc1 & Hl1 & Hf1).
    destruct (attempts_unfold o prompt system_prompt attempt later _ _ _ _ Hinv)
      as [(x & Hx) | (t & _ & _ & Hx)]; rewrite Hx in H.
    + inversion H; subst. exists new1. cbn [length]. repeat split; auto. lia.
    + apply IH in H as (new2 & Hc2 & Hl2 & Hf2); [|exact Hsid].
      exists (new1 ++ new2). cbn [calls add_sleep] in Hc2.
      rewrite Hc2, Hc1, <- app_assoc.
      split; [reflexivity|]. split; [rewrite length_app; cbn [length]; lia|].
      apply Forall_app. split; [exact Hf1 | exact Hf2].
Qed.

(** The controller draws no session identifier. *)
Lemma attempts_drawn attempts : forall self w self' w' r,
  attempts_from o attempts self w prompt system_prompt = (self', w', r) ->
  drawn w' = drawn w.
Proof.
  induction attempts as [|attempt later IH]; intros self w self' w' r H.
  - now inversion H.
  - destruct (_invoke_claude_cli o self w prompt system_prompt
                (Some (cli_timeout self))) as [w1 r1] eqn:Hinv.
    pose proof (invoke_frame o _ _ _ _ _ _ _ Hinv) as (_ & _ & _ & Hd).
    destruct (attempts_unfold o prompt system_prompt attempt later _ _ _ _ Hinv)
      as [(x & Hx) | (t & _ & _ & Hx)]; rewrite Hx in H.
    + inversion H; subst. exact Hd.
    + apply IH in H. cbn [drawn add_sleep] in H. congruence.
Qed.

End AgentFacts.

Section BodyFacts.

Context (U : list str) (o : outside).

(** The records and the calls of the body of a session. *)
Lemma session_body_trace self w date prompt system_prompt sid self' w' r :
  session_id self = Some sid ->
  session_body U o self w date prompt system_prompt = (self', w', r) ->
  (exists t, self' = set_cli_timeout t self) /\
  drawn w' = drawn w /\
  (exists new,
     calls w' = calls w ++ new /\ (length new <= Z.to_nat (max_retries self))%nat /\
     Forall (fun c => cmd c = command self sid prompt system_prompt /\
                      cwd c = claude_workspace self) new) /\
  match r with
  | Ok _ => exists text cost d,
      log_file w' = log_file w ++
        [(date, LogAssistant text cost (Some sid)); (date, LogDecision d)]
  | Raise e =>
      log_file w' = log_file w \/
      exists text cost,
        log_file w' = log_file w ++ [(date, LogAssistant text cost (Some sid))]
  end.
Proof.
  unfold session_body, _ainvoke_claude_with_retry. intros Hsid H.
  destruct (attempts_from o _ self w prompt system_prompt) as [[self1 w1] r1] eqn:Hr.
  pose proof (attempts_log o _ _ _ _ _ _ _ _ Hr) as Hlog.
  pose proof (attempts_agent o _ _ _ _ _ _ _ _ Hr) as (t & Hself).
  pose proof (attempts_drawn o _ _ _ _ _ _ _ _ Hr) as Hd.
  pose proof (attempts_commands o _ _ sid _ _ _ _ _ _ Hsid Hr) as (new & Hc & Hlen & Hf).
  assert (Hlen' : (length new <= Z.to_nat (max_retries self))%nat).
  { rewrite length_seqZ in Hlen. exact Hlen. }
  assert (Hs1 : session_id self1 = Some sid) by (subst self1; exact Hsid).
  destruct r1 as [response | e].
  2:{ inversion H; subst w' r self'. repeat split; eauto. }
  destruct (get response (lit "result") (VStr [])) as [response_text | e].
  2:{ inversion H; subst w' r self'. repeat split; eauto. }
  rewrite Hs1 in H.
  set (entry := LogAssistant _ _ _) in H.
  destruct (match response_text with VStr text => _ | _ => Raise TypeError end)
    as [decision | e] eqn:Hext.
  2:{ inversion H; subst w' r self'. simpl. repeat split; eauto.
      right. rewrite Hlog. unfold entry. eauto. }
  destruct (print_decision decision) as [u | e].
  - inversion H; subst w' r self'. simpl. repeat split; eauto.
    rewrite Hlog, <- app_assoc. unfold entry. eauto.
  - inversion H; subst w' r self'. simpl. repeat split; eauto.
    right. rewrite Hlog. unfold entry. eauto.
Qed.

End BodyFacts.




(** X18.  A session whose opening line can be printed (the date holds
    no surrogate) draws one identifier, also on a day it skips, and
    leaves it in the agent; a session whose opening line cannot be
    printed ends there, with a [UnicodeEncodeError] and nothing drawn.
    A session calls the engine only once the trading context is there,
    at most [max_retries] times, and every call of the day carries the
    same command line: the prompts of the day, the identifier just
    drawn, and the agent's workspace as working directory. *)
Theorem session_calls_share_command U o self w date :
  ((encodes date /\
    session_id (run_trading_session U o self w date).1.1 = Some (uuid4 o (drawn w)) /\
    drawn (run_trading_session U o self w date).1.2 = S (drawn w)) \/
   (~ encodes date /\
    run_trading_session U o self w date = (self, w, Raise UnicodeEncodeError))) /\
  exists new,
    calls (run_trading_session U o self w date).1.2 = calls w ++ new /\
    (length new <= Z.to_nat (max_retries self))%nat /\
    match trading_context o date with
    | Raise _ => new = []
    | Ok c =>
        Forall (fun call =>
                  cmd call = command self (uuid4 o (drawn w))
                               (build_user_prompt date) (build_system_prompt date c) /\
                  cwd call = claude_workspace self) new
    end.
Proof.
  unfold run_trading_session.
  destruct (announce_cases date) as [[He ->] | [Hn ->]].
  2:{ split; [right; auto|]. exists []. cbn [fst snd]. rewrite app_nil_r.
      split; [reflexivity|]. split; [cbn [length]; lia|].
      destruct (trading_context o date); [constructor | reflexivity]. }
  destruct (trading_context o date) as [c | e].
  2:{ destruct (print _) as [ [] | e' ];
        (split; [left; repeat split; auto|]); exists []; cbn [fst snd calls add_log draw];
        rewrite app_nil_r; repeat split; auto; cbn [length]; lia. }
  destruct (session_body U o _ _ date _ _) as [[self' w'] r] eqn:Hb.
  apply (session_body_trace U o _ _ _ _ _ (uuid4 o (drawn w))) in Hb
    as ((t & ->) & Hd & (new & Hc & Hlen & Hf) & _); [|reflexivity].
  cbn [calls drawn add_log draw max_retries set_session_id] in Hc, Hd, Hlen.
  destruct r as [ [] | e ]; [|destruct (print _) as [ [] | e' ]];
    cbn [fst snd calls drawn add_log];
    (split; [left; split; [exact He|]; split; [reflexivity | exact Hd]|]; exists new;
     split; [exact Hc|]; split; [exact Hlen|]; exact Hf).
Qed.

(** A decision the validator accepts and that is not a hold has a
    confidence that is a number. *)
Lemma validated_trade_confidence U d a :
  _validate_decision U d = Ok true ->
  dict_get (lit "action") d = Some (VStr a) ->
  a <> lit "hold" ->
  exists f, as_float (dict_get_default (lit "confidence") (VInt 0) d) = Some f.
Proof.
  unfold _validate_decision, dict_item. intros H Ha Hne.
  destruct (negb (forallb _ required_fields)); [discriminate|].
  rewrite Ha in H. cbn [bind] in H.
  destruct (negb (in_strs (VStr a) actions)); [discriminate|].
  destruct (eq_str (VStr a) (lit "hold")) eqn:Hh.
  { apply eq_str_iff in Hh. congruence. }
  destruct (dict_get (lit "symbol") d) as [symbol|]; [|discriminate]. cbn [bind] in H.
  destruct (negb (in_strs symbol U)).
  { destruct (str_of symbol) as [p|e]; [|discriminate]. cbn [bind] in H.
    destruct (print _) as [ [] | e ]; discriminate. }
  destruct (dict_get (lit "amount") d) as [amount|]; [|discriminate]. cbn [bind] in H.
  destruct (if negb (is_int_or_float amount) then Ok true else py_le amount (VInt 0))
    as [[|]|]; [| |discriminate].
  { cbn [bind] in H. destruct (str_of amount) as [p|e]; [|discriminate]. cbn [bind] in H.
    destruct (print _) as [ [] | e ]; discriminate. }
  cbn [bind] in H. unfold py_le in H at 1. cbn [as_float] in H.
  destruct (as_float (dict_get_default (lit "confidence") (VInt 0) d)) as [f|];
    [eauto | discriminate].
Qed.

(** The line that shows the action of a decision. *)
Lemma action_shown a :
  a ∈ actions ->
  print [Chars (nl ++ mark_chart ++ lit " Decision: " ++ upper a)] = Ok tt.
Proof.
  intros Hin. apply print_ok, printable_cons. split; [|reflexivity].
  apply encodable_chars. unfold actions in Hin. rewrite !elem_of_cons in Hin.
  destruct Hin as [-> | [-> | [-> | Hin]]];
    [vm_compute; discriminate .. | now apply elem_of_nil in Hin].
Qed.

(** X19.  Only a hold decision can come out of the extraction with a
    confidence that is not a number, since a hold is accepted whatever
    its other fields hold.  The session then fails where it shows the
    confidence as a percentage, with a [ValueError] for a string and a
    [TypeError] otherwise: the answer is already logged, the decision
    never is. *)
Theorem unprintable_confidence_loses_decision U o self w date prompt system_prompt
    self' w' response text d :
  _ainvoke_claude_with_retry o self w prompt system_prompt = (self', w', Ok response) ->
  get response (lit "result") (VStr []) = Ok (VStr text) ->
  _extract_decision U text = Ok d ->
  as_float (dict_get_default (lit "confidence") (VInt 0) d) = None ->
  dict_get (lit "action") d = Some (VStr (lit "hold")) /\
  exists e cost,
    session_body U o self w date prompt system_prompt =
      (self', add_log date (LogAssistant (VStr text) cost (session_id self')) w', Raise e) /\
    e = match dict_get_default (lit "confidence") (VInt 0) d with
        | VStr _ => ValueError
        | _ => TypeError
        end.
Proof.
  intros Hr Hget Hext Hconf.
  pose proof (extract_valid U _ _ Hext) as Hv.
  destruct (validate_true_shape U _ Hv) as (_ & a & Ha & Hin).
  assert (Hhold : a = lit "hold").
  { destruct (decide (a = lit "hold")) as [|Hne]; [assumption|].
    destruct (validated_trade_confidence U d a Hv Ha Hne) as (f & Hf). congruence. }
  subst a. split; [exact Ha|].
  assert (Hp : print_decision d =
               Raise match dict_get_default (lit "confidence") (VInt 0) d with
                     | VStr _ => ValueError
                     | _ => TypeError
                     end).
  { unfold print_decision, dict_item. rewrite Ha. cbn [bind].
    rewrite (action_shown _ Hin). cbn [bind].
    rewrite (proj2 (eq_str_iff (VStr (lit "hold")) (lit "hold")) eq_refl). cbn [bind].
    destruct (dict_get_default (lit "confidence") (VInt 0) d) as [| | | |s|l|d'];
      try discriminate; reflexivity. }
  unfold session_body. rewrite Hr, Hget, Hext, Hp.
  eexists. eexists. split; reflexivity.
Qed.

Lemma unprintable_confidence_loses_decision_witness :
  exists self' w',
    session_body sample_symbols (always (Exited 0 worded_hold_stdout []))
      (sample_agent 3 600 false) empty_world (lit "2025-10-14") (lit "user") (lit "system") =
      (self', w', Raise ValueError) /\
    decisions (log_file w') = [].
Proof.
  edestruct (unprintable_confidence_loses_decision sample_symbols
               (always (Exited 0 worded_hold_stdout []))
               (sample_agent 3 600 false) empty_world (lit "2025-10-14")
               (lit "user") (lit "system"))
    as (_ & e & cost & Hb & He).
  - vm_compute. reflexivity.
  - vm_compute. reflexivity.
  - vm_compute. reflexivity.
  - vm_compute. reflexivity.
  - rewrite Hb. eexists. eexists. split.
    + rewrite He. vm_compute. reflexivity.
    + reflexivity.
Defined.

(** ** The decision of a session *)

(** A decision the validator accepts and the session can show is
    shown. *)
Lemma print_decision_ok U d :
  _validate_decision U d = Ok true -> showable d -> print_decision d = Ok tt.
Proof.
  intros Hv (Htrade & Hconf & Hreason).
  destruct (validate_true_shape U d Hv) as (_ & a & Ha & Hin).
  unfold print_decision, dict_item. rewrite Ha. cbn [bind].
  rewrite (action_shown _ Hin). cbn [bind].
  assert (Hrest :
    (let* _ := format_float (dict_get_default (lit "confidence") (VInt 0) d) in
     let* reasoning :=
       str_of (dict_get_default (lit "reasoning") (VStr (lit "N/A")) d) in
     print [Chars (mark_thought ++ lit " Reasoning: "); reasoning]) = Ok tt).
  { rewrite Hconf. cbn [bind].
    pose proof (str_of_refusal (dict_get_default (lit "reasoning") (VStr (lit "N/A")) d))
      as Hr.
    rewrite Hreason in Hr. destruct Hr as (p & -> & Hp). cbn [bind].
    apply print_ok, printable_cons. split; [reflexivity|].
    apply printable_cons. split; [exact Hp | reflexivity]. }
  destruct (eq_str (VStr a) (lit "hold")) eqn:Eh.
  - cbn [bind]. exact Hrest.
  - assert (Hne : dict_get (lit "action") d <> Some (VStr (lit "hold"))).
    { rewrite Ha. intros E. inversion E; subst.
      rewrite (proj2 (eq_str_iff (VStr (lit "hold")) (lit "hold")) eq_refl) in Eh.
      discriminate. }
    destruct (Htrade Hne) as [Hs Hamt].
    pose proof (str_of_refusal (dict_get_default (lit "symbol") (VStr []) d)) as H1.
    rewrite Hs in H1. destruct H1 as (p1 & -> & Hp1).
    pose proof (str_of_refusal (dict_get_default (lit "amount") (VInt 0) d)) as H2.
    rewrite Hamt in H2. destruct H2 as (p2 & -> & Hp2).
    cbn [bind]. rewrite print_ok.
    + cbn [bind]. exact Hrest.
    + apply printable_cons. split; [reflexivity|].
      apply printable_cons. split; [exact Hp1|].
      apply printable_cons. split; [reflexivity|].
      apply printable_cons. split; [exact Hp2 | reflexivity].
Qed.

Section DecisionFacts.

Context (U : list str) (o : outside).

(** With a stored response the controller returns on its first
    attempt. *)
Lemma retry_cached self w prompt system_prompt key response :
  1 <= max_retries self ->
  use_cache self = true ->
  _get_cache_key prompt system_prompt = Ok key ->
  cache_dir w !! key = Some response ->
  _ainvoke_claude_with_retry o self w prompt system_prompt = (self, w, Ok response).
Proof.
  intros Hm Hu Hk Hl. unfold _ainvoke_claude_with_retry.
  rewrite seqZ_cons by lia. cbn [attempts_from].
  now rewrite (invoke_hit o self w prompt system_prompt _ key response).
Qed.

(** A session whose controller returns an answer that carries a
    decision logs that decision. *)
Lemma session_decided self w date c self' w' response text d :
  encodes date ->
  trading_context o date = Ok c ->
  _ainvoke_claude_with_retry o (session_agent o self w) (session_world w date c)
    (build_user_prompt date) (build_system_prompt date c) = (self', w', Ok response) ->
  log_file w' = log_file (session_world w date c) ->
  get response (lit "result") (VStr []) = Ok (VStr text) ->
  _extract_decision U text = Ok d ->
  showable d ->
  (run_trading_session U o self w date).2 = Ok tt /\
  decided U o self w date = [(date, LogDecision d)].
Proof.
  intros Hd Hc Hr Hlog Hg He Hs. unfold decided.
  rewrite (session_started U o self w date c Hd Hc).
  rewrite (session_body_decides U o _ _ date _ _ _ _ _ _ _ Hr Hg He
             (print_decision_ok U d (extract_valid U _ _ He) Hs)).
  cbn [fst snd log_file add_log]. split; [reflexivity|].
  rewrite Hlog. unfold session_world. cbn [log_file add_log draw].
  rewrite <- !app_assoc, drop_app_length. reflexivity.
Qed.

(** A session whose controller raises logs no decision and raises. *)
Lemma session_raised self w date c self' w' e :
  encodes date ->
  trading_context o date = Ok c ->
  _ainvoke_claude_with_retry o (session_agent o self w) (session_world w date c)
    (build_user_prompt date) (build_system_prompt date c) = (self', w', Raise e) ->
  log_file w' = log_file (session_world w date c) ->
  (exists e', (run_trading_session U o self w date).2 = Raise e') /\
  decided U o self w date = [].
Proof.
  intros Hd Hc Hr Hlog. unfold decided.
  rewrite (session_started U o self w date c Hd Hc).
  rewrite (session_body_raises U o _ _ date _ _ _ _ _ Hr).
  destruct (print _) as [ [] | e' ]; cbn [fst snd log_file add_log];
    (split; [eauto|]); rewrite Hlog; unfold session_world;
    cbn [log_file add_log draw]; rewrite <- !app_assoc, drop_app_length; reflexivity.
Qed.

(** The hold decisions of the two synthetic envelopes can be shown. *)
Lemma hold_decision_showable reasoning :
  encodes reasoning -> showable (hold_decision reasoning).
Proof.
  intros H. split; [intros Hne; now destruct Hne|].
  split; [reflexivity|].
  change (dict_get_default (lit "reasoning") (VStr (lit "N/A")) (hold_decision reasoning))
    with (VStr reasoning).
  cbn [refusal]. unfold encodes in H. destruct (Sha256.encode reasoning); congruence.
Qed.

(** A session adds at most one decision to the log, one the validator
    accepts. *)
Lemma session_decides_once self w date :
  decided U o self w date = [] \/
  exists d, decided U o self w date = [(date, LogDecision d)] /\
            _validate_decision U d = Ok true.
Proof.
  unfold decided. destruct (session_log U o self w date) as (new & -> & H).
  rewrite drop_app_length. exact H.
Qed.

(** A session that does not get its trading context logs no decision,
    and returns when it can report the failure. *)
Lemma session_skipped self w date e :
  trading_context o date = Raise e ->
  decided U o self w date = [] /\
  (encodes date -> printable (message e) ->
   (run_trading_session U o self w date).2 = Ok tt).
Proof.
  intros Hc. unfold decided, run_trading_session. rewrite Hc.
  destruct (announce_cases date) as [[Hd ->] | [Hn ->]].
  - destruct (handler_cases (mark_cross ++ lit " Error getting trading context: ") e)
      as [[Hp ->] | [Hp ->]]; [discriminate| |];
      cbn [fst snd log_file add_log draw].
    + rewrite drop_app_length. split; [reflexivity | auto].
    + rewrite drop_all. split; [reflexivity|]. intros _ H. contradiction.
  - cbn [fst snd]. rewrite drop_all. split; [reflexivity|]. intros H. contradiction.
Qed.

End DecisionFacts.

(** C1 as stated fails: a session can finish without a decision.  When
    every attempt ends in a process error the session raises and its log
    holds no decision; when the trading context cannot be obtained the
    session returns normally, having logged an error and no decision. *)
Lemma session_without_decision :
  ((exists m,
      (run_trading_session sample_symbols (always (Exited 1 [] (lit "crash")))
         (sample_agent 3 600 false) empty_world (lit "2025-10-14")).2 =
        Raise (RuntimeError m)) /\
   decided sample_symbols (always (Exited 1 [] (lit "crash")))
     (sample_agent 3 600 false) empty_world (lit "2025-10-14") = []) /\
  ((run_trading_session sample_symbols no_prices
      (sample_agent 3 600 false) empty_world (lit "2025-10-14")).2 = Ok tt /\
   decided sample_symbols no_prices
     (sample_agent 3 600 false) empty_world (lit "2025-10-14") = []).
Proof.
  split; split.
  - eexists. vm_compute. reflexivity.
  - vm_compute. reflexivity.
  - vm_compute. reflexivity.
  - vm_compute. reflexivity.
Qed.

(** C1 (amended).  A session adds at most one decision to the log, one
    the validator accepts.  It adds exactly one, and returns, when the
    date can be printed, the trading context is obtained and, after any
    number of retried failures (timeouts, and process errors whose
    report can be printed), one of these happens: the engine gives an
    answer the invocation manager accepts, whose result is a text from
    which the extraction returns a decision that can be shown; the run
    cannot be read, and the decision is the hold of an invalid response;
    the last attempt allowed times out, and the decision is the hold of
    the timeout envelope.  The same holds for an answer found in the
    cache.  It adds none when the last attempt allowed ends in a process
    error (the session raises), and none when the trading context cannot
    be obtained (the day is skipped). *)
Theorem session_decisions U o self w date :
  (decided U o self w date = [] \/
   exists d, decided U o self w date = [(date, LogDecision d)] /\
             _validate_decision U d = Ok true) /\
  (forall c (n : nat),
     encodes date ->
     trading_context o date = Ok c ->
     cache_miss self w (build_user_prompt date) (build_system_prompt date c) ->
     (forall i, (i < n)%nat -> retriable (run o (length (calls w) + i))) ->
     (forall response text d,
        Z.of_nat n < max_retries self ->
        answers (run o (length (calls w) + n)) response ->
        get response (lit "result") (VStr []) = Ok (VStr text) ->
        _extract_decision U text = Ok d ->
        showable d ->
        (run_trading_session U o self w date).2 = Ok tt /\
        decided U o self w date = [(date, LogDecision d)]) /\
     (Z.of_nat n < max_retries self ->
      unreadable (run o (length (calls w) + n)) ->
      (run_trading_session U o self w date).2 = Ok tt /\
      decided U o self w date =
        [(date, LogDecision (hold_decision (lit "Invalid response format")))]) /\
     (1 + Z.of_nat n = max_retries self ->
      run o (length (calls w) + n) = TimedOut ->
      (run_trading_session U o self w date).2 = Ok tt /\
      decided U o self w date =
        [(date, LogDecision (hold_decision (lit "Analysis timeout after all retries")))]) /\
     (1 + Z.of_nat n = max_retries self ->
      process_error (run o (length (calls w) + n)) ->
      (exists e, (run_trading_session U o self w date).2 = Raise e) /\
      decided U o self w date = [])) /\
  (forall c key response text d,
     encodes date ->
     trading_context o date = Ok c ->
     1 <= max_retries self ->
     use_cache self = true ->
     _get_cache_key (build_user_prompt date) (build_system_prompt date c) = Ok key ->
     cache_dir w !! key = Some response ->
     get response (lit "result") (VStr []) = Ok (VStr text) ->
     _extract_decision U text = Ok d ->
     showable d ->
     (run_trading_session U o self w date).2 = Ok tt /\
     decided U o self w date = [(date, LogDecision d)]) /\
  (forall e,
     trading_context o date = Raise e ->
     decided U o self w date = [] /\
     (encodes date -> printable (message e) ->
      (run_trading_session U o self w date).2 = Ok tt)).
Proof.
  split; [apply session_decides_once|].
  split; [|split; [|apply session_skipped]].
  - intros c n Hd Hc Hmiss Hpre.
    assert (Hmiss' : cache_miss (session_agent o self w) (session_world w date c)
                       (build_user_prompt date) (build_system_prompt date c)).
    { now apply cache_miss_session. }
    assert (Hsid : session_id (session_agent o self w) = Some (uuid4 o (drawn w)))
      by reflexivity.
    split; [|split; [|split]].
    + intros response text d Hn Hans Hg He Hs.
      destruct (retry_answered o _ _ (session_agent o self w) (session_world w date c)
                  _ n response Hn Hsid Hmiss' Hpre Hans)
        as (t & w' & Hr & _ & _ & Hlog & _).
      exact (session_decided U o self w date c _ _ _ _ _ Hd Hc Hr Hlog Hg He Hs).
    + intros Hn Hrun.
      destruct (retry_unreadable o _ _ (session_agent o self w) (session_world w date c)
                  _ n Hn Hsid Hmiss' Hpre Hrun)
        as (t & w' & Hr & _ & _ & _ & Hlog).
      apply (session_decided U o self w date c _ _ _ json_decode_text _ Hd Hc Hr Hlog).
      * reflexivity.
      * apply extract_json_decode_text.
      * apply hold_decision_showable. vm_compute. discriminate.
    + intros Hn Hrun.
      destruct (retry_timed_out o _ _ (session_agent o self w) (session_world w date c)
                  _ n Hn Hsid Hmiss' Hpre Hrun)
        as (t & w' & Hr & _ & _ & Hlog).
      apply (session_decided U o self w date c _ _ _ timeout_text _ Hd Hc Hr Hlog).
      * reflexivity.
      * apply extract_timeout_text.
      * apply hold_decision_showable. vm_compute. discriminate.
    + intros Hn Hrun.
      destruct (retry_errored o _ _ (session_agent o self w) (session_world w date c)
                  _ n Hn Hsid Hmiss' Hpre Hrun)
        as (t & w' & m & Hr & _ & _ & Hlog).
      exact (session_raised U o self w date c _ _ _ Hd Hc Hr Hlog).
  - intros c key response text d Hd Hc Hm Hu Hk Hl Hg He Hs.
    apply (session_decided U o self w date c (session_agent o self w)
             (session_world w date c) response text d Hd Hc); auto.
    apply (retry_cached o (session_agent o self w) (session_world w date c) _ _ key);
      auto.
Qed.

Lemma session_decisions_witness :
  (run_trading_session sample_symbols (recovering 2 sample_stdout)
     (sample_agent 3 600 false) empty_world (lit "2025-10-14")).2 = Ok tt /\
  decided sample_symbols (recovering 2 sample_stdout)
    (sample_agent 3 600 false) empty_world (lit "2025-10-14") =
    [(lit "2025-10-14", LogDecision default_hold)].
Proof.
  destruct (session_decisions sample_symbols (recovering 2 sample_stdout)
              (sample_agent 3 600 false) empty_world (lit "2025-10-14"))
    as (_ & H & _).
  destruct (H sample_context 2%nat) as (Hans & _).
  - vm_compute. discriminate.
  - reflexivity.
  - left. reflexivity.
  - intros i Hi. left. simpl. destruct i as [|[|i]]; [reflexivity | reflexivity | lia].
  - apply (Hans sample_response (lit "cached analysis") default_hold).
    + simpl. lia.
    + exists sample_stdout, [], (match sample_response with VDict d => d | _ => [] end).
      split; [reflexivity|]. split; [vm_compute; reflexivity|].
      split; [reflexivity|]. split; [reflexivity|]. split; [reflexivity|].
      split; intros s E; discriminate.
    + reflexivity.
    + vm_compute. reflexivity.
    + split; [intros Hne; now destruct Hne|]. split; [reflexivity|].
      vm_compute. reflexivity.
Defined.


(** ** The configuration of the tool servers *)

Lemma enabled_iff name mcp_servers : enabled name mcp_servers = true <-> name ∈ mcp_servers.
Proof.
  unfold enabled. rewrite existsb_exists. split.
  - intros (x & Hin & Heq). apply str_eqb_eq in Heq. subst. now apply list_elem_of_In.
  - intros H. exists name. split; [now apply list_elem_of_In | apply str_eqb_refl].
Qed.

(** The configuration, by which of the three servers are asked for. *)
Lemma mcp_config_cases l :
  mcp_config l =
  VDict [(lit "mcpServers", VDict (
    (if enabled (lit "sequential-thinking") l
     then [(lit "sequential-thinking", npx (lit "@modelcontextprotocol/server-sequential-thinking"))]
     else []) ++
    (if enabled (lit "context7") l
     then [(lit "context7", npx (lit "@uptoaichat/mcp-server"))] else []) ++
    (if enabled (lit "playwright") l
     then [(lit "playwright", npx (lit "@executeautomation/playwright-mcp-server"))]
     else [])))].
Proof.
  unfold mcp_config.
  destruct (enabled (lit "sequential-thinking") l), (enabled (lit "context7") l),
    (enabled (lit "playwright") l); reflexivity.
Qed.

(** Two lists that agree on the three servers give one configuration. *)
Lemma mcp_config_same mcp_servers other :
  (forall known, known ∈ known_servers -> known ∈ mcp_servers <-> known ∈ other) ->
  mcp_config mcp_servers = mcp_config other.
Proof.
  intros Hsame. rewrite !mcp_config_cases.
  assert (He : forall known, known ∈ known_servers ->
                 enabled known mcp_servers = enabled known other).
  { intros known Hk. apply eq_true_iff_eq. rewrite !enabled_iff. now apply Hsame. }
  rewrite (He (lit "sequential-thinking")), (He (lit "context7")), (He (lit "playwright"));
    [reflexivity | | |]; unfold known_servers; rewrite !elem_of_cons; auto.
Qed.

(** X20.  The configuration holds an entry for a server exactly when the
    server is one of the three the code knows and is in the list: names
    it does not know are dropped without a word, and the order of the
    list and its repetitions do not matter.  Every entry starts its
    package with [npx -y]. *)
Theorem mcp_config_servers mcp_servers name :
  (is_Some (dict_get name (configured (mcp_config mcp_servers))) <->
   name ∈ known_servers /\ name ∈ mcp_servers) /\
  (forall entry, dict_get name (configured (mcp_config mcp_servers)) = Some entry ->
                 exists package, entry = npx package) /\
  (forall other,
     (forall known, known ∈ known_servers -> known ∈ mcp_servers <-> known ∈ other) ->
     mcp_config mcp_servers = mcp_config other).
Proof.
  pose proof mcp_config_cases as Hcases.
  split; [|split].
  - rewrite Hcases. unfold configured, known_servers.
    change (dict_get (lit "mcpServers") [(lit "mcpServers", ?v)]) with (Some v).
    cbv iota beta.
    rewrite !elem_of_cons, elem_of_nil.
    pose proof (enabled_iff (lit "sequential-thinking") mcp_servers) as H1.
    pose proof (enabled_iff (lit "context7") mcp_servers) as H2.
    pose proof (enabled_iff (lit "playwright") mcp_servers) as H3.
    destruct (enabled (lit "sequential-thinking") mcp_servers),
      (enabled (lit "context7") mcp_servers),
      (enabled (lit "playwright") mcp_servers);
      cbn [app dict_get];
      repeat match goal with
             | |- context [str_eqb ?a name] =>
                 let E := fresh "E" in
                 destruct (str_eqb a name) eqn:E;
                 [apply str_eqb_eq in E; subst name|]
             end;
      (split;
       [ intros Hs; first [ split; [tauto | tauto]
                          | now destruct Hs as (? & ?) ]
       | intros (Hk & Hin); first [ now eexists | exfalso ];
         destruct Hk as [->|[->|[->|[]]]];
         rewrite ?str_eqb_refl in *; try discriminate;
         try (apply H1 in Hin; discriminate);
         try (apply H2 in Hin; discriminate);
         try (apply H3 in Hin; discriminate) ]).
  - intros entry. rewrite Hcases. unfold configured.
    change (dict_get (lit "mcpServers") [(lit "mcpServers", ?v)]) with (Some v).
    cbv iota beta.
    destruct (enabled (lit "sequential-thinking") mcp_servers),
      (enabled (lit "context7") mcp_servers),
      (enabled (lit "playwright") mcp_servers);
      cbn [app dict_get];
      repeat match goal with
             | |- context [str_eqb ?a name] => destruct (str_eqb a name)
             end;
      intros H; inversion H; eauto.
  - apply mcp_config_same.
Qed.

(** X21.  With no list of servers, with an empty one, or with any list
    that names Sequential Thinking and neither Context7 nor Playwright,
    the file the constructor writes holds the configuration that
    [PortfolioNASDAQAgent._get_mcp_config] returns, whatever the file
    held before. *)
Theorem sequential_only_config (mcp_servers : option (list str)) mcp_config_path fs :
  match mcp_servers with
  | None | Some [] => True
  | Some l => lit "sequential-thinking" ∈ l /\ (lit "context7" ∉ l) /\
              (lit "playwright" ∉ l)
  end ->
  (_setup_mcp_config (servers_or_default mcp_servers) mcp_config_path fs) !! mcp_config_path =
    Some (JsonFile _get_mcp_config).
Proof.
  intros H. unfold _setup_mcp_config. rewrite lookup_insert_eq. do 2 f_equal.
  assert (Hdef : mcp_config [lit "sequential-thinking"] = _get_mcp_config) by reflexivity.
  destruct mcp_servers as [[|server more]|]; [exact Hdef | | exact Hdef].
  cbn [servers_or_default]. rewrite <- Hdef.
  destruct H as (H1 & H2 & H3).
  apply mcp_config_same.
  intros known Hk. unfold known_servers in Hk. rewrite !elem_of_cons, elem_of_nil in Hk.
  rewrite list_elem_of_singleton.
  destruct Hk as [->|[->|[->|[]]]]; split; intros Hx; try tauto; try discriminate.
Qed.

Lemma sequential_only_config_witness :
  (_setup_mcp_config (servers_or_default (Some [lit "filesystem"; lit "sequential-thinking"]))
     (lit "/srv/AI-Trader/agent/claude_code_agent/mcp_config.json")
     {[ lit "/srv/AI-Trader/agent/claude_code_agent/mcp_config.json" := TextFile (lit "{}") ]})
    !! lit "/srv/AI-Trader/agent/claude_code_agent/mcp_config.json" =
    Some (JsonFile _get_mcp_config).
Proof.
  apply (sequential_only_config (Some [lit "filesystem"; lit "sequential-thinking"])).
  split; [|split].
  - apply list_elem_of_further, list_elem_of_here.
  - intros H. repeat (apply elem_of_cons in H as [H|H]; [discriminate|]).
    now apply elem_of_nil in H.
  - intros H. repeat (apply elem_of_cons in H as [H|H]; [discriminate|]).
    now apply elem_of_nil in H.
Defined.




(** ** The list of agents *)

Section OrderFacts.





End OrderFacts.


